(** * lab_tracker: the report parser of [parser.js]

    A shallow embedding of [src/parser.js] and the proofs of the properties
    its specification states about it.

    Conventions of the embedding.
    - A JavaScript string is a list of characters ([str]); a character is an
      8-bit [ascii] read as the Latin-1 code point of the same number, so the
      development covers every text whose code units are below 256.
      [toLowerCase], [trim] and the class [\s] are the restrictions of the
      ECMAScript ones to that range.
    - A regular expression is a value of [regex], written constructor for
      constructor after the literal in the source, and run by a matcher with
      the backtracking order of ECMAScript ([ms] lists the ways to match in
      priority order, the engine takes the first).
    - A JavaScript number is an IEEE 754 binary64 value, [spec_float] at
      precision 53 and maximal exponent 1024; [Number] applied to a string
      rounds the value of the literal once, to nearest, ties to even (what
      ECMAScript asks for up to 20 significant digits and allows beyond).
    - [null] and [undefined] fields are [None]. *)

From Stdlib Require Import Ascii String List Bool Arith ZArith Lia.
From Stdlib Require Import Floats.SpecFloat.
Import ListNotations.

Set Implicit Arguments.

(** ** Characters and strings *)

Definition str := list ascii.

(** [lit "abc"] is the JavaScript string literal ["abc"]. *)
Definition lit (s : string) : str := list_ascii_of_string s.
Arguments lit s%_string.

Definition code (c : ascii) : N := N_of_ascii c.

Definition between (lo hi : ascii) (c : ascii) : bool :=
  (code lo <=? code c)%N && (code c <=? code hi)%N.

Arguments between (lo hi c)%_char.

Definition isChar (a : ascii) (c : ascii) : bool := Ascii.eqb a c.
Arguments isChar (a c)%_char.

Definition isDigit : ascii -> bool := between "0" "9".
Definition isLower : ascii -> bool := between "a" "z".
Definition isUpper : ascii -> bool := between "A" "Z".

(** The white space and line terminators of ECMAScript below U+0100: TAB, LF,
    VT, FF, CR, SPACE and NO-BREAK SPACE.  This is the class [\s] and the
    set [trim] strips. *)
Definition isSpace (c : ascii) : bool :=
  between "009" "013" c || isChar " " c || isChar "160" c.

(** [String.prototype.toLowerCase] on Latin-1: A-Z, and the accented capitals
    U+00C0-U+00DE except the multiplication sign U+00D7, move up by 32. *)
Definition lowerChar (c : ascii) : ascii :=
  if isUpper c || (between "192" "222" c && negb (isChar "215" c))
  then ascii_of_N (code c + 32) else c.

Definition toLowerCase (s : str) : str := map lowerChar s.

Fixpoint dropWhile (p : ascii -> bool) (s : str) : str :=
  match s with
  | c :: t => if p c then dropWhile p t else s
  | [] => []
  end.

Definition dropWhileEnd (p : ascii -> bool) (s : str) : str :=
  rev (dropWhile p (rev s)).

Definition trimStart (s : str) : str := dropWhile isSpace s.
Definition trimEnd (s : str) : str := dropWhileEnd isSpace s.

Definition trim (s : str) : str := trimEnd (trimStart s).

(** [s.slice(0, n)] and [s.slice(n)] for [0 <= n]. *)
Definition slice_to (n : nat) (s : str) : str := firstn n s.
Definition slice_from (n : nat) (s : str) : str := skipn n s.

Definition includes (c : ascii) (s : str) : bool := existsb (isChar c) s.

Definition startsWith (c : ascii) (s : str) : bool :=
  match s with x :: _ => isChar c x | [] => false end.

(** [s.split(sep)] for a separator of one character: the pieces between the
    occurrences of [sep]; never the empty array. *)
Fixpoint split_on (sep : ascii) (s : str) : list str :=
  match s with
  | [] => [[]]
  | c :: t =>
      if isChar sep c then [] :: split_on sep t
      else match split_on sep t with
           | p :: ps => (c :: p) :: ps
           | [] => [[c]]
           end
  end.

(** [a.join(sep)] *)
Fixpoint join (sep : str) (a : list str) : str :=
  match a with
  | [] => []
  | [x] => x
  | x :: rest => x ++ sep ++ join sep rest
  end.

(** Truthiness of a string: [!s] is [isEmpty s]; [s || null]. *)
Definition isEmpty (s : str) : bool := match s with [] => true | _ => false end.
Definition orNull (s : str) : option str := if isEmpty s then None else Some s.

(** ** Regular expressions *)

Inductive regex : Type :=
| Empty                              (* the empty pattern *)
| Class (p : ascii -> bool)          (* one character of a class *)
| Seq (r1 r2 : regex)                (* r1 r2 *)
| Alt (r1 r2 : regex)                (* r1 | r2 *)
| Star (r : regex)                   (* r*, greedy *)
| Group (i : nat) (r : regex)        (* the capturing group number i *)
| Bol                                (* ^ without the m flag *)
| Eol.                               (* $ without the m flag *)

Definition Plus (r : regex) : regex := Seq r (Star r).
Definition Opt (r : regex) : regex := Alt r Empty.
Definition Chr (c : ascii) : regex := Class (isChar c).
Definition Not (p : ascii -> bool) : regex := Class (fun c => negb (p c)).

(** The characters of a literal, in sequence. *)
Fixpoint Lit (s : str) : regex :=
  match s with
  | [] => Empty
  | [c] => Chr c
  | c :: t => Seq (Chr c) (Lit t)
  end.

(** [r{lo,lo+extra}], greedy: [lo] copies of [r], then up to [extra] more. *)
Fixpoint UpTo (extra : nat) (r : regex) : regex :=
  match extra with
  | 0 => Empty
  | S n => Opt (Seq r (UpTo n r))
  end.

Fixpoint Rep (lo extra : nat) (r : regex) : regex :=
  match lo with
  | 0 => UpTo extra r
  | S n => Seq r (Rep n extra r)
  end.

(** The state of a match in progress: the index reached, the text from there
    on, and the captures made so far (latest first). *)
Record mstate : Type := MState {
  pos : nat;
  rest : str;
  caps : list (nat * str)
}.

Definition advance (st : mstate) (t : str) : mstate :=
  MState (S (pos st)) t (caps st).

Definition capture (i : nat) (from to : mstate) : mstate :=
  MState (pos to) (rest to)
         ((i, firstn (pos to - pos from) (rest from)) :: caps to).

(** The iterations of a greedy star whose body matches as [body]: one more
    iteration first (an iteration that consumes nothing is rejected), the
    empty continuation last.  The fuel is the length of the text left, which
    bounds the number of iterations. *)
Fixpoint star_iter (body : mstate -> list mstate) (fuel : nat) (st : mstate)
  : list mstate :=
  match fuel with
  | 0 => [st]
  | S f =>
      flat_map (fun st' => if pos st <? pos st' then star_iter body f st' else [])
               (body st) ++ [st]
  end.

(** [ms r st]: every way [r] matches from [st], in the order a backtracking
    matcher tries them.  (ECMAScript resets, at each iteration of a star,
    the groups inside it; no pattern of [parser.js] has a group under a
    star, and [ms] does not model the reset.) *)
Fixpoint ms (r : regex) (st : mstate) : list mstate :=
  match r with
  | Empty => [st]
  | Class p =>
      match rest st with
      | c :: t => if p c then [advance st t] else []
      | [] => []
      end
  | Seq r1 r2 => flat_map (ms r2) (ms r1 st)
  | Alt r1 r2 => ms r1 st ++ ms r2 st
  | Star r1 => star_iter (ms r1) (length (rest st)) st
  | Group i r1 => map (capture i st) (ms r1 st)
  | Bol => if pos st =? 0 then [st] else []
  | Eol => if isEmpty (rest st) then [st] else []
  end.

(** The result of a successful match: where it starts, the state where it
    ends, and the text from the start on. *)
Record rmatch : Type := RMatch {
  index : nat;
  from : str;
  final : mstate
}.

Definition matchLength (m : rmatch) : nat := pos (final m) - index m.

(** [m[0]] and [m[i]]; a group that took no part is [undefined]. *)
Definition matched (m : rmatch) : str := firstn (matchLength m) (from m).

Fixpoint assoc (i : nat) (l : list (nat * str)) : option str :=
  match l with
  | [] => None
  | (j, v) :: t => if i =? j then Some v else assoc i t
  end.

Definition group (i : nat) (m : rmatch) : option str := assoc i (caps (final m)).

(** The first match of [r] at or after index [i], where [s] is the text from
    [i] on: the leftmost start, and there the first way to match. *)
Fixpoint exec_at (r : regex) (i : nat) (s : str) : option rmatch :=
  match ms r (MState i s []) with
  | st :: _ => Some (RMatch i s st)
  | [] =>
      match s with
      | [] => None
      | _ :: t => exec_at r (S i) t
      end
  end.

(** [s.match(r)] and [r.exec(s)] for [r] without the g flag; [r.test(s)]. *)
Definition exec (r : regex) (s : str) : option rmatch := exec_at r 0 s.

Definition test (r : regex) (s : str) : bool :=
  match exec r s with Some _ => true | None => false end.

(** [s.replace(r, by)] for [r] with the g flag and [by] without [$]: the
    text between matches is kept, each match becomes [by]; after an empty
    match the search resumes one character further.  [i] is the index of the
    first character of [s] in the whole text; the fuel is its length plus
    one, every round consuming a character. *)
Fixpoint replace_from (r : regex) (by_ : str) (fuel i : nat) (s : str) : str :=
  match fuel with
  | 0 => s
  | S f =>
      match exec_at r i s with
      | None => s
      | Some m =>
          firstn (index m - i) s ++ by_ ++
          (if matchLength m =? 0
           then match rest (final m) with
                | [] => []
                | c :: t => c :: replace_from r by_ f (S (index m)) t
                end
           else replace_from r by_ f (pos (final m)) (rest (final m)))
      end
  end.

Definition replaceAll (r : regex) (by_ : str) (s : str) : str :=
  replace_from r by_ (S (length s)) 0 s.

(** [s.split(r)] without a limit and for [r] without groups: at each index
    [q] from the end [p] of the last separator on, [r] is tried at [q]
    exactly; a match that ends at [p] is passed over.  [acc] is the piece
    under construction, reversed; [s] is the text from [q] on.  A round
    moves [q] forward or, at most once per index, moves [p] up to [q]: the
    fuel is twice the length plus one. *)
Fixpoint split_from (r : regex) (fuel p q : nat) (acc : str) (s : str)
  : list str :=
  match fuel with
  | 0 => [rev acc ++ s]
  | S f =>
      match s with
      | [] => [rev acc]
      | c :: t =>
          match ms r (MState q s []) with
          | st :: _ =>
              if pos st =? p then split_from r f p (S q) (c :: acc) t
              else rev acc :: split_from r f (pos st) (pos st) [] (rest st)
          | [] => split_from r f p (S q) (c :: acc) t
          end
      end
  end.

Definition split (r : regex) (s : str) : list str :=
  match s with
  | [] => match exec r [] with Some _ => [] | None => [[]] end
  | _ => split_from r (S (2 * length s)) 0 0 [] s
  end.

Declare Scope regex_scope.
Delimit Scope regex_scope with re.
Bind Scope regex_scope with regex.
Notation "r1 >> r2" := (Seq r1 r2) (at level 60, right associativity) : regex_scope.
Notation "r1 <|> r2" := (Alt r1 r2) (at level 65, right associativity) : regex_scope.

(** ** Numbers *)

Definition number := spec_float.

Definition prec : Z := 53.
Definition emax : Z := 1024.

Definition NaN : number := S754_nan.
Definition isNaN (x : number) : bool :=
  match x with S754_nan => true | _ => false end.

(** [x < y], [x > y] and [x >= y] on numbers; false when either is NaN. *)
Definition lt (x y : number) : bool := SFltb x y.
Definition gt (x y : number) : bool := SFltb y x.
Definition ge (x y : number) : bool := SFleb y x.

(** The number nearest to an integer, and the product of two numbers. *)
Definition ofZ (n : Z) : number := binary_normalize prec emax n 0 false.
Definition ofNat (n : nat) : number := ofZ (Z.of_nat n).
Definition mul (x y : number) : number := SFmul prec emax x y.

(** [Math.min(x, y)]: NaN if either is; [-0] counts as below [+0]. *)
Definition Math_min (x y : number) : number :=
  if isNaN x || isNaN y then NaN
  else if lt x y then x
  else if lt y x then y
  else match x with S754_zero true => x | _ => y end.

(** The number nearest to [m * 10^e] for [0 <= m], with the sign [neg]:
    for [0 <= e] the integer is rounded, below the quotient [m / 10^-e] is,
    once in both cases. *)
Definition ofDecimal (neg : bool) (m e : Z) : number :=
  match m with
  | Z0 => S754_zero neg
  | Zpos p =>
      if (0 <=? e)%Z then binary_round prec emax neg (p * Z.to_pos (10 ^ e)) 0
      else SFdiv prec emax (S754_finite neg p 0)
                           (S754_finite false (Z.to_pos (10 ^ (- e))) 0)
  | Zneg _ => NaN
  end.

Fixpoint span (p : ascii -> bool) (s : str) : str * str :=
  match s with
  | c :: t => if p c then let (a, b) := span p t in (c :: a, b) else ([], s)
  | [] => ([], [])
  end.

Definition digitVal (c : ascii) : Z :=
  let n := Z.of_N (code c) in
  if isDigit c then n - 48
  else if between "a" "f" c then n - 87
  else if between "A" "F" c then n - 55
  else 0.

Definition digitsVal (radix : Z) (ds : str) : Z :=
  fold_left (fun a c => a * radix + digitVal c)%Z ds 0%Z.

Definition isRadixDigit (radix : Z) (c : ascii) : bool :=
  (isDigit c || between "a" "f" c || between "A" "F" c)
  && (digitVal c <? radix)%Z.

(** [0x], [0o] and [0b] literals: no sign, at least one digit. *)
Definition parseRadix (s : str) : option number :=
  match s with
  | "0"%char :: c :: ds =>
      let radix :=
        if isChar "x" c || isChar "X" c then Some 16%Z
        else if isChar "o" c || isChar "O" c then Some 8%Z
        else if isChar "b" c || isChar "B" c then Some 2%Z
        else None in
      match radix with
      | Some b =>
          if negb (isEmpty ds) && forallb (isRadixDigit b) ds
          then Some (ofZ (digitsVal b ds)) else None
      | None => None
      end
  | _ => None
  end.

(** An optional exponent part [e|E [+|-] digits] and the end of the text. *)
Definition parseExponent (s : str) : option Z :=
  match s with
  | [] => Some 0%Z
  | c :: t =>
      if isChar "e" c || isChar "E" c then
        let '(neg, t') :=
          match t with
          | "-"%char :: u => (true, u)
          | "+"%char :: u => (false, u)
          | _ => (false, t)
          end in
        let (ds, r) := span isDigit t' in
        if isEmpty ds || negb (isEmpty r) then None
        else Some (if neg then - digitsVal 10 ds else digitsVal 10 ds)%Z
      else None
  end.

(** [Infinity], [digits . digits? exp?], [. digits exp?], [digits exp?]. *)
Definition parseUnsignedDecimal (neg : bool) (s : str) : option number :=
  if list_eq_dec ascii_dec s (lit "Infinity") then Some (S754_infinity neg)
  else
    let (ip, r) := span isDigit s in
    match r with
    | "."%char :: r' =>
        let (fp, r'') := span isDigit r' in
        if isEmpty ip && isEmpty fp then None
        else option_map
               (fun e => ofDecimal neg (digitsVal 10 (ip ++ fp))
                                   (e - Z.of_nat (length fp)))
               (parseExponent r'')
    | _ =>
        if isEmpty ip then None
        else option_map (fun e => ofDecimal neg (digitsVal 10 ip) e)
                        (parseExponent r)
    end.

Definition parseDecimal (s : str) : option number :=
  match s with
  | "-"%char :: t => parseUnsignedDecimal true t
  | "+"%char :: t => parseUnsignedDecimal false t
  | _ => parseUnsignedDecimal false s
  end.

(** [Number(s)] for a string [s]: white space is trimmed, the empty string
    is [+0], a numeric literal is its value, anything else NaN. *)
Definition Number (s : str) : number :=
  let t := trim s in
  if isEmpty t then S754_zero false
  else match parseRadix t with
       | Some x => x
       | None => match parseDecimal t with Some x => x | None => NaN end
       end.

(** [Number(v)] for [v] a string or [undefined]. *)
Definition NumberOf (v : option str) : number :=
  match v with Some s => Number s | None => NaN end.

(** JavaScript values, as far as [typeof] tells them apart here. *)
Inductive jsval : Type :=
| JUndefined
| JNull
| JNum (x : number)
| JStr (s : str).

Definition numOrNull (x : option number) : jsval :=
  match x with Some n => JNum n | None => JNull end.
Definition strOrNull (x : option str) : jsval :=
  match x with Some s => JStr s | None => JNull end.

(** ** parser.js *)

Local Open Scope regex_scope.

Definition isLowerAlnum (c : ascii) : bool := isLower c || isDigit c.

(** [/\([^)]*\)/g], [/[^a-z0-9]+/g] and [/^_+|_+$/g]. *)
Definition re_parenthetical : regex :=
  Chr "(" >> Star (Not (isChar ")")) >> Chr ")".
Definition re_nonAlnum : regex := Plus (Not isLowerAlnum).
Definition re_edgeUnderscores : regex :=
  (Bol >> Plus (Chr "_")) <|> (Plus (Chr "_") >> Eol).

Definition normalizeKey (name : str) : str :=
  trim
    (replaceAll re_edgeUnderscores []
       (replaceAll re_nonAlnum (lit "_")
          (replaceAll re_parenthetical []    (* remove parentheticals *)
             (toLowerCase name)))).

(** [[0-9]+(?:\.[0-9]+)?], the numeric token of four patterns below. *)
Definition re_number : regex :=
  Plus (Class isDigit) >> Opt (Chr "." >> Plus (Class isDigit)).

(** [/^([<>]=?)\s*([0-9]+(?:\.[0-9]+)?)$/] *)
Definition re_inequality : regex :=
  Bol >> Group 1 (Class (fun c => isChar "<" c || isChar ">" c) >> Opt (Chr "="))
      >> Star (Class isSpace) >> Group 2 re_number >> Eol.

(** [/^([0-9]+(?:\.[0-9]+)?)\s*-\s*([0-9]+(?:\.[0-9]+)?)$/] *)
Definition re_range : regex :=
  Bol >> Group 1 re_number >> Star (Class isSpace) >> Chr "-"
      >> Star (Class isSpace) >> Group 2 re_number >> Eol.

Module Ref.

Record t : Type := Build {
  refLow : option number;
  refHigh : option number;
  refText : option str
}.

End Ref.

Definition parseRef (refStr : option str) : Ref.t :=
  match refStr with
  | None | Some [] => Ref.Build None None None
  | Some r =>
      let s := trim r in
      (* inequalities like "<5.0" or ">=126" *)
      match exec re_inequality s with
      | Some _ => Ref.Build None None (Some s)
      | None =>
          (* ranges like "14-18" or "4.4 - 6.0" *)
          match exec re_range s with
          | Some range =>
              Ref.Build (Some (NumberOf (group 1 range)))
                        (Some (NumberOf (group 2 range))) None
          | None => Ref.Build None None (Some s)
          end
      end
  end.

(** The flags ["L"] and ["H"]; no flag is [None]. *)
Inductive Flag : Type := FlagL | FlagH.

Definition computeFlag (value refLow refHigh refText : jsval) : option Flag :=
  match value with
  | JNum v =>
      if isNaN v then None
      else if match refLow with JNum lo => lt v lo | _ => false end then Some FlagL
      else if match refHigh with JNum hi => gt v hi | _ => false end then Some FlagH
      else None
  | _ => None
  end.

(** The literal [0.5]. *)
Definition half : number := Number (lit "0.5").

Definition looksLikePanelHeader (line : str) : bool :=
  if isEmpty line then false
  else
    let s := trim line in
    if (length s <? 4) || (45 <? length s) then false
    else if test (Class isDigit) s then false
    else
      (* lots of caps is a hint *)
      let caps := length (replaceAll (Not isUpper) [] s) in
      ge (ofNat caps) (Math_min (ofNat 8) (mul (ofNat (length s)) half)).

(** [/\s+/g] and [/^[0-9]+(?:\.[0-9]+)?$/] *)
Definition re_spaces : regex := Plus (Class isSpace).
Definition re_numberOnly : regex := Bol >> re_number >> Eol.

Record measurement : Type := Measurement {
  key : str;
  name : str;
  value : number;
  unit : option str;
  refLow : option number;
  refHigh : option number;
  refText : option str;
  flag : option Flag;
  rawLine : str;
  panel : option str
}.

(** The loop over [tokens[1..]] of [parseMeasurementLine]: [n] is
    [tokens.length], [i] the index of the head of [ts]. *)
Fixpoint splitUnitRef (n i : nat) (ts unitTokens refTokens : list str)
  : list str * list str :=
  match ts with
  | [] => (unitTokens, refTokens)
  | t :: ts' =>
      let isRefStart :=
        (includes "-" t || startsWith "<" t || startsWith ">" t
         || (test re_numberOnly t && (i =? n - 1))) in
      if negb isRefStart && (length refTokens =? 0)
      then splitUnitRef n (S i) ts' (unitTokens ++ [t]) refTokens
      else splitUnitRef n (S i) ts' unitTokens (refTokens ++ [t])
  end.

Definition parseMeasurementLine (line : str) : option measurement :=
  let s := trim (replaceAll re_spaces (lit " ") line) in
  if isEmpty s then None
  else
    (* Must contain a numeric value to be a measurement line *)
    match exec (Group 1 re_number) s with
    | None => None
    | Some valueMatch =>
        let valueIdx := index valueMatch in
        let namePart := trim (slice_to valueIdx s) in
        if isEmpty namePart then None
        else
          let afterValue := trim (slice_from valueIdx s) in
          (* afterValue begins with number; split into tokens *)
          let tokens := split_on " " afterValue in
          let value := NumberOf (nth_error tokens 0) in
          if isNaN value then None
          else
            let '(unitTokens, refTokens) :=
              splitUnitRef (length tokens) 1 (tl tokens) [] [] in
            let unit := orNull (trim (join (lit " ") unitTokens)) in
            let refStr := orNull (trim (join (lit " ") refTokens)) in
            let r := parseRef refStr in
            let flag :=
              computeFlag (JNum value) (numOrNull (Ref.refLow r))
                          (numOrNull (Ref.refHigh r))
                          (strOrNull (Ref.refText r)) in
            let name := namePart in
            let key := normalizeKey name in
            Some (Measurement key name value unit (Ref.refLow r)
                              (Ref.refHigh r) (Ref.refText r) flag s None)
    end.

(** [{ ...m, panel }] *)
Definition withPanel (m : measurement) (p : str) : measurement :=
  Measurement (key m) (name m) (value m) (unit m) (refLow m) (refHigh m)
              (refText m) (flag m) (rawLine m) (Some p).

(** [/\r?\n/] *)
Definition re_newline : regex := Opt (Chr "013") >> Chr "010".

Definition reportLines (rawText : str) : list str :=
  filter (fun l => negb (isEmpty l)) (map trim (split re_newline rawText)).

(** One round of the loop of [parseReportText] on the state
    [(panel, measurements)]. *)
Definition parseStep (st : str * list measurement) (line : str)
  : str * list measurement :=
  let (panel, measurements) := st in
  if looksLikePanelHeader line
  then (trim (replaceAll re_spaces (lit " ") line), measurements)
  else match parseMeasurementLine line with
       | Some m => (panel, measurements ++ [withPanel m panel])
       | None => (panel, measurements)
       end.

Definition parseReportText (rawText : str) : list measurement :=
  let lines := reportLines rawText in
  snd (fold_left parseStep lines (lit "General", [])).

Definition spaces : regex := Star (Class isSpace).
Definition digits (lo extra : nat) : regex := Rep lo extra (Class isDigit).
Definition re_date : regex :=
  digits 1 1 >> Chr "/" >> digits 1 1 >> Chr "/" >> digits 2 2.
Definition re_separator : regex :=
  Opt (Class (fun c => isChar ":" c || isChar "-" c)).

(** [/Collected\s*On\s*[:\-]?\s*([0-9]{1,2}\/[0-9]{1,2}\/[0-9]{2,4})\s+
      ([0-9]{1,2}:[0-9]{2}\s*(?:AM|PM|am|pm)?)/] *)
Definition re_collectedOn : regex :=
  Lit (lit "Collected") >> spaces >> Lit (lit "On") >> spaces
  >> re_separator >> spaces >> Group 1 re_date >> Plus (Class isSpace)
  >> Group 2 (digits 1 1 >> Chr ":" >> digits 2 0 >> spaces
              >> Opt (Lit (lit "AM") <|> Lit (lit "PM")
                      <|> Lit (lit "am") <|> Lit (lit "pm"))).

(** [/Collection\s*Date\s*[:\-]?\s*([0-9]{1,2}\/[0-9]{1,2}\/[0-9]{2,4})/] *)
Definition re_collectionDate : regex :=
  Lit (lit "Collection") >> spaces >> Lit (lit "Date") >> spaces
  >> re_separator >> spaces >> Group 1 re_date.

Record collectedAt : Type := CollectedAt {
  datePart : option str;
  timePart : str
}.

Definition patterns : list regex := [re_collectedOn; re_collectionDate].

(** The loop [for (const re of patterns)]. *)
Fixpoint firstPattern (ps : list regex) (rawText : str) : option collectedAt :=
  match ps with
  | [] => None
  | re :: ps' =>
      match exec re rawText with
      | Some m =>
          let datePart := group 1 m in
          let timePart :=
            match group 2 m with
            | Some (c :: t) => c :: t
            | _ => lit "00:00"
            end in
          Some (CollectedAt datePart timePart)
      | None => firstPattern ps' rawText
      end
  end.

Definition extractCollectedAt (rawText : str) : option collectedAt :=
  firstPattern patterns rawText.

Local Close Scope regex_scope.

(** ** Reference functions

    What the patterns of [parser.js] compute, written as plain recursive
    functions; the engine is proved to agree with them below. *)

Definition negp (p : ascii -> bool) (c : ascii) : bool := negb (p c).

Definition headIs (p : ascii -> bool) (s : str) : bool :=
  match s with c :: _ => p c | [] => false end.

(** [s.endsWith(c)] *)
Definition endsWith (c : ascii) (s : str) : bool := headIs (isChar c) (rev s).

(** The ways [p*] matches from index [i] of a text, the longest first. *)
Fixpoint runStates (p : ascii -> bool) (i : nat) (s : str)
                   (cs : list (nat * str)) : list mstate :=
  match s with
  | c :: t =>
      if p c then runStates p (S i) t cs ++ [MState i s cs]
      else [MState i s cs]
  | [] => [MState i s cs]
  end.

(** Every maximal run of characters of [p] becomes [by_]. *)
Fixpoint squeezeFrom (p : ascii -> bool) (by_ : str) (inRun : bool) (s : str)
  : str :=
  match s with
  | [] => []
  | c :: t =>
      if p c then
        if inRun then squeezeFrom p by_ true t
        else by_ ++ squeezeFrom p by_ true t
      else c :: squeezeFrom p by_ false t
  end.

Definition squeeze (p : ascii -> bool) (by_ : str) (s : str) : str :=
  squeezeFrom p by_ false s.

(** No two characters of [p] in a row. *)
Fixpoint noAdjacent (p : ascii -> bool) (s : str) : bool :=
  match s with
  | c :: t => negb (p c && headIs p t) && noAdjacent p t
  | [] => true
  end.

(** The pieces of a text between its line breaks, LF or CR LF; [acc] is
    the piece under construction, reversed. *)
Fixpoint splitLines (acc : str) (s : str) : list str :=
  match s with
  | [] => [rev acc]
  | c :: t =>
      if isChar "010" c then rev acc :: splitLines [] t
      else if isChar "013" c then
        match t with
        | d :: t' =>
            if isChar "010" d then rev acc :: splitLines [] t'
            else splitLines (c :: acc) t
        | [] => splitLines (c :: acc) t
        end
      else splitLines (c :: acc) t
  end.

(** A state reached from another by consuming a prefix of the text left. *)
Definition consumes (st st' : mstate) : Prop :=
  exists w, rest st = w ++ rest st' /\ pos st' = pos st + length w.

(** The capturing groups of a pattern, the least length of its matches, the
    group it ends with, and whether every match of it sets the group [i]. *)
Fixpoint groupsOf (r : regex) : list nat :=
  match r with
  | Seq r1 r2 | Alt r1 r2 => groupsOf r1 ++ groupsOf r2
  | Star r1 => groupsOf r1
  | Group i r1 => i :: groupsOf r1
  | _ => []
  end.

Fixpoint minLen (r : regex) : nat :=
  match r with
  | Class _ => 1
  | Seq r1 r2 => minLen r1 + minLen r2
  | Alt r1 r2 => Nat.min (minLen r1) (minLen r2)
  | Group _ r1 => minLen r1
  | _ => 0
  end.

Fixpoint lastGroup (r : regex) : option (nat * regex) :=
  match r with
  | Seq _ r2 => lastGroup r2
  | Group i b => Some (i, b)
  | _ => None
  end.

Fixpoint setsGroup (i : nat) (r : regex) : bool :=
  match r with
  | Seq r1 r2 => setsGroup i r1 || setsGroup i r2
  | Alt r1 r2 => setsGroup i r1 && setsGroup i r2
  | Group j r1 => (i =? j) || setsGroup i r1
  | _ => false
  end.

(** ** The words of the specification

    The notions the properties are stated with.  Those that describe what
    the code does are named after the specification and proved equal to
    the code below. *)

(** Numeric equality [x == y] and [x <= y]. *)
Definition eqn (x y : number) : bool := SFeqb x y.
Definition le (x y : number) : bool := SFleb x y.

(** The shape of a key: characters of [[a-z0-9_]] only, no underscore at
    either end. *)
Definition isKeyChar (c : ascii) : bool :=
  isLower c || isDigit c || isChar "_" c.

Definition keyShape (k : str) : bool :=
  forallb isKeyChar k && negb (startsWith "_" k) && negb (endsWith "_" k).

(** The header rule on a trimmed line [s], in integers: [headerRule] with
    the half of the length not rounded (twice the count against
    min(16, length)), [headerRuleFloor] with the half rounded down. *)
Definition countUpper (s : str) : nat := length (filter isUpper s).

Definition headerRule (s : str) : bool :=
  (4 <=? length s) && (length s <=? 45) && negb (existsb isDigit s)
  && (Nat.min 16 (length s) <=? 2 * countUpper s).

Definition headerRuleFloor (s : str) : bool :=
  negb (isEmpty s) && (4 <=? length s) && (length s <=? 45)
  && negb (existsb isDigit s)
  && (Nat.min 8 (length s / 2) <=? countUpper s).

(** The comparison of [looksLikePanelHeader], made on numbers, against the
    one of [headerRule], on every length and count that pass the guards. *)
Definition thresholdAgrees (len caps : nat) : bool :=
  Bool.eqb (ge (ofNat caps) (Math_min (ofNat 8) (mul (ofNat len) half)))
           (Nat.min 16 len <=? 2 * caps).

Definition thresholdTable : bool :=
  forallb (fun len => forallb (thresholdAgrees len) (seq 0 (S len))) (seq 4 42).

(** The parts of a measurement line: the whitespace-normalized line,
    whether it has a numeric token, where the first one starts, the trimmed
    text before it, and the first token of what follows. *)
Definition normalizedLine (line : str) : str :=
  trim (replaceAll re_spaces (lit " ") line).

Definition hasNumericToken (s : str) : bool := existsb isDigit s.

Definition firstNumericIndex (s : str) : nat :=
  length (fst (span (negp isDigit) s)).

Definition nameText (s : str) : str := trim (firstn (firstNumericIndex s) s).

Definition valueToken (s : str) : str :=
  hd [] (split_on " " (trim (skipn (firstNumericIndex s) s))).

(** The loop of [parseReportText] started with the panel [p]: the panel it
    ends with and the records it pushes. *)
Definition panelAfter (p : str) (lines : list str) : str :=
  fst (fold_left parseStep lines (p, [])).

Definition recordsFrom (p : str) (lines : list str) : list measurement :=
  snd (fold_left parseStep lines (p, [])).

(** The panel of a line: the whitespace-normalized text of the nearest line
    before it that is a header, ["General"] when there is none. *)
Definition panelBefore (before : list str) : str :=
  match find looksLikePanelHeader (rev before) with
  | Some h => trim (replaceAll re_spaces (lit " ") h)
  | None => lit "General"
  end.

(** What one line contributes to the output: nothing for a header, nothing
    for a line that does not parse, else its record stamped with its
    panel. *)
Definition recordOf (before : list str) (line : str) : list measurement :=
  if looksLikePanelHeader line then []
  else match parseMeasurementLine line with
       | Some m => [withPanel m (panelBefore before)]
       | None => []
       end.

(** The record the parser makes of the line ["Page 1 of 3"]. *)
Definition pageLine : str := lit "Page 1 of 3".
Definition pageRecord : measurement :=
  Measurement (lit "page") (lit "Page") (ofZ 1) (Some (lit "of")) None None
              (Some (lit "3")) None pageLine None.

(** The record of scenario 1, ["Haemoglobin (Hb) 12.3 gm/dL 14-18"]:
    [ofDecimal false 123 (-1)] is the number 12.3. *)
Definition haemoglobinLine : str := lit "Haemoglobin (Hb) 12.3 gm/dL 14-18".
Definition haemoglobinRecord : measurement :=
  Measurement (lit "haemoglobin") (lit "Haemoglobin (Hb)")
              (ofDecimal false 123 (-1)) (Some (lit "gm/dL"))
              (Some (ofZ 14)) (Some (ofZ 18)) None (Some FlagL)
              haemoglobinLine None.

(* ================================================================= *)
(** * The rest of the code

    Beyond the properties of the specification: what they leave out of
    [parser.js], then [storage.js] and the handlers of [app.js].  What the
    platform provides and the development does not model further is a
    variable of a section: the text of a date ([Date.UTC] with
    [toISOString]) and the text of a number ([String(x)]).  Rendering - the
    review and history tables, the dropdown, the chart, the download - is
    left out. *)

(** ** The words a pattern matches

    [matches r w]: the pattern [r] can consume exactly the word [w]
    (anchors consume nothing).  The matcher only ever consumes such words. *)
Inductive matches : regex -> str -> Prop :=
| M_Empty : matches Empty []
| M_Class (p : ascii -> bool) (c : ascii) : p c = true -> matches (Class p) [c]
| M_Seq (r1 r2 : regex) (w1 w2 : str) :
    matches r1 w1 -> matches r2 w2 -> matches (Seq r1 r2) (w1 ++ w2)
| M_AltL (r1 r2 : regex) (w : str) : matches r1 w -> matches (Alt r1 r2) w
| M_AltR (r1 r2 : regex) (w : str) : matches r2 w -> matches (Alt r1 r2) w
| M_StarNil (r : regex) : matches (Star r) []
| M_StarCons (r : regex) (w1 w2 : str) :
    matches r w1 -> matches (Star r) w2 -> matches (Star r) (w1 ++ w2)
| M_Group (i : nat) (r : regex) (w : str) : matches r w -> matches (Group i r) w
| M_Bol : matches Bol []
| M_Eol : matches Eol [].

(** The groups of a pattern with their bodies. *)
Fixpoint groupBodies (r : regex) : list (nat * regex) :=
  match r with
  | Seq r1 r2 | Alt r1 r2 => groupBodies r1 ++ groupBodies r2
  | Star r1 => groupBodies r1
  | Group i r1 => (i, r1) :: groupBodies r1
  | _ => []
  end.

(** A numeric token [[0-9]+(\.[0-9]+)?], recognized directly. *)
Definition decimalToken (w : str) : bool :=
  let (ip, r) := span isDigit w in
  negb (isEmpty ip)
  && match r with
     | [] => true
     | c :: fp => isChar "." c && negb (isEmpty fp) && forallb isDigit fp
     end.

(** ** The parts of a measurement record

    The tokens from the first numeric token on, their split into unit and
    reference tokens by the loop of [parseMeasurementLine], and the parsed
    reference, as functions of the whitespace-normalized line. *)
Definition lineTokens (s : str) : list str :=
  split_on " " (trim (skipn (firstNumericIndex s) s)).

Definition lineUnitRef (s : str) : list str * list str :=
  splitUnitRef (length (lineTokens s)) 1 (tl (lineTokens s)) [] [].

Definition lineRef (s : str) : Ref.t :=
  parseRef (orNull (trim (join (lit " ") (snd (lineUnitRef s))))).

(** The test [isRefStart] of the loop, for the token [t] at index [i] of [n]
    tokens. *)
Definition isRefStart (n i : nat) (t : str) : bool :=
  includes "-" t || startsWith "<" t || startsWith ">" t
  || (test re_numberOnly t && (i =? n - 1)).

(** The sign of a number: [true] for a negative number and for [-0]. *)
Definition signBit (x : number) : bool :=
  match x with
  | S754_zero s | S754_infinity s | S754_finite s _ _ => s
  | S754_nan => false
  end.

(** ** Lines and tokens, directly *)

(** [a] put before the first piece of a list of pieces. *)
Definition prepend (a : str) (l : list str) : list str :=
  match l with
  | p :: ps => (a ++ p) :: ps
  | [] => [a]
  end.

(** A record without its panel. *)
Definition unstamped (m : measurement) : measurement :=
  Measurement (key m) (name m) (value m) (unit m) (refLow m) (refHigh m)
              (refText m) (flag m) (rawLine m) None.

(** The unit and reference tokens without accumulators: the tokens before
    the first one that [isRefStart] accepts, and the tokens from it on. *)
Fixpoint unitRefSplit (n i : nat) (ts : list str) : list str * list str :=
  match ts with
  | [] => ([], [])
  | t :: ts' =>
      if isRefStart n i t then ([], ts)
      else let (u, r) := unitRefSplit n (S i) ts' in (t :: u, r)
  end.

(** ** app.js: [escapeHtml] *)

(** The double quote, U+0022. *)
Definition dquote : ascii := "034"%char.

(** [s.replaceAll(c, by)] for a pattern [c] of one character and a
    replacement without [$]. *)
Definition replaceAllChar (c : ascii) (by_ : str) (s : str) : str :=
  flat_map (fun x => if isChar c x then by_ else [x]) s.

(** [String(s ?? "")] for [s] a string, [null] or [undefined]. *)
Definition stringOrEmpty (s : option str) : str :=
  match s with Some x => x | None => [] end.

Definition escapeHtml (s : option str) : str :=
  replaceAllChar dquote (lit "&quot;")
    (replaceAllChar ">" (lit "&gt;")
       (replaceAllChar "<" (lit "&lt;")
          (replaceAllChar "&" (lit "&amp;") (stringOrEmpty s)))).

(** What [escapeHtml] makes of one character. *)
Definition escapeChar (c : ascii) : str :=
  if isChar "&" c then lit "&amp;"
  else if isChar "<" c then lit "&lt;"
  else if isChar ">" c then lit "&gt;"
  else if isChar dquote c then lit "&quot;"
  else [c].

(** Reading escaped text back: each of the four entities becomes its
    character. *)
Fixpoint unescapeHtml (fuel : nat) (s : str) : str :=
  match fuel with
  | 0 => s
  | S f =>
      match s with
      | [] => []
      | "&"%char :: "a"%char :: "m"%char :: "p"%char :: ";"%char :: t =>
          "&"%char :: unescapeHtml f t
      | "&"%char :: "l"%char :: "t"%char :: ";"%char :: t =>
          "<"%char :: unescapeHtml f t
      | "&"%char :: "g"%char :: "t"%char :: ";"%char :: t =>
          ">"%char :: unescapeHtml f t
      | "&"%char :: "q"%char :: "u"%char :: "o"%char :: "t"%char :: ";"%char :: t =>
          dquote :: unescapeHtml f t
      | c :: t => c :: unescapeHtml f t
      end
  end.

(** ** Parentheticals, directly *)

(** [s.replace(/\([^)]*\)/g, "")]: from an opening parenthesis that has a
    closing one after it, everything is dropped up to the first closing
    one; [inside] tells whether such a stretch is being dropped. *)
Fixpoint stripParens (inside : bool) (s : str) : str :=
  match s with
  | [] => []
  | c :: t =>
      if inside then
        if isChar ")" c then stripParens false t else stripParens true t
      else if isChar "(" c && existsb (isChar ")") t then stripParens true t
      else c :: stripParens false t
  end.


(** ** storage.js

    The store of localforage holds one item, ["measurements"]: absent
    ([None], read as [null]) or an array of stored points.  Every function
    of storage.js waits for the store; what it does with the item read and
    what it writes are the definitions below, and the waiting is part of
    the tasks of app.js further down. *)

Module Stored.
(** [{ ...m, collectedAtISO, reportId, sourceName }] *)
Record t : Type := Build {
  m : measurement;
  collectedAtISO : str;
  reportId : str;
  sourceName : str
}.
End Stored.

Module Report.
(** [{ reportId, collectedAtISO, sourceName, measurements: [...] }] *)
Record t (A : Type) : Type := Build {
  reportId : str;
  collectedAtISO : str;
  sourceName : str;
  measurements : list A
}.
End Report.

Definition database : Type := option (list Stored.t).

(** [(await db.getItem("measurements")) || []], from the item read on. *)
Definition getAllMeasurements (item : database) : list Stored.t :=
  match item with Some all => all | None => [] end.

(** [db.setItem("measurements", all)], as the item it leaves. *)
Definition saveMeasurements (all : list Stored.t) : database := Some all.

(** [db.clear()], as the item it leaves. *)
Definition clearAll : database := None.

(** [addReportMeasurements] from the item read on: the array written and
    returned. *)
Definition addReportMeasurements (report : Report.t measurement)
                                 (item : database) : list Stored.t :=
  let existing := getAllMeasurements item in
  let merged :=
    existing ++
    map (fun m => Stored.Build m (Report.collectedAtISO report)
                               (Report.reportId report)
                               (Report.sourceName report))
        (Report.measurements report) in
  merged.

(** ** app.js: the time of day of [toISO] *)

Definition add (x y : number) : number := SFadd prec emax x y.
Definition sub (x y : number) : number := SFsub prec emax x y.

(** [a === b] on strings. *)
Definition eqStr (a b : str) : bool :=
  if list_eq_dec ascii_dec a b then true else false.

Local Open Scope regex_scope.

(** [/^([0-9]{1,2}):([0-9]{2})\s*(AM|PM|am|pm)?$/] *)
Definition re_time : regex :=
  Bol >> Group 1 (digits 1 1) >> Chr ":" >> Group 2 (digits 2 0) >> spaces
  >> Opt (Group 3 (Lit (lit "AM") <|> Lit (lit "PM")
                   <|> Lit (lit "am") <|> Lit (lit "pm")))
  >> Eol.

Local Close Scope regex_scope.

(** The hours and minutes of [toISO]: [0] and [0] unless the time part
    matches. *)
Definition timeOfDay (timePart : str) : number * number :=
  match exec re_time (trim timePart) with
  | Some t =>
      let hours := NumberOf (group 1 t) in
      let minutes := NumberOf (group 2 t) in
      let ampm := option_map toLowerCase (group 3 t) in
      let ampmIs (x : str) :=
        match ampm with Some a => eqStr a x | None => false end in
      let hours :=
        if ampmIs (lit "pm") && negb (eqn hours (ofZ 12))
        then add hours (ofZ 12) else hours in
      let hours :=
        if ampmIs (lit "am") && eqn hours (ofZ 12) then ofZ 0 else hours in
      (hours, minutes)
  | None => (ofZ 0, ofZ 0)
  end.

(** ** app.js: the draft, its review and the buttons

    The measurements of a draft are objects shared between the draft, the
    inputs of the review table and a report on its way to the store; they
    live in a heap and are named by their addresses.  A handler runs until
    it waits for the store; what is left of it is a task, which goes on at
    any later moment, other handlers and tasks in between.  Every order of
    the events and of the steps of the tasks is allowed, also the orders
    that a disabled button or the store rules out: what holds of all of
    them holds of the page. *)

Definition addr : Type := nat.

Module Draft.
(** [parsedDraft]: [{ collectedAtISO, sourceName, measurements[] }] *)
Record t : Type := Build {
  collectedAtISO : str;
  sourceName : str;
  measurements : list addr
}.
End Draft.

Inductive task : Type :=
| AwaitGetItem (cleaned : Report.t addr)
    (* addReportMeasurements has asked for the item *)
| GotItem (cleaned : Report.t addr) (item : database)
    (* the item is read; the rest of addReportMeasurements has not run *)
| AwaitSetItem (merged : list Stored.t)
    (* saveMeasurements has asked for the write *)
| Saved
    (* the write is done; the rest of the handler of btnSave has not run *)
| AwaitClear.
    (* clearAll has asked for the store to be cleared *)

Record state : Type := State {
  heap : list measurement;
  parsedDraft : option Draft.t;
  db : database;
  tasks : list task
}.

(** The objects at the addresses [l]. *)
Definition objects (h : list measurement) (l : list addr) : list measurement :=
  flat_map (fun a => match nth_error h a with Some m => [m] | None => [] end) l.

Fixpoint update (A : Type) (i : nat) (f : A -> A) (l : list A) : list A :=
  match l, i with
  | [], _ => []
  | x :: t, 0 => f x :: t
  | x :: t, S j => x :: update j f t
  end.

Fixpoint remove_nth (A : Type) (i : nat) (l : list A) : list A :=
  match l, i with
  | [], _ => []
  | _ :: t, 0 => t
  | x :: t, S j => x :: remove_nth j t
  end.

(** The text of the pages, as the handler of btnParse builds it from the
    text items of each page. *)
Definition fullTextOf (pages : list (list str)) : str :=
  fold_left
    (fun fullText items => fullText ++ join ["010"%char] items ++ ["010"%char])
    pages [].

(** The fields that the inputs of the review table are bound to. *)
Inductive field : Type := FName | FValue | FUnit | FRefText.

(** [m.value = Number(inp.value)], or [m[field] = inp.value]. *)
Definition setField (f : field) (text : str) (m : measurement) : measurement :=
  match f with
  | FValue =>
      Measurement (key m) (name m) (Number text) (unit m) (refLow m)
                  (refHigh m) (refText m) (flag m) (rawLine m) (panel m)
  | FName =>
      Measurement (key m) text (value m) (unit m) (refLow m)
                  (refHigh m) (refText m) (flag m) (rawLine m) (panel m)
  | FUnit =>
      Measurement (key m) (name m) (value m) (Some text) (refLow m)
                  (refHigh m) (refText m) (flag m) (rawLine m) (panel m)
  | FRefText =>
      Measurement (key m) (name m) (value m) (unit m) (refLow m)
                  (refHigh m) (Some text) (flag m) (rawLine m) (panel m)
  end.

(** The handler of the input of row [idx] and field [f], [text] typed. *)
Definition onInput (idx : nat) (f : field) (text : str) (s : state) : state :=
  match parsedDraft s with
  | None => s
  | Some d =>
      match nth_error (Draft.measurements d) idx with
      | None => s
      | Some a =>
          State (update a (setField f text) (heap s)) (parsedDraft s) (db s)
              (tasks s)
      end
  end.

(** [m.key && typeof m.value === "number" && !Number.isNaN(m.value)] *)
Definition keptOnSave (m : measurement) : bool :=
  negb (isEmpty (key m)) && negb (isNaN (value m)).

(** The handler of btnSave up to its wait for [addReportMeasurements],
    [uuid] being [crypto.randomUUID()]. *)
Definition onSave (uuid : str) (s : state) : state :=
  match parsedDraft s with
  | None => s
  | Some d =>
      let cleaned :=
        Report.Build uuid (Draft.collectedAtISO d) (Draft.sourceName d)
          (filter (fun a => match nth_error (heap s) a with
                            | Some m => keptOnSave m
                            | None => false
                            end)
                  (Draft.measurements d)) in
      State (heap s) (parsedDraft s) (db s) (tasks s ++ [AwaitGetItem cleaned])
  end.

(** The handler of btnClear up to its wait for [clearAll]. *)
Definition onClear (s : state) : state :=
  State (heap s) (parsedDraft s) (db s) (tasks s ++ [AwaitClear]).

(** The handler of the change of the file input. *)
Definition onFileChange (s : state) : state :=
  State (heap s) None (db s) (tasks s).

(** The report whose measurements are read from the heap, when the spread
    [{ ...m, ... }] of [addReportMeasurements] copies them. *)
Definition reportNow (h : list measurement) (cleaned : Report.t addr)
  : Report.t measurement :=
  Report.Build (Report.reportId cleaned) (Report.collectedAtISO cleaned)
               (Report.sourceName cleaned)
               (objects h (Report.measurements cleaned)).

(** The next step of a task: the state it leaves and what remains of the
    task. *)
Definition resume (t : task) (s : state) : state * option task :=
  match t with
  | AwaitGetItem cleaned => (s, Some (GotItem cleaned (db s)))
  | GotItem cleaned item =>
      (s, Some (AwaitSetItem
                  (addReportMeasurements (reportNow (heap s) cleaned) item)))
  | AwaitSetItem merged =>
      (State (heap s) (parsedDraft s) (saveMeasurements merged) (tasks s),
       Some Saved)
  | Saved => (State (heap s) None (db s) (tasks s), None)
  | AwaitClear => (State (heap s) (parsedDraft s) clearAll (tasks s), None)
  end.

Inductive event : Type :=
| FileChange
| Parsed (pages : list (list str)) (fileName now : str)
| Input (idx : nat) (f : field) (text : str)
| SaveClick (uuid : str)
| ClearClick
| Resume (i : nat).   (* the task at place [i] takes its next step *)

(** The page as loaded, the store holding [item]. *)
Definition loaded (item : database) : state := State [] None item [].

(** ** app.js: [toISO] and the handlers that need it *)

Section Dates.

(** [new Date(Date.UTC(y, m, d, h, min, s)).toISOString()] is the
    platform's: a text, or [None] when the date is invalid and
    [toISOString] throws. *)
Variable isoOfUTC :
  number -> number -> number -> number -> number -> number -> option str.

(** [toISO]; [None] when it throws: no date part, a date part with less
    than three pieces (the length of [undefined] is asked for), or an
    invalid date. *)
Definition toISO (datePart : option str) (timePart : str) : option str :=
  match datePart with
  | None => None
  | Some datePart =>
      match map trim (split_on "/" datePart) with
      | dd :: mm :: yyyyRaw :: _ =>
          let yyyy :=
            if length yyyyRaw =? 2 then lit "20" ++ yyyyRaw else yyyyRaw in
          let (hours, minutes) := timeOfDay timePart in
          isoOfUTC (Number yyyy) (sub (Number mm) (ofZ 1)) (Number dd)
                   hours minutes (ofZ 0)
      | _ => None
      end
  end.

(** The handler of btnParse once the text is there; [now] is
    [new Date().toISOString()].  An exception of [toISO] is caught and
    leaves the draft as it is, as does a text without measurements. *)
Definition onParsed (pages : list (list str)) (fileName now : str) (s : state)
  : state :=
  let fullText := fullTextOf pages in
  let collectedAtISO :=
    match extractCollectedAt fullText with
    | Some dt => toISO (datePart dt) (timePart dt)
    | None => Some now
    end in
  match collectedAtISO with
  | None => s
  | Some collectedAtISO =>
      let measurements := parseReportText fullText in
      match measurements with
      | [] => s
      | _ =>
          State (heap s ++ measurements)
              (Some (Draft.Build collectedAtISO fileName
                       (seq (length (heap s)) (length measurements))))
              (db s) (tasks s)
      end
  end.

Definition step (s : state) (e : event) : state :=
  match e with
  | FileChange => onFileChange s
  | Parsed pages fileName now => onParsed pages fileName now s
  | Input idx f text => onInput idx f text s
  | SaveClick uuid => onSave uuid s
  | ClearClick => onClear s
  | Resume i =>
      match nth_error (tasks s) i with
      | None => s
      | Some t =>
          let (s', next) := resume t s in
          State (heap s') (parsedDraft s') (db s')
              (match next with
               | Some t' => update i (fun _ => t') (tasks s')
               | None => remove_nth i (tasks s')
               end)
      end
  end.

Definition run (s : state) (events : list event) : state := fold_left step events s.

End Dates.

(** *** What stays of the record of the parser

    The fields that no input of the review table is bound to, and the
    measurements that have them as [parseMeasurementLine] computes them
    from the raw line, under some panel. *)
Definition parsedFields (m : measurement)
  : str * option number * option number * option Flag * str * option str :=
  (key m, refLow m, refHigh m, flag m, rawLine m, panel m).

Definition asParsed (m : measurement) : Prop :=
  exists (m0 : measurement) (p : str),
    parseMeasurementLine (rawLine m) = Some m0
    /\ parsedFields m = parsedFields (withPanel m0 p).

Definition storedAsParsed (st : Stored.t) : Prop :=
  key (Stored.m st) <> [] /\ asParsed (Stored.m st).

(** An address that holds a measurement with a key. *)
Definition keyed (h : list measurement) (a : addr) : Prop :=
  exists m, nth_error h a = Some m /\ key m <> [].

(** What holds of a task on its way. *)
Definition taskAsParsed (h : list measurement) (t : task) : Prop :=
  match t with
  | AwaitGetItem cleaned => Forall (keyed h) (Report.measurements cleaned)
  | GotItem cleaned item =>
      Forall (keyed h) (Report.measurements cleaned)
      /\ Forall storedAsParsed (getAllMeasurements item)
  | AwaitSetItem merged => Forall storedAsParsed merged
  | Saved | AwaitClear => True
  end.

Definition stateAsParsed (s : state) : Prop :=
  Forall asParsed (heap s)
  /\ Forall storedAsParsed (getAllMeasurements (db s))
  /\ Forall (taskAsParsed (heap s)) (tasks s).

(** ** app.js: [toCSV] *)

Definition flagText (f : Flag) : str :=
  match f with FlagL => lit "L" | FlagH => lit "H" end.

(** [r[c]]: the property named [c] of a stored point. *)
Definition prop (r : Stored.t) (c : str) : jsval :=
  let m := Stored.m r in
  if eqStr c (lit "collectedAtISO") then JStr (Stored.collectedAtISO r)
  else if eqStr c (lit "panel") then strOrNull (panel m)
  else if eqStr c (lit "key") then JStr (key m)
  else if eqStr c (lit "name") then JStr (name m)
  else if eqStr c (lit "value") then JNum (value m)
  else if eqStr c (lit "unit") then strOrNull (unit m)
  else if eqStr c (lit "refLow") then numOrNull (refLow m)
  else if eqStr c (lit "refHigh") then numOrNull (refHigh m)
  else if eqStr c (lit "refText") then strOrNull (refText m)
  else if eqStr c (lit "flag") then strOrNull (option_map flagText (flag m))
  else if eqStr c (lit "reportId") then JStr (Stored.reportId r)
  else if eqStr c (lit "sourceName") then JStr (Stored.sourceName r)
  else if eqStr c (lit "rawLine") then JStr (rawLine m)
  else JUndefined.

Definition cols : list str :=
  [lit "collectedAtISO"; lit "panel"; lit "key"; lit "name"; lit "value";
   lit "unit"; lit "refLow"; lit "refHigh"; lit "refText"; lit "flag";
   lit "reportId"; lit "sourceName"; lit "rawLine"].

Section Csv.

(** [String(x)] for a number [x] is the platform's. *)
Variable numberToString : number -> str.

(** [String(v ?? "")] *)
Definition text (v : jsval) : str :=
  match v with
  | JUndefined | JNull => []
  | JNum x => numberToString x
  | JStr s => s
  end.

(** [escape]: the text between double quotes, each double quote of the
    text doubled. *)
Definition escape (v : jsval) : str :=
  [dquote] ++ replaceAllChar dquote [dquote; dquote] (text v) ++ [dquote].

Definition toCSV (rows : list Stored.t) : str :=
  join ["010"%char]
       ([join (lit ",") cols]
        ++ map (fun r => join (lit ",") (map (fun c => escape (prop r c)) cols))
               rows).

End Csv.

(** *** Reading comma-separated values

    A reader of the format of RFC 4180, the records separated by LF: a
    field is plain or between double quotes; between double quotes a
    doubled double quote stands for one, and commas and line breaks are
    part of the field.  [field] is the field under construction, reversed,
    [record] the fields of the record so far, the last one first. *)
Inductive csvMode : Type := FieldStart | Plain | Quoted | QuoteSeen.

Fixpoint readCSV (mode : csvMode) (field : str) (record : list str) (s : str)
  : list (list str) :=
  match s with
  | [] => [rev (rev field :: record)]
  | c :: t =>
      match mode with
      | Quoted =>
          if isChar dquote c then readCSV QuoteSeen field record t
          else readCSV Quoted (c :: field) record t
      | _ =>
          if isChar "," c then readCSV FieldStart [] (rev field :: record) t
          else if isChar "010" c
          then rev (rev field :: record) :: readCSV FieldStart [] [] t
          else if isChar dquote c then
            match mode with
            | FieldStart => readCSV Quoted field record t
            | QuoteSeen => readCSV Quoted (c :: field) record t
            | _ => readCSV Plain (c :: field) record t
            end
          else readCSV Plain (c :: field) record t
      end
  end.

Definition parseCSV (s : str) : list (list str) := readCSV FieldStart [] [] s.

(** A text starts a separator, or is at its end. *)
Definition atSeparator (rest : str) : bool :=
  match rest with
  | [] => true
  | c :: _ => isChar "," c || isChar "010" c
  end.

(** What the reader yields once the field [w] is read, a separator or the
    end next. *)
Definition afterField (w : str) (record : list str) (rest : str)
  : list (list str) :=
  match rest with
  | [] => [rev (w :: record)]
  | c :: more =>
      if isChar "," c then readCSV FieldStart [] (w :: record) more
      else rev (w :: record) :: readCSV FieldStart [] [] more
  end.

Definition plainChar (c : ascii) : bool :=
  negb (isChar "," c || isChar "010" c || isChar dquote c).

(** *** The date and the time as written

    A text of [lo] to [hi] digits; the year that [toISO] makes of the year
    as written (two digits count from 2000); the hour of the day for an
    hour as written and [AM], [PM], [am], [pm] or nothing after it. *)
Definition digitString (lo hi : nat) (w : str) : bool :=
  forallb isDigit w && (lo <=? length w) && (length w <=? hi).

Definition yearOf (yy : str) : Z :=
  if length yy =? 2 then (2000 + digitsVal 10 yy)%Z else digitsVal 10 yy.

Definition meridiems : list str := [lit "AM"; lit "PM"; lit "am"; lit "pm"].

Definition hour24 (h : Z) (ap : str) : Z :=
  if eqStr (toLowerCase ap) (lit "pm") && negb (h =? 12)%Z then (h + 12)%Z
  else if eqStr (toLowerCase ap) (lit "am") && (h =? 12)%Z then 0%Z
  else h.

Local Open Scope regex_scope.

(** The end of the time pattern: [\s*(AM|PM|am|pm)?$]. *)
Definition timeTail : regex :=
  spaces >> Opt (Group 3 (Lit (lit "AM") <|> Lit (lit "PM")
                          <|> Lit (lit "am") <|> Lit (lit "pm")))
  >> Eol.

Local Close Scope regex_scope.

(** *** The first way to match

    [firstMatch r st st']: the first way that [r] matches from [st] ends
    in [st']. *)
Definition firstMatch (r : regex) (st st' : mstate) : Prop :=
  exists tl, ms r st = st' :: tl.

(** *** The words of a measurement line

    A word of a name: not empty, no white space, no digit.  A word of a
    unit: not empty, no white space, no hyphen, no "<" or ">" at its
    start. *)
Definition nameWord (w : str) : bool :=
  negb (isEmpty w) && negb (existsb isSpace w) && negb (existsb isDigit w).

Definition unitWord (u : str) : bool :=
  negb (isEmpty u) && negb (existsb isSpace u) && negb (includes "-" u)
  && negb (startsWith "<" u) && negb (startsWith ">" u).

(** A word without white space. *)
Definition word (w : str) : bool :=
  negb (isEmpty w) && negb (existsb isSpace w).

(** The words of a reference after the words [us] of a unit: none, the
    last word of the unit then not being a number; or words the first of
    which has a hyphen, starts with "<" or ">", or is a number and the
    only one. *)
Definition refWords (us rs : list str) : bool :=
  forallb word rs
  && match rs with
     | [] => negb (test re_numberOnly (last us []))
     | r0 :: rest =>
         includes "-" r0 || startsWith "<" r0 || startsWith ">" r0
         || (test re_numberOnly r0
             && match rest with [] => true | _ => false end)
     end.
(* ================================================================= *)
(** * Proofs *)

(** ** Characters *)

Ltac ascii_cases c :=
  destruct c as [[|] [|] [|] [|] [|] [|] [|] [|]].

(** ** Lists of characters *)

Lemma span_app (p : ascii -> bool) (s : str) :
  fst (span p s) ++ snd (span p s) = s.
Proof.
  induction s as [|c t IH]; simpl; [reflexivity|].
  destruct (p c); [|reflexivity].
  destruct (span p t) as [a b]; simpl in *. now rewrite IH.
Qed.

Lemma span_fst_all (p : ascii -> bool) (s : str) :
  forallb p (fst (span p s)) = true.
Proof.
  induction s as [|c t IH]; simpl; [reflexivity|].
  destruct (p c) eqn:E; [|reflexivity].
  destruct (span p t) as [a b]; simpl in *. now rewrite E.
Qed.

Lemma span_snd_head (p : ascii -> bool) (s : str) (c : ascii) (t : str) :
  snd (span p s) = c :: t -> p c = false.
Proof.
  induction s as [|d u IH]; simpl; [discriminate|].
  destruct (p d) eqn:E.
  - destruct (span p u) as [a b]; simpl in *. exact IH.
  - simpl. intros [= -> _]. exact E.
Qed.

Lemma span_snd_dropWhile (p : ascii -> bool) (s : str) :
  snd (span p s) = dropWhile p s.
Proof.
  induction s as [|c t IH]; simpl; [reflexivity|].
  destruct (p c); [|reflexivity].
  destruct (span p t) as [a b]; simpl in *. exact IH.
Qed.

Lemma span_length (p : ascii -> bool) (s : str) :
  length (fst (span p s)) + length (snd (span p s)) = length s.
Proof. rewrite <- length_app, span_app. reflexivity. Qed.

(** ** The matcher on the patterns of the parser *)

Lemma ms_class (p : ascii -> bool) (i : nat) (s : str) (cs : list (nat * str)) :
  ms (Class p) (MState i s cs) =
  match s with
  | c :: t => if p c then [MState (S i) t cs] else []
  | [] => []
  end.
Proof. reflexivity. Qed.

Lemma star_class (p : ascii -> bool) (cs : list (nat * str)) :
  forall (s : str) (fuel i : nat),
    length s <= fuel ->
    star_iter (ms (Class p)) fuel (MState i s cs) = runStates p i s cs.
Proof.
  induction s as [|c t IH]; intros fuel i Hf.
  - destruct fuel; reflexivity.
  - destruct fuel as [|f]; [simpl in Hf; lia|].
    cbn [star_iter runStates]. rewrite ms_class.
    destruct (p c) eqn:E; [|reflexivity].
    cbn [flat_map pos]. rewrite app_nil_r.
    replace (i <? S i) with true by (symmetry; apply Nat.ltb_lt; lia).
    rewrite IH by (simpl in Hf; lia). reflexivity.
Qed.

Lemma ms_star_class (p : ascii -> bool) (i : nat) (s : str) (cs : list (nat * str)) :
  ms (Star (Class p)) (MState i s cs) = runStates p i s cs.
Proof. simpl. apply star_class. lia. Qed.

(** The first of the ways [p*] matches takes the whole run. *)
Lemma runStates_head (p : ascii -> bool) (cs : list (nat * str)) :
  forall (s : str) (i : nat),
    exists tl,
      runStates p i s cs =
      MState (i + length (fst (span p s))) (snd (span p s)) cs :: tl.
Proof.
  induction s as [|c t IH]; intros i; simpl.
  - exists []. now rewrite Nat.add_0_r.
  - destruct (p c).
    + destruct (IH (S i)) as [tl ->].
      destruct (span p t) as [a b]; simpl.
      exists (tl ++ [MState i (c :: t) cs]).
      now rewrite Nat.add_succ_r.
    + exists []. now rewrite Nat.add_0_r.
Qed.

Lemma ms_plus_class (p : ascii -> bool) (i : nat) (s : str) (cs : list (nat * str)) :
  ms (Plus (Class p)) (MState i s cs) =
  match s with
  | c :: t => if p c then runStates p (S i) t cs else []
  | [] => []
  end.
Proof.
  change (ms (Plus (Class p)) (MState i s cs))
    with (flat_map (ms (Star (Class p))) (ms (Class p) (MState i s cs))).
  rewrite ms_class.
  destruct s as [|c t]; [reflexivity|].
  destruct (p c); [|reflexivity].
  cbn [flat_map]. rewrite app_nil_r. apply ms_star_class.
Qed.

Lemma exec_at_eq (r : regex) (i : nat) (s : str) :
  exec_at r i s =
  match ms r (MState i s []) with
  | st :: _ => Some (RMatch i s st)
  | [] => match s with
          | [] => None
          | _ :: t => exec_at r (S i) t
          end
  end.
Proof. destruct s; reflexivity. Qed.

Lemma span_negp_hit (p : ascii -> bool) (c : ascii) (t : str) :
  p c = true -> span (negp p) (c :: t) = ([], c :: t).
Proof. intros E. simpl. unfold negp. now rewrite E. Qed.

Lemma dropWhile_head (p : ascii -> bool) (s : str) (c : ascii) (t : str) :
  dropWhile p s = c :: t -> p c = false.
Proof. rewrite <- span_snd_dropWhile. apply span_snd_head. Qed.

Lemma negp_false (p : ascii -> bool) (c : ascii) : negp p c = false -> p c = true.
Proof. unfold negp. now destruct (p c). Qed.

(** The first match of [p+]: after the longest prefix free of [p], the
    whole run of [p] that follows. *)
Lemma exec_at_plus_class (p : ascii -> bool) :
  forall (s : str) (i : nat),
    exec_at (Plus (Class p)) i s =
    match dropWhile (negp p) s with
    | [] => None
    | suf =>
        let j := i + length (fst (span (negp p) s)) in
        Some (RMatch j suf
                (MState (j + length (fst (span p suf))) (snd (span p suf)) []))
    end.
Proof.
  induction s as [|c t IH]; intros i; rewrite exec_at_eq, ms_plus_class.
  - reflexivity.
  - cbn [dropWhile span]. destruct (p c) eqn:E.
    + assert (N : negp p c = false) by (unfold negp; now rewrite E).
      rewrite !N.
      destruct (runStates_head p [] t (S i)) as [tl ->].
      cbn [fst length]. rewrite Nat.add_0_r. cbn [span]. rewrite E.
      destruct (span p t) as [a b]; cbn [fst snd length].
      now rewrite Nat.add_succ_r.
    + assert (N : negp p c = true) by (unfold negp; now rewrite E).
      rewrite !N. rewrite IH. destruct (dropWhile (negp p) t) as [|d u]; [reflexivity|].
      destruct (span (negp p) t) as [a b]; cbn [fst snd length].
      cbv zeta. now rewrite Nat.add_succ_r.
Qed.

Lemma squeezeFrom_true (p : ascii -> bool) (by_ : str) (s : str) :
  squeezeFrom p by_ true s = squeezeFrom p by_ false (dropWhile p s).
Proof.
  induction s as [|c t IH]; [reflexivity|].
  simpl. destruct (p c) eqn:E; [exact IH|].
  simpl. now rewrite E.
Qed.

(** [squeeze] goes from one run to the next. *)
Lemma squeeze_next (p : ascii -> bool) (by_ : str) (s : str) :
  squeeze p by_ s =
  match dropWhile (negp p) s with
  | [] => s
  | suf => fst (span (negp p) s) ++ by_ ++ squeeze p by_ (dropWhile p suf)
  end.
Proof.
  unfold squeeze. induction s as [|c t IH]; [reflexivity|].
  cbn [squeezeFrom dropWhile span].
  destruct (p c) eqn:E.
  - assert (N : negp p c = false) by (unfold negp; now rewrite E).
    rewrite !N.
    cbn [fst app dropWhile]. rewrite E. now rewrite squeezeFrom_true.
  - assert (N : negp p c = true) by (unfold negp; now rewrite E).
    rewrite !N. rewrite IH. destruct (dropWhile (negp p) t) as [|d u]; [reflexivity|].
    destruct (span (negp p) t) as [a b]; reflexivity.
Qed.

Lemma firstn_span (p : ascii -> bool) (s : str) :
  firstn (length (fst (span p s))) s = fst (span p s).
Proof.
  rewrite <- (span_app p s) at 2.
  rewrite firstn_app, Nat.sub_diag, firstn_all. simpl. apply app_nil_r.
Qed.

Lemma dropWhile_length (p : ascii -> bool) (s : str) :
  length (dropWhile p s) <= length s.
Proof.
  induction s as [|c t IH]; simpl; [lia|]. destruct (p c); simpl; lia.
Qed.

(** [s.replace(/[p]+/g, by)] is [squeeze p by s]. *)
Lemma replace_plus_class (p : ascii -> bool) (by_ : str) :
  forall (fuel : nat) (s : str) (i : nat),
    length s < fuel ->
    replace_from (Plus (Class p)) by_ fuel i s = squeeze p by_ s.
Proof.
  induction fuel as [|f IH]; intros s i Hf; [lia|].
  cbn [replace_from]. rewrite exec_at_plus_class, (squeeze_next p by_ s).
  destruct (dropWhile (negp p) s) as [|c t] eqn:D; [reflexivity|].
  cbv zeta. unfold matchLength. cbn [index final pos rest].
  assert (Hc : p c = true) by (apply negp_false; eapply dropWhile_head; eauto).
  replace (i + length (fst (span (negp p) s)) - i)
    with (length (fst (span (negp p) s))) by lia.
  rewrite firstn_span. f_equal. f_equal.
  cbn [span]. rewrite Hc.
  destruct (span p t) as [a b] eqn:Sp. cbn [fst snd length].
  replace (_ =? 0) with false by (symmetry; apply Nat.eqb_neq; lia).
  assert (Hb : b = dropWhile p (c :: t)).
  { cbn [dropWhile]. rewrite Hc, <- span_snd_dropWhile, Sp. reflexivity. }
  rewrite Hb. apply IH.
  cbn [dropWhile]. rewrite Hc.
  pose proof (dropWhile_length p t) as H1.
  pose proof (dropWhile_length (negp p) s) as H2.
  rewrite D in H2. cbn [length] in H2. lia.
Qed.

Lemma replaceAll_plus_class (p : ascii -> bool) (by_ : str) (s : str) :
  replaceAll (Plus (Class p)) by_ s = squeeze p by_ s.
Proof. apply replace_plus_class. lia. Qed.

(** *** A single class *)

Lemma exec_at_class (p : ascii -> bool) :
  forall (s : str) (i : nat),
    exec_at (Class p) i s =
    match dropWhile (negp p) s with
    | [] => None
    | c :: t =>
        let j := i + length (fst (span (negp p) s)) in
        Some (RMatch j (c :: t) (MState (S j) t []))
    end.
Proof.
  induction s as [|c t IH]; intros i; rewrite exec_at_eq, ms_class.
  - reflexivity.
  - cbn [dropWhile span]. destruct (p c) eqn:E.
    + assert (N : negp p c = false) by (unfold negp; now rewrite E).
      rewrite !N. cbn [fst length]. now rewrite Nat.add_0_r.
    + assert (N : negp p c = true) by (unfold negp; now rewrite E).
      rewrite !N, IH. destruct (dropWhile (negp p) t) as [|d u]; [reflexivity|].
      destruct (span (negp p) t) as [a b]; cbn [fst snd length].
      cbv zeta. now rewrite Nat.add_succ_r.
Qed.

Lemma dropWhile_nil_iff (p : ascii -> bool) (s : str) :
  dropWhile p s = [] <-> forallb p s = true.
Proof.
  induction s as [|c t IH]; simpl; [tauto|].
  destruct (p c); simpl; [exact IH|]. split; discriminate.
Qed.

(** [/[p]/.test(s)] tells whether a character of [s] is in [p]. *)
Lemma test_class (p : ascii -> bool) (s : str) :
  test (Class p) s = existsb p s.
Proof.
  unfold test, exec. rewrite exec_at_class.
  transitivity (negb (isEmpty (dropWhile (negp p) s))).
  { now destruct (dropWhile (negp p) s). }
  induction s as [|c t IH]; [reflexivity|].
  cbn [dropWhile existsb]. unfold negp at 1.
  destruct (p c); [reflexivity|]. cbn [negb orb]. exact IH.
Qed.

Lemma filter_next (p : ascii -> bool) (s : str) :
  filter (negp p) s =
  match dropWhile (negp p) s with
  | [] => s
  | c :: t => fst (span (negp p) s) ++ filter (negp p) t
  end.
Proof.
  induction s as [|c t IH]; [reflexivity|].
  cbn [filter dropWhile span]. destruct (negp p c) eqn:N.
  - rewrite IH. destruct (dropWhile (negp p) t) as [|d u]; [reflexivity|].
    destruct (span (negp p) t) as [a b]; reflexivity.
  - reflexivity.
Qed.

(** [s.replace(/[p]/g, "")] keeps the characters outside [p]. *)
Lemma replace_class (p : ascii -> bool) :
  forall (fuel : nat) (s : str) (i : nat),
    length s < fuel ->
    replace_from (Class p) [] fuel i s = filter (negp p) s.
Proof.
  induction fuel as [|f IH]; intros s i Hf; [lia|].
  cbn [replace_from]. rewrite exec_at_class, (filter_next p s).
  destruct (dropWhile (negp p) s) as [|c t] eqn:D; [reflexivity|].
  cbv zeta. unfold matchLength. cbn [index final pos rest app].
  replace (i + length (fst (span (negp p) s)) - i)
    with (length (fst (span (negp p) s))) by lia.
  rewrite firstn_span. f_equal.
  replace (_ =? 0) with false by (symmetry; apply Nat.eqb_neq; lia).
  apply IH.
  pose proof (dropWhile_length (negp p) s) as H2.
  rewrite D in H2. cbn [length] in H2. lia.
Qed.

Lemma replaceAll_class (p : ascii -> bool) (s : str) :
  replaceAll (Class p) [] s = filter (negp p) s.
Proof. apply replace_class. lia. Qed.

(** *** No match, no change *)

Lemma replace_from_none (r : regex) (by_ : str) (fuel i : nat) (s : str) :
  exec_at r i s = None -> replace_from r by_ fuel i s = s.
Proof. intros E. destruct fuel; cbn [replace_from]; [|rewrite E]; reflexivity. Qed.

Lemma exec_at_none_first (r : regex) (p : ascii -> bool) :
  (forall i s cs, match s with
                  | c :: _ => p c = false
                  | [] => True
                  end -> ms r (MState i s cs) = []) ->
  forall s i, existsb p s = false -> exec_at r i s = None.
Proof.
  intros Hr. induction s as [|c t IH]; intros i E; rewrite exec_at_eq.
  - now rewrite Hr.
  - cbn [existsb] in E. apply orb_false_iff in E as [Ec Et].
    rewrite Hr by exact Ec. now apply IH.
Qed.

(** *** [/\([^)]*\)/g] *)

Lemma ms_parenthetical_first (i : nat) (s : str) (cs : list (nat * str)) :
  match s with
  | c :: _ => isChar "(" c = false
  | [] => True
  end -> ms re_parenthetical (MState i s cs) = [].
Proof.
  intros Hs. unfold re_parenthetical, Chr.
  change (ms (Seq (Class (isChar "(")) ?r) ?st)
    with (flat_map (ms r) (ms (Class (isChar "(")) st)).
  rewrite ms_class. destruct s as [|c t]; [reflexivity|]. now rewrite Hs.
Qed.

Lemma replaceAll_parenthetical_none (s : str) :
  existsb (isChar "(") s = false -> replaceAll re_parenthetical [] s = s.
Proof.
  intros E. apply replace_from_none.
  apply (exec_at_none_first re_parenthetical (isChar "(")); [|exact E].
  intros. now apply ms_parenthetical_first.
Qed.

(** *** [/^_+|_+$/g] *)

Lemma ms_eol (i : nat) (s : str) (cs : list (nat * str)) :
  ms Eol (MState i s cs) = if isEmpty s then [MState i s cs] else [].
Proof. reflexivity. Qed.

(** Of the ways [p*] matches, only the one that reaches the end of the text
    passes [$]. *)
Lemma runStates_eol (p : ascii -> bool) (cs : list (nat * str)) :
  forall (s : str) (i : nat),
    flat_map (ms Eol) (runStates p i s cs) =
    if forallb p s then [MState (i + length s) [] cs] else [].
Proof.
  induction s as [|c t IH]; intros i; cbn [runStates forallb length].
  - cbn [flat_map]. rewrite ms_eol. cbn [isEmpty app]. now rewrite Nat.add_0_r.
  - destruct (p c); cbn [andb].
    + rewrite flat_map_app, IH. cbn [flat_map]. rewrite ms_eol.
      cbn [isEmpty app]. rewrite app_nil_r.
      destruct (forallb p t); [|reflexivity]. now rewrite Nat.add_succ_r.
    + cbn [flat_map]. rewrite ms_eol. reflexivity.
Qed.

Lemma ms_edge (i : nat) (s : str) :
  ms re_edgeUnderscores (MState i s []) =
  (if i =? 0 then ms (Plus (Class (isChar "_"))) (MState i s []) else [])
  ++ flat_map (ms Eol) (ms (Plus (Class (isChar "_"))) (MState i s [])).
Proof.
  unfold re_edgeUnderscores, Chr.
  change (ms (Alt (Seq Bol ?a) (Seq ?b Eol)) ?st)
    with (flat_map (ms a) (ms Bol st) ++ flat_map (ms Eol) (ms b st)).
  f_equal. change (ms Bol (MState i s [])) with (if i =? 0 then [MState i s []] else []).
  destruct (i =? 0); [|reflexivity]. cbn [flat_map]. apply app_nil_r.
Qed.

Lemma ms_edge_pos (i : nat) (s : str) :
  0 < i ->
  ms re_edgeUnderscores (MState i s []) =
  if negb (isEmpty s) && forallb (isChar "_") s
  then [MState (i + length s) [] []] else [].
Proof.
  intros Hi. rewrite ms_edge, ms_plus_class.
  replace (i =? 0) with false by (symmetry; apply Nat.eqb_neq; lia).
  cbn [app]. destruct s as [|c t]; [reflexivity|].
  cbn [isEmpty negb andb forallb length].
  destruct (isChar "_" c); [|reflexivity].
  rewrite runStates_eol. cbn [andb].
  destruct (forallb (isChar "_") t); [|reflexivity].
  now rewrite Nat.add_succ_r.
Qed.

Lemma dropWhile_app (p : ascii -> bool) (a b : str) :
  dropWhile p (a ++ b) =
  if forallb p a then dropWhile p b else dropWhile p a ++ b.
Proof.
  induction a as [|c t IH]; [reflexivity|].
  cbn [app dropWhile forallb]. destruct (p c); [exact IH|reflexivity].
Qed.

Lemma forallb_rev (p : ascii -> bool) (s : str) :
  forallb p (rev s) = forallb p s.
Proof.
  induction s as [|c t IH]; [reflexivity|].
  cbn [rev forallb]. rewrite forallb_app, IH. cbn [forallb].
  rewrite andb_true_r. apply andb_comm.
Qed.

Lemma dropWhileEnd_cons (p : ascii -> bool) (c : ascii) (t : str) :
  dropWhileEnd p (c :: t) =
  if forallb p (c :: t) then [] else c :: dropWhileEnd p t.
Proof.
  unfold dropWhileEnd. cbn [rev forallb].
  rewrite dropWhile_app, forallb_rev.
  destruct (forallb p t) eqn:F.
  - assert (D : dropWhile p (rev t) = [])
      by (apply dropWhile_nil_iff; now rewrite forallb_rev).
    rewrite D. cbn [dropWhile]. rewrite andb_true_r.
    destruct (p c); reflexivity.
  - rewrite andb_false_r, rev_app_distr. reflexivity.
Qed.

Lemma dropWhileEnd_prefix (p : ascii -> bool) (s : str) :
  firstn (length (dropWhileEnd p s)) s = dropWhileEnd p s.
Proof.
  induction s as [|c t IH]; [reflexivity|].
  rewrite dropWhileEnd_cons. destruct (forallb p (c :: t)); [reflexivity|].
  cbn [length firstn]. now rewrite IH.
Qed.

Lemma dropWhileEnd_length (p : ascii -> bool) (s : str) :
  length (dropWhileEnd p s) <= length s.
Proof.
  unfold dropWhileEnd. rewrite length_rev.
  etransitivity; [apply dropWhile_length|]. now rewrite length_rev.
Qed.

Lemma dropWhileEnd_full (p : ascii -> bool) (s : str) :
  length s <= length (dropWhileEnd p s) -> dropWhileEnd p s = s.
Proof.
  intros Hl. rewrite <- dropWhileEnd_prefix. now apply firstn_all2.
Qed.

(** After index 0 only [_+$] can match: the first match is the run of
    underscores that ends the text. *)
Lemma exec_edge_pos :
  forall (s : str) (i : nat),
    0 < i ->
    exec_at re_edgeUnderscores i s =
    let k := length (dropWhileEnd (isChar "_") s) in
    if k <? length s
    then Some (RMatch (i + k) (skipn k s) (MState (i + length s) [] []))
    else None.
Proof.
  induction s as [|c t IH]; intros i Hi;
    rewrite exec_at_eq, ms_edge_pos by exact Hi.
  - reflexivity.
  - cbn [isEmpty negb andb]. rewrite dropWhileEnd_cons.
    destruct (forallb (isChar "_") (c :: t)).
    + cbv zeta. cbn [length skipn Nat.ltb Nat.leb]. now rewrite Nat.add_0_r.
    + rewrite IH by lia. cbv zeta. cbn [length skipn].
      change (S ?a <? S ?b) with (a <? b).
      destruct (_ <? _); [|reflexivity].
      now rewrite !Nat.add_succ_r.
Qed.

Lemma replace_edge_pos (fuel : nat) (s : str) (i : nat) :
  0 < i -> 0 < fuel ->
  replace_from re_edgeUnderscores [] fuel i s = dropWhileEnd (isChar "_") s.
Proof.
  intros Hi Hf. destruct fuel as [|f]; [lia|].
  cbn [replace_from]. rewrite exec_edge_pos by exact Hi. cbv zeta.
  destruct (_ <? _) eqn:E.
  - apply Nat.ltb_lt in E. unfold matchLength. cbn [index final pos rest app].
    replace (_ =? 0) with false by (symmetry; apply Nat.eqb_neq; lia).
    rewrite replace_from_none.
    + rewrite app_nil_r.
      replace (i + length (dropWhileEnd (isChar "_") s) - i)
        with (length (dropWhileEnd (isChar "_") s)) by lia.
      apply dropWhileEnd_prefix.
    + rewrite exec_at_eq, ms_edge_pos by lia. reflexivity.
  - apply Nat.ltb_ge in E. symmetry. now apply dropWhileEnd_full.
Qed.

(** [s.replace(/^_+|_+$/g, "")] drops the underscores at both ends. *)
Lemma replaceAll_edge (s : str) :
  replaceAll re_edgeUnderscores [] s =
  dropWhileEnd (isChar "_") (dropWhile (isChar "_") s).
Proof.
  unfold replaceAll. cbn [replace_from].
  destruct s as [|c t]; [reflexivity|].
  rewrite exec_at_eq, ms_edge, ms_plus_class. cbn [Nat.eqb dropWhile].
  destruct (isChar "_" c) eqn:U.
  - destruct (runStates_head (isChar "_") [] t 1) as [tl ->].
    cbn [app]. unfold matchLength. cbn [index final pos rest firstn app Nat.sub].
    cbn [Nat.add Nat.eqb].
    rewrite replace_edge_pos by (cbn [length]; lia).
    now rewrite span_snd_dropWhile.
  - cbn [flat_map app]. rewrite exec_edge_pos by lia. cbv zeta.
    rewrite dropWhileEnd_cons. cbn [forallb]. rewrite U. cbn [andb].
    destruct (_ <? _) eqn:E.
    + apply Nat.ltb_lt in E. unfold matchLength.
      cbn [index final pos rest app Nat.add Nat.sub firstn].
      rewrite dropWhileEnd_prefix.
      replace (_ =? 0) with false by (symmetry; apply Nat.eqb_neq; lia).
      rewrite replace_from_none.
      * now rewrite app_nil_r.
      * rewrite exec_at_eq, ms_edge_pos by lia. reflexivity.
    + apply Nat.ltb_ge in E. f_equal. symmetry. now apply dropWhileEnd_full.
Qed.

(** ** The key normalizer *)

Lemma isKeyChar_not_space (c : ascii) : isKeyChar c = true -> isSpace c = false.
Proof. ascii_cases c; vm_compute; congruence. Qed.

Lemma isKeyChar_lower (c : ascii) : isKeyChar c = true -> lowerChar c = c.
Proof. ascii_cases c; vm_compute; congruence. Qed.

Lemma isKeyChar_not_paren (c : ascii) : isKeyChar c = true -> isChar "(" c = false.
Proof. ascii_cases c; vm_compute; congruence. Qed.

Lemma isKeyChar_nonAlnum (c : ascii) :
  isKeyChar c = true -> negp isLowerAlnum c = true -> c = "_"%char.
Proof. ascii_cases c; vm_compute; congruence. Qed.

Lemma nonAlnum_keyChar (c : ascii) :
  negp isLowerAlnum c = false -> isKeyChar c = true.
Proof. ascii_cases c; vm_compute; congruence. Qed.

Lemma dropWhile_id (p : ascii -> bool) (s : str) :
  headIs p s = false -> dropWhile p s = s.
Proof. destruct s as [|c t]; simpl; [reflexivity|]. now intros ->. Qed.

Lemma dropWhileEnd_id (p : ascii -> bool) (s : str) :
  headIs p (rev s) = false -> dropWhileEnd p s = s.
Proof.
  intros E. unfold dropWhileEnd. rewrite dropWhile_id by exact E.
  apply rev_involutive.
Qed.

Lemma headIs_weaken (p q : ascii -> bool) (s : str) :
  (forall c, q c = true -> p c = false) ->
  forallb q s = true -> headIs p s = false.
Proof.
  intros Hpq. destruct s as [|c t]; simpl; [reflexivity|].
  intros E. apply andb_true_iff in E as [E _]. now apply Hpq.
Qed.

Lemma trim_id (s : str) :
  forallb isKeyChar s = true -> trim s = s.
Proof.
  intros E. unfold trim, trimStart, trimEnd.
  rewrite (dropWhile_id isSpace s).
  - apply dropWhileEnd_id. apply headIs_weaken with (q := isKeyChar).
    + exact isKeyChar_not_space.
    + now rewrite forallb_rev.
  - apply headIs_weaken with (q := isKeyChar); [exact isKeyChar_not_space|exact E].
Qed.

Lemma forallb_dropWhile (q p : ascii -> bool) (s : str) :
  forallb q s = true -> forallb q (dropWhile p s) = true.
Proof.
  induction s as [|c t IH]; simpl; [reflexivity|].
  intros E. destruct (p c).
  - apply IH. now apply andb_true_iff in E as [_ E].
  - exact E.
Qed.

Lemma forallb_dropWhileEnd (q p : ascii -> bool) (s : str) :
  forallb q s = true -> forallb q (dropWhileEnd p s) = true.
Proof.
  intros E. unfold dropWhileEnd. rewrite forallb_rev.
  apply forallb_dropWhile. now rewrite forallb_rev.
Qed.

Lemma headIs_dropWhile (p : ascii -> bool) (s : str) :
  headIs p (dropWhile p s) = false.
Proof.
  destruct (dropWhile p s) as [|c t] eqn:D; [reflexivity|].
  simpl. eapply dropWhile_head; eauto.
Qed.

Lemma headIs_dropWhileEnd (p : ascii -> bool) (s : str) :
  headIs p s = false -> headIs p (dropWhileEnd p s) = false.
Proof.
  destruct s as [|c t]; [reflexivity|]. rewrite dropWhileEnd_cons.
  now destruct (forallb p (c :: t)).
Qed.

Lemma endsWith_dropWhileEnd (c : ascii) (s : str) :
  endsWith c (dropWhileEnd (isChar c) s) = false.
Proof.
  unfold endsWith, dropWhileEnd. rewrite rev_involutive.
  apply headIs_dropWhile.
Qed.

(** Squeezing the characters outside [[a-z0-9]] into underscores leaves key
    characters only, and no two underscores in a row. *)
Lemma squeezeFrom_keyChars (s : str) (b : bool) :
  forallb isKeyChar (squeezeFrom (negp isLowerAlnum) (lit "_") b s) = true.
Proof.
  revert b. induction s as [|c t IH]; intros b; [reflexivity|].
  cbn [squeezeFrom]. destruct (negp isLowerAlnum c) eqn:N.
  - destruct b; [apply IH|]. cbn [lit list_ascii_of_string app forallb].
    now rewrite IH.
  - cbn [forallb]. now rewrite IH, nonAlnum_keyChar.
Qed.

Lemma squeezeFrom_noAdjacent (p : ascii -> bool) (u : ascii) (s : str) :
  forall b : bool,
    noAdjacent p (squeezeFrom p [u] b s) = true
    /\ (b = true -> headIs p (squeezeFrom p [u] b s) = false).
Proof.
  induction s as [|c t IH]; intros b; [split; reflexivity|].
  cbn [squeezeFrom]. destruct (p c) eqn:P.
  - destruct b.
    + apply IH.
    + split; [|discriminate]. cbn [app noAdjacent].
      destruct (IH true) as [H1 H2]. rewrite H1, H2 by reflexivity.
      now rewrite andb_false_r.
  - split.
    + cbn [noAdjacent]. rewrite P. cbn [andb negb]. apply IH.
    + intros _. exact P.
Qed.

Lemma squeezeFrom_id (p : ascii -> bool) (u : ascii) (s : str) :
  noAdjacent p s = true ->
  (forall c, In c s -> p c = true -> c = u) ->
  squeezeFrom p [u] false s = s
  /\ (headIs p s = false -> squeezeFrom p [u] true s = s).
Proof.
  induction s as [|c t IH]; intros Hn Hu; [split; reflexivity|].
  cbn [noAdjacent] in Hn. apply andb_true_iff in Hn as [Hc Ht].
  destruct IH as [IH1 IH2]; [exact Ht|intros; apply Hu; simpl; auto|].
  cbn [squeezeFrom headIs]. destruct (p c) eqn:P.
  - split; [|discriminate]. cbn [andb] in Hc.
    rewrite IH2 by now destruct (headIs p t).
    cbn [app]. f_equal. symmetry. apply Hu; simpl; auto.
  - split; intros; now rewrite IH1.
Qed.

Lemma noAdjacent_dropWhile (p q : ascii -> bool) (s : str) :
  noAdjacent p s = true -> noAdjacent p (dropWhile q s) = true.
Proof.
  induction s as [|c t IH]; [reflexivity|].
  intros Hn. cbn [dropWhile]. destruct (q c); [|exact Hn].
  apply IH. cbn [noAdjacent] in Hn. now apply andb_true_iff in Hn as [_ Hn].
Qed.

Lemma noAdjacent_dropWhileEnd (p q : ascii -> bool) (s : str) :
  noAdjacent p s = true -> noAdjacent p (dropWhileEnd q s) = true.
Proof.
  induction s as [|c t IH]; [reflexivity|].
  intros Hn. rewrite dropWhileEnd_cons.
  destruct (forallb q (c :: t)); [reflexivity|].
  cbn [noAdjacent] in *. apply andb_true_iff in Hn as [Hc Ht].
  rewrite IH by exact Ht. rewrite andb_true_r.
  destruct (p c); [|reflexivity]. cbn [andb] in *.
  destruct t as [|d u]; [reflexivity|]. rewrite dropWhileEnd_cons.
  destruct (forallb q (d :: u)); [reflexivity|exact Hc].
Qed.

(** What [normalizeKey] computes, without regular expressions. *)
Lemma normalizeKey_eq (name : str) :
  normalizeKey name =
  dropWhileEnd (isChar "_")
    (dropWhile (isChar "_")
       (squeeze (negp isLowerAlnum) (lit "_")
          (replaceAll re_parenthetical [] (toLowerCase name)))).
Proof.
  unfold normalizeKey, re_nonAlnum, Not.
  change (fun c : ascii => negb (isLowerAlnum c)) with (negp isLowerAlnum).
  rewrite replaceAll_plus_class, replaceAll_edge.
  apply trim_id, forallb_dropWhileEnd, forallb_dropWhile, squeezeFrom_keyChars.
Qed.

Lemma normalizeKey_keyChars (name : str) :
  forallb isKeyChar (normalizeKey name) = true.
Proof.
  rewrite normalizeKey_eq.
  apply forallb_dropWhileEnd, forallb_dropWhile, squeezeFrom_keyChars.
Qed.

Lemma normalizeKey_shape (name : str) : keyShape (normalizeKey name) = true.
Proof.
  unfold keyShape. rewrite normalizeKey_keyChars. cbn [andb].
  rewrite normalizeKey_eq.
  change (startsWith "_" ?s) with (headIs (isChar "_") s).
  rewrite endsWith_dropWhileEnd, headIs_dropWhileEnd; [reflexivity|].
  apply headIs_dropWhile.
Qed.

Lemma normalizeKey_noAdjacent (name : str) :
  noAdjacent (negp isLowerAlnum) (normalizeKey name) = true.
Proof.
  rewrite normalizeKey_eq.
  apply noAdjacent_dropWhileEnd, noAdjacent_dropWhile.
  apply (squeezeFrom_noAdjacent (negp isLowerAlnum) "_"%char).
Qed.

Lemma toLowerCase_key (k : str) :
  forallb isKeyChar k = true -> toLowerCase k = k.
Proof.
  induction k as [|c t IH]; [reflexivity|].
  cbn [forallb]. intros E. apply andb_true_iff in E as [Ec Et].
  cbn [toLowerCase map]. rewrite isKeyChar_lower by exact Ec.
  f_equal. now apply IH.
Qed.

Lemma key_no_paren (k : str) :
  forallb isKeyChar k = true -> existsb (isChar "(") k = false.
Proof.
  induction k as [|c t IH]; [reflexivity|].
  cbn [forallb existsb]. intros E. apply andb_true_iff in E as [Ec Et].
  now rewrite isKeyChar_not_paren, IH.
Qed.

(** A string of the shape of a key, without two underscores in a row, is
    its own key. *)
Lemma normalizeKey_fixed (k : str) :
  keyShape k = true -> noAdjacent (negp isLowerAlnum) k = true ->
  normalizeKey k = k.
Proof.
  unfold keyShape. intros Hs Hn.
  apply andb_true_iff in Hs as [Hs He]. apply andb_true_iff in Hs as [Hc Hh].
  apply negb_true_iff in He, Hh.
  rewrite normalizeKey_eq, toLowerCase_key by exact Hc.
  rewrite replaceAll_parenthetical_none by now apply key_no_paren.
  unfold squeeze. change (lit "_") with ["_"%char].
  destruct (@squeezeFrom_id (negp isLowerAlnum) "_"%char k Hn) as [-> _].
  - intros c Hin Hp. apply isKeyChar_nonAlnum; [|exact Hp].
    rewrite forallb_forall in Hc. now apply Hc.
  - rewrite (dropWhile_id (isChar "_") k) by exact Hh.
    now apply dropWhileEnd_id.
Qed.

(** ** The driver *)

Lemma fold_parseStep (lines : list str) :
  forall (p : str) (acc : list measurement),
    fold_left parseStep lines (p, acc) =
    (panelAfter p lines, acc ++ recordsFrom p lines).
Proof.
  unfold panelAfter, recordsFrom.
  induction lines as [|l ls IH]; intros p acc.
  - cbn [fold_left fst snd]. now rewrite app_nil_r.
  - cbn [fold_left]. unfold parseStep at 2 4 6.
    destruct (looksLikePanelHeader l).
    + rewrite (IH _ acc). reflexivity.
    + destruct (parseMeasurementLine l) as [m|].
      * rewrite (IH p (acc ++ _)), (IH p ([] ++ _)).
        cbn [fst snd app]. now rewrite <- app_assoc.
      * rewrite (IH p acc). reflexivity.
Qed.

Lemma panelAfter_app (p : str) (a b : list str) :
  panelAfter p (a ++ b) = panelAfter (panelAfter p a) b.
Proof.
  unfold panelAfter at 1. rewrite fold_left_app, (fold_parseStep a), fold_parseStep.
  reflexivity.
Qed.

Lemma recordsFrom_app (p : str) (a b : list str) :
  recordsFrom p (a ++ b) = recordsFrom p a ++ recordsFrom (panelAfter p a) b.
Proof.
  unfold recordsFrom at 1. rewrite fold_left_app, (fold_parseStep a), fold_parseStep.
  reflexivity.
Qed.

Lemma recordsFrom_cons (p : str) (l : str) (ls : list str) :
  recordsFrom p (l :: ls) =
  if looksLikePanelHeader l
  then recordsFrom (trim (replaceAll re_spaces (lit " ") l)) ls
  else match parseMeasurementLine l with
       | Some m => withPanel m p :: recordsFrom p ls
       | None => recordsFrom p ls
       end.
Proof.
  unfold recordsFrom at 1. cbn [fold_left]. unfold parseStep at 2.
  destruct (looksLikePanelHeader l); [reflexivity|].
  destruct (parseMeasurementLine l); [|reflexivity].
  now rewrite fold_parseStep.
Qed.

Lemma panelAfter_cons (p : str) (l : str) (ls : list str) :
  panelAfter p (l :: ls) =
  panelAfter (if looksLikePanelHeader l
              then trim (replaceAll re_spaces (lit " ") l) else p) ls.
Proof.
  unfold panelAfter at 1. cbn [fold_left]. unfold parseStep at 2.
  destruct (looksLikePanelHeader l); [reflexivity|].
  destruct (parseMeasurementLine l); [|reflexivity].
  now rewrite fold_parseStep.
Qed.

Lemma parseReportText_eq (rawText : str) :
  parseReportText rawText = recordsFrom (lit "General") (reportLines rawText).
Proof. reflexivity. Qed.

(** The running panel is the panel of the specification. *)
Lemma panelAfter_panelBefore (before : list str) :
  panelAfter (lit "General") before = panelBefore before.
Proof.
  induction before as [|l ls IH] using rev_ind; [reflexivity|].
  rewrite panelAfter_app, IH, panelAfter_cons.
  unfold panelBefore at 2. rewrite rev_app_distr. cbn [rev app find].
  destruct (looksLikePanelHeader l); reflexivity.
Qed.

(** Every record of the output comes from a line that is not a header and
    that the line parser accepts. *)
Lemma recordsFrom_in (ls : list str) :
  forall (p : str) (r : measurement),
    In r (recordsFrom p ls) ->
    exists (l : str) (m : measurement) (q : str),
      In l ls /\ looksLikePanelHeader l = false
      /\ parseMeasurementLine l = Some m /\ r = withPanel m q.
Proof.
  induction ls as [|l ls IH]; intros p r Hin; [destruct Hin|].
  rewrite recordsFrom_cons in Hin.
  assert (Hrec : forall q, In r (recordsFrom q ls) ->
                 exists l0 m q0, In l0 (l :: ls) /\ looksLikePanelHeader l0 = false
                   /\ parseMeasurementLine l0 = Some m /\ r = withPanel m q0).
  { intros q Hq. destruct (IH q r Hq) as (l0 & m & q0 & H1 & H2).
    exists l0, m, q0. split; [now right|exact H2]. }
  destruct (looksLikePanelHeader l) eqn:Hh; [eapply Hrec; eassumption|].
  destruct (parseMeasurementLine l) as [m|] eqn:Hm; [|eapply Hrec; eassumption].
  destruct Hin as [<-|Hin]; [|eapply Hrec; eassumption].
  exists l, m, p. repeat split; auto. now left.
Qed.

(** ** The measurement-line parser *)

Lemma flat_map_nonempty (A B : Type) (f : A -> list B) (l : list A) :
  l <> [] -> (forall x, f x <> []) -> flat_map f l <> [].
Proof.
  destruct l as [|x t]; [congruence|]. intros _ Hf. cbn [flat_map].
  specialize (Hf x). destruct (f x); [congruence|discriminate].
Qed.

Lemma runStates_nonempty (p : ascii -> bool) (i : nat) (s : str)
      (cs : list (nat * str)) : runStates p i s cs <> [].
Proof. destruct (runStates_head p cs s i) as [tl ->]. discriminate. Qed.

(** The numeric token matches exactly where a digit stands. *)
Lemma ms_number_empty (i : nat) (s : str) (cs : list (nat * str)) :
  ms re_number (MState i s cs) = [] <-> headIs isDigit s = false.
Proof.
  unfold re_number.
  change (ms (Seq ?a ?b) ?st) with (flat_map (ms b) (ms a st)).
  rewrite ms_plus_class. destruct s as [|c t]; cbn [headIs].
  - split; reflexivity.
  - destruct (isDigit c); [|split; reflexivity].
    split; [|discriminate]. intros E. exfalso. revert E.
    apply flat_map_nonempty; [apply runStates_nonempty|].
    intros st. unfold Opt.
    change (ms (Alt ?a Empty) st) with (ms a st ++ [st]).
    now destruct (ms _ st).
Qed.

Lemma ms_group_number_empty (i : nat) (s : str) :
  ms (Group 1 re_number) (MState i s []) = [] <-> headIs isDigit s = false.
Proof.
  change (ms (Group 1 re_number) ?st) with (map (capture 1 st) (ms re_number st)).
  rewrite <- ms_number_empty with (i := i) (cs := []).
  destruct (ms re_number _); split; intros; try reflexivity; discriminate.
Qed.

(** The first match of a pattern that matches exactly where a character of
    [p] stands starts at the first such character. *)
Lemma exec_at_first (r : regex) (p : ascii -> bool) :
  (forall i s, ms r (MState i s []) = [] <-> headIs p s = false) ->
  forall (s : str) (i : nat),
    match exec_at r i s with
    | None => existsb p s = false
    | Some m =>
        existsb p s = true /\ index m = i + length (fst (span (negp p) s))
    end.
Proof.
  intros Hr. induction s as [|c t IH]; intros i; rewrite exec_at_eq.
  - destruct (ms r _) eqn:M; [reflexivity|].
    assert (M' : ms r (MState i [] []) = []) by now apply Hr.
    congruence.
  - destruct (ms r _) eqn:M.
    + apply Hr in M. cbn [headIs] in M.
      assert (N : negp p c = true) by (unfold negp; now rewrite M).
      specialize (IH (S i)). cbn [existsb span].
      rewrite M, N. cbn [orb].
      destruct (exec_at r (S i) t); [|exact IH].
      destruct IH as [-> ->]. split; [reflexivity|].
      destruct (span (negp p) t); cbn [fst length]. lia.
    + assert (P : p c = true).
      { destruct (p c) eqn:P; [reflexivity|].
        assert (M' : ms r (MState i (c :: t) []) = []) by now apply Hr.
        congruence. }
      assert (N : negp p c = false) by (unfold negp; now rewrite P).
      cbn [existsb span index]. rewrite P, N.
      cbn [orb fst length]. split; [reflexivity|lia].
Qed.

Lemma split_on_nonempty (sep : ascii) (s : str) : split_on sep s <> [].
Proof.
  induction s as [|c t IH]; cbn [split_on]; [discriminate|].
  destruct (isChar sep c); [discriminate|].
  destruct (split_on sep t); [congruence|discriminate].
Qed.

Lemma first_token (sep : ascii) (s : str) :
  nth_error (split_on sep s) 0 = Some (hd [] (split_on sep s)).
Proof.
  pose proof (split_on_nonempty sep s). now destruct (split_on sep s).
Qed.

Lemma isEmpty_true (s : str) : isEmpty s = true <-> s = [].
Proof. destruct s; split; (reflexivity || discriminate). Qed.

Lemma isEmpty_false (s : str) : isEmpty s = false <-> s <> [].
Proof. destruct s; split; (reflexivity || discriminate || congruence). Qed.

(** The two outcomes of [parseMeasurementLine]. *)
Lemma parseMeasurementLine_inv (line : str) :
  let s := normalizedLine line in
  match parseMeasurementLine line with
  | None =>
      hasNumericToken s = false
      \/ nameText s = []
      \/ isNaN (Number (valueToken s)) = true
  | Some m =>
      hasNumericToken s = true
      /\ nameText s <> []
      /\ isNaN (Number (valueToken s)) = false
      /\ rawLine m = s
      /\ name m = nameText s
      /\ value m = Number (valueToken s)
      /\ key m = normalizeKey (name m)
      /\ flag m = computeFlag (JNum (value m)) (numOrNull (refLow m))
                               (numOrNull (refHigh m)) (strOrNull (refText m))
      /\ panel m = None
  end.
Proof.
  intros s. unfold parseMeasurementLine. fold (normalizedLine line). fold s.
  destruct (isEmpty s) eqn:Es.
  { left. apply isEmpty_true in Es. now rewrite Es. }
  pose proof (exec_at_first (Group 1 re_number) isDigit ms_group_number_empty s 0)
    as Hx.
  unfold exec. destruct (exec_at (Group 1 re_number) 0 s) as [vm|].
  2:{ left. exact Hx. }
  destruct Hx as [Hd Hi]. cbn [Nat.add] in Hi. rewrite Hi.
  unfold slice_to, slice_from.
  fold (firstNumericIndex s). fold (nameText s).
  destruct (isEmpty (nameText s)) eqn:En.
  { right. left. now apply isEmpty_true. }
  rewrite first_token. cbn [NumberOf]. fold (valueToken s).
  destruct (isNaN (Number (valueToken s))) eqn:Ev.
  { right. right. reflexivity. }
  destruct (splitUnitRef _ _ _ _ _) as [unitTokens refTokens].
  cbn [rawLine name value key flag panel refLow refHigh refText].
  apply isEmpty_false in En. repeat split; auto.
Qed.

(** ** Numbers *)

(** [Number] on a few literals.  12.3 is 6924284427082138 * 2^-49, within
    half a unit in the last place of 123/10. *)
Example Number_literals :
  Number (lit "12.3") = S754_finite false 6924284427082138 (-49)
  /\ Number (lit "12.3") = ofDecimal false 123 (-1)
  /\ (Z.abs (10 * 6924284427082138 - 123 * 2 ^ 49) <= 5)%Z
  /\ Number (lit "14") = ofZ 14
  /\ Number (lit "12.") = ofZ 12
  /\ Number (lit "0x1F") = ofZ 31
  /\ Number (lit "1e400") = S754_infinity false
  /\ Number [] = S754_zero false
  /\ Number (lit "12abc") = NaN
  /\ Number (lit "12.3.4") = NaN
  /\ Number (lit "14-18") = NaN.
Proof. repeat split; vm_compute; try reflexivity; discriminate. Qed.

Lemma SFcompare_antisym (x y : number) :
  SFcompare y x = option_map CompOpp (SFcompare x y).
Proof.
  destruct x as [sx|sx| |sx mx ex], y as [sy|sy| |sy my ey]; cbn;
    try reflexivity;
    try (destruct sx; reflexivity); try (destruct sy; reflexivity);
    try (destruct sx, sy; reflexivity).
  destruct sx, sy; cbn [option_map CompOpp]; try reflexivity;
    rewrite (Z.compare_antisym ex ey);
    destruct (ex ?= ey)%Z; cbn [CompOpp]; try reflexivity;
    change (Pos.compare_cont Eq ?a ?b) with (Pos.compare a b);
    rewrite (Pos.compare_antisym mx my);
    destruct (mx ?= my)%positive; reflexivity.
Qed.

Lemma SFcompare_eq_l (x y z : number) :
  SFcompare x y = Some Eq -> SFcompare x z = SFcompare y z.
Proof.
  destruct x as [sx|sx| |sx mx ex], y as [sy|sy| |sy my ey]; cbn;
    try discriminate;
    try (destruct sx; discriminate); try (destruct sy; discriminate).
  - intros _. destruct z; reflexivity.
  - destruct sx, sy; try discriminate; reflexivity.
  - assert (H : forall a b : positive,
               Pos.compare_cont Eq a b = Eq -> a = b)
      by (intros a b; apply Pos.compare_eq).
    destruct sx, sy; try discriminate;
      destruct (ex ?= ey)%Z eqn:E; try discriminate;
      apply Z.compare_eq in E; subst ey;
      destruct (Pos.compare_cont Eq mx my) eqn:M; try discriminate;
      apply H in M; subst my; reflexivity.
Qed.

Lemma eqn_not_lt (x y : number) : eqn x y = true -> lt x y = false.
Proof. unfold eqn, lt, SFeqb, SFltb. now destruct (SFcompare x y) as [[]|]. Qed.

Lemma eqn_not_gt (x y : number) : eqn x y = true -> gt x y = false.
Proof.
  unfold eqn, gt, SFeqb, SFltb. rewrite (SFcompare_antisym x y).
  now destruct (SFcompare x y) as [[]|].
Qed.

Lemma le_not_gt (x y : number) : le x y = true -> gt x y = false.
Proof.
  unfold le, gt, SFleb, SFltb. rewrite (SFcompare_antisym x y).
  now destruct (SFcompare x y) as [[]|].
Qed.

Lemma eqn_lt_l (x y z : number) : eqn x y = true -> lt x z = lt y z.
Proof.
  unfold eqn, lt, SFeqb, SFltb. intros E.
  rewrite (@SFcompare_eq_l x y z); [reflexivity|].
  now destruct (SFcompare x y) as [[]|].
Qed.

Lemma eqn_gt_l (x y z : number) : eqn x y = true -> gt x z = gt y z.
Proof.
  unfold eqn, gt, SFeqb, SFltb. intros E.
  rewrite (SFcompare_antisym x z), (SFcompare_antisym y z).
  rewrite (@SFcompare_eq_l x y z); [reflexivity|].
  now destruct (SFcompare x y) as [[]|].
Qed.

(** ** The header classifier *)

Lemma thresholdTable_ok : thresholdTable = true.
Proof. vm_compute. reflexivity. Qed.

Lemma threshold_integer (len caps : nat) :
  4 <= len <= 45 -> caps <= len ->
  ge (ofNat caps) (Math_min (ofNat 8) (mul (ofNat len) half)) =
  (Nat.min 16 len <=? 2 * caps).
Proof.
  intros Hl Hc. pose proof thresholdTable_ok as T. unfold thresholdTable in T.
  rewrite forallb_forall in T. specialize (T len).
  rewrite forallb_forall in T. apply Bool.eqb_prop. apply T.
  - apply in_seq. lia.
  - apply in_seq. lia.
Qed.

Lemma filter_length_le (p : ascii -> bool) (s : str) :
  length (filter p s) <= length s.
Proof.
  induction s as [|c t IH]; simpl; [lia|]. destruct (p c); simpl; lia.
Qed.

Lemma caps_countUpper (s : str) :
  length (replaceAll (Not isUpper) [] s) = countUpper s.
Proof.
  unfold Not, countUpper. rewrite replaceAll_class. f_equal.
  apply filter_ext. intros c. unfold negp. apply negb_involutive.
Qed.

(** [looksLikePanelHeader] in integers. *)
Lemma looksLikePanelHeader_eq (line : str) :
  looksLikePanelHeader line = negb (isEmpty line) && headerRule (trim line).
Proof.
  unfold looksLikePanelHeader, headerRule.
  destruct (isEmpty line); [reflexivity|]. cbn [negb andb].
  rewrite test_class, caps_countUpper.
  destruct (length (trim line) <? 4) eqn:E4.
  { apply Nat.ltb_lt in E4.
    replace (4 <=? _) with false by (symmetry; apply Nat.leb_gt; lia).
    reflexivity. }
  apply Nat.ltb_ge in E4.
  replace (4 <=? _) with true by (symmetry; apply Nat.leb_le; lia).
  destruct (45 <? length (trim line)) eqn:E45.
  { apply Nat.ltb_lt in E45.
    replace (_ <=? 45) with false by (symmetry; apply Nat.leb_gt; lia).
    reflexivity. }
  apply Nat.ltb_ge in E45.
  replace (_ <=? 45) with true by (symmetry; apply Nat.leb_le; lia).
  cbn [orb andb]. destruct (existsb isDigit (trim line)); [reflexivity|].
  cbn [negb andb]. apply threshold_integer; [lia|].
  apply filter_length_le.
Qed.

(** ** Invariants of the matcher *)

(** A property of the pairs (state before, state after) that holds of every
    step and is closed under composition holds of every match. *)
Section Closure.
Variable R : mstate -> mstate -> Prop.
Hypothesis R_refl : forall st, R st st.
Hypothesis R_trans : forall a b c, R a b -> R b c -> R a c.

Lemma star_iter_closure (body : mstate -> list mstate) :
  (forall st st', In st' (body st) -> R st st') ->
  forall (fuel : nat) (st st' : mstate),
    In st' (star_iter body fuel st) -> R st st'.
Proof.
  intros Hb. induction fuel as [|f IH]; intros st st' Hin.
  - destruct Hin as [<-|[]]. apply R_refl.
  - cbn [star_iter] in Hin. apply in_app_or in Hin as [Hin|[<-|[]]].
    + apply in_flat_map in Hin as (mid & Hmid & Hin).
      destruct (pos st <? pos mid); [|destruct Hin].
      eapply R_trans; [apply Hb, Hmid|apply IH, Hin].
    + apply R_refl.
Qed.

Hypothesis R_class :
  forall st c t, rest st = c :: t -> R st (advance st t).
Hypothesis R_group :
  forall i st mid, R st mid -> R st (capture i st mid).

Lemma ms_closure (r : regex) :
  forall st st', In st' (ms r st) -> R st st'.
Proof.
  induction r as [|p|r1 IH1 r2 IH2|r1 IH1 r2 IH2|r1 IH1|i r1 IH1| |];
    intros st st' Hin; cbn [ms] in Hin.
  - destruct Hin as [<-|[]]. apply R_refl.
  - destruct (rest st) as [|c t] eqn:E; [destruct Hin|].
    destruct (p c); [|destruct Hin].
    destruct Hin as [<-|[]]. now apply R_class with c.
  - apply in_flat_map in Hin as (mid & Hmid & Hin).
    eapply R_trans; [apply IH1, Hmid|apply IH2, Hin].
  - apply in_app_or in Hin as [Hin|Hin]; [now apply IH1|now apply IH2].
  - eapply star_iter_closure; [exact IH1|exact Hin].
  - apply in_map_iff in Hin as (mid & <- & Hmid). apply R_group, IH1, Hmid.
  - destruct (pos st =? 0); [|destruct Hin].
    destruct Hin as [<-|[]]. apply R_refl.
  - destruct (isEmpty (rest st)); [|destruct Hin].
    destruct Hin as [<-|[]]. apply R_refl.
Qed.
End Closure.

(** A match consumes a prefix of the text left and moves the index by its
    length. *)
Lemma ms_consumes (r : regex) (st st' : mstate) :
  In st' (ms r st) -> consumes st st'.
Proof.
  apply ms_closure; unfold consumes.
  - intros s. exists []. split; [reflexivity|cbn; lia].
  - intros a b c (w1 & E1 & P1) (w2 & E2 & P2). exists (w1 ++ w2).
    rewrite E1, E2, P2, P1, length_app, app_assoc. split; [reflexivity|lia].
  - intros s c t E. exists [c]. cbn. rewrite E. split; [reflexivity|lia].
  - intros i s mid H. exact H.
Qed.

(** A match leaves alone the groups that the pattern does not have. *)
Lemma ms_frame (i : nat) (r : regex) :
  ~ In i (groupsOf r) ->
  forall st st', In st' (ms r st) -> assoc i (caps st') = assoc i (caps st).
Proof.
  induction r as [|p|r1 IH1 r2 IH2|r1 IH1 r2 IH2|r1 IH1|j r1 IH1| |];
    intros Hi st st' Hin; cbn [ms groupsOf] in *.
  - now destruct Hin as [<-|[]].
  - destruct (rest st) as [|c t]; [destruct Hin|].
    destruct (p c); [|destruct Hin]. now destruct Hin as [<-|[]].
  - apply in_flat_map in Hin as (mid & Hmid & Hin).
    rewrite (IH2 (fun H => Hi (in_or_app _ _ _ (or_intror H))) mid st' Hin).
    exact (IH1 (fun H => Hi (in_or_app _ _ _ (or_introl H))) st mid Hmid).
  - apply in_app_or in Hin as [Hin|Hin].
    + exact (IH1 (fun H => Hi (in_or_app _ _ _ (or_introl H))) st st' Hin).
    + exact (IH2 (fun H => Hi (in_or_app _ _ _ (or_intror H))) st st' Hin).
  - revert Hin.
    apply (star_iter_closure
             (fun a b => assoc i (caps b) = assoc i (caps a))); try congruence.
    exact (IH1 Hi).
  - apply in_map_iff in Hin as (mid & <- & Hmid). cbn [capture caps assoc].
    destruct (i =? j) eqn:E.
    + apply Nat.eqb_eq in E. exfalso. apply Hi. now left.
    + apply IH1; [|exact Hmid]. intros H. apply Hi. now right.
  - destruct (pos st =? 0); [|destruct Hin]. now destruct Hin as [<-|[]].
  - destruct (isEmpty (rest st)); [|destruct Hin]. now destruct Hin as [<-|[]].
Qed.

(** A group once set stays set, and a pattern that always sets a group
    leaves it set. *)
Lemma ms_keeps (i : nat) (r : regex) (st st' : mstate) :
  In st' (ms r st) -> assoc i (caps st) <> None -> assoc i (caps st') <> None.
Proof.
  apply (ms_closure (fun a b => assoc i (caps a) <> None ->
                                assoc i (caps b) <> None)); auto.
  intros j s mid H Hs. cbn [capture caps assoc].
  destruct (i =? j); [discriminate|auto].
Qed.

Lemma ms_sets (i : nat) (r : regex) :
  setsGroup i r = true ->
  forall st st', In st' (ms r st) -> assoc i (caps st') <> None.
Proof.
  induction r as [|p|r1 IH1 r2 IH2|r1 IH1 r2 IH2|r1 IH1|j r1 IH1| |];
    cbn [setsGroup]; try discriminate; intros Hs st st' Hin; cbn [ms] in Hin.
  - apply in_flat_map in Hin as (mid & Hmid & Hin).
    apply orb_true_iff in Hs as [Hs|Hs].
    + eapply ms_keeps; [exact Hin|]. eapply IH1; eauto.
    + eapply IH2; eauto.
  - apply andb_true_iff in Hs as [H1 H2].
    apply in_app_or in Hin as [Hin|Hin]; [eapply IH1|eapply IH2]; eauto.
  - apply in_map_iff in Hin as (mid & <- & Hmid). cbn [capture caps assoc].
    destruct (i =? j) eqn:E; [discriminate|].
    cbn [orb] in Hs. eapply IH1; eauto.
Qed.

(** A match is at least as long as the least length of the pattern. *)
Lemma ms_minLen (r : regex) :
  forall st st', In st' (ms r st) -> pos st + minLen r <= pos st'.
Proof.
  induction r as [|p|r1 IH1 r2 IH2|r1 IH1 r2 IH2|r1 IH1|j r1 IH1| |];
    intros st st' Hin;
    try (apply ms_consumes in Hin as (w & _ & ->); cbn [minLen]; lia);
    cbn [ms minLen] in *.
  - destruct (rest st) as [|c t]; [destruct Hin|].
    destruct (p c); [|destruct Hin]. destruct Hin as [<-|[]]. cbn. lia.
  - apply in_flat_map in Hin as (mid & Hmid & Hin).
    apply IH1 in Hmid. apply IH2 in Hin. lia.
  - apply in_app_or in Hin as [Hin|Hin]; [apply IH1 in Hin|apply IH2 in Hin]; lia.
  - apply in_map_iff in Hin as (mid & <- & Hmid). apply IH1 in Hmid.
    cbn [capture pos]. exact Hmid.
Qed.

(** A pattern that ends with a group captures there the text the body of
    the group consumed. *)
Lemma ms_lastGroup (r : regex) (i : nat) (b : regex) :
  lastGroup r = Some (i, b) ->
  forall st st',
    In st' (ms r st) ->
    exists w, assoc i (caps st') = Some w /\ minLen b <= length w.
Proof.
  induction r as [|p|r1 IH1 r2 IH2|r1 IH1 r2 IH2|r1 IH1|j r1 IH1| |];
    cbn [lastGroup]; try discriminate; intros E st st' Hin; cbn [ms] in Hin.
  - apply in_flat_map in Hin as (mid & _ & Hin). eapply IH2; eauto.
  - injection E as -> ->.
    apply in_map_iff in Hin as (mid & <- & Hmid). cbn [capture caps assoc].
    rewrite Nat.eqb_refl. eexists. split; [reflexivity|].
    pose proof (ms_minLen _ _ _ Hmid) as Hl.
    apply ms_consumes in Hmid as (w & Ew & Pw).
    rewrite Ew, Pw.
    replace (pos st + length w - pos st) with (length w + 0) by lia.
    rewrite firstn_app_2. cbn [firstn]. rewrite app_nil_r. lia.
Qed.

(** The state a match ends in is one of the ways to match at its index. *)
Lemma exec_at_final (r : regex) :
  forall (s : str) (i : nat) (m : rmatch),
    exec_at r i s = Some m ->
    exists k,
      index m = i + k
      /\ In (final m) (ms r (MState (i + k) (skipn k s) [])).
Proof.
  induction s as [|c t IH]; intros i m; rewrite exec_at_eq;
    destruct (ms r (MState i _ [])) as [|st tl] eqn:M; try discriminate.
  - intros [= <-]. exists 0. rewrite Nat.add_0_r. cbn [skipn final index].
    rewrite M. split; [reflexivity|now left].
  - intros Hm. apply IH in Hm as (k & Hi & Hk). exists (S k).
    rewrite Nat.add_succ_r. split; [exact Hi|exact Hk].
  - intros [= <-]. exists 0. rewrite Nat.add_0_r. cbn [skipn final index].
    rewrite M. split; [reflexivity|now left].
Qed.

(** *** The fuel of the engine is enough *)

Lemma flat_map_ext_in (A B : Type) (f g : A -> list B) (l : list A) :
  (forall a, In a l -> f a = g a) -> flat_map f l = flat_map g l.
Proof.
  induction l as [|a t IH]; intros H; [reflexivity|].
  cbn [flat_map]. rewrite (H a) by now left.
  rewrite IH; [reflexivity|]. intros b Hb. apply H. now right.
Qed.

Lemma flat_map_nil (A B : Type) (f : A -> list B) (l : list A) :
  (forall a, In a l -> f a = []) -> flat_map f l = [].
Proof.
  induction l as [|a t IH]; intros H; [reflexivity|].
  cbn [flat_map]. rewrite (H a) by now left.
  apply IH. intros b Hb. apply H. now right.
Qed.

Lemma consumes_length (st st' : mstate) :
  consumes st st' ->
  length (rest st') + (pos st' - pos st) = length (rest st).
Proof. intros (w & E & P). rewrite E, P, length_app. lia. Qed.

(** A star gives the same matches with any fuel from the length of the
    text left on. *)
Lemma star_iter_fuel (r : regex) :
  forall (fuel : nat) (st : mstate),
    length (rest st) <= fuel ->
    star_iter (ms r) fuel st = star_iter (ms r) (length (rest st)) st.
Proof.
  induction fuel as [fuel IH] using lt_wf_ind. intros st Hf.
  destruct fuel as [|f].
  { now replace (length (rest st)) with 0 by lia. }
  assert (Hstep : forall n, length (rest st) <= S n -> S n <= S f ->
            star_iter (ms r) (S n) st
            = flat_map (fun st' => if pos st <? pos st'
                                   then star_iter (ms r) (length (rest st')) st'
                                   else []) (ms r st) ++ [st]).
  { intros n Hn Hnf. cbn [star_iter]. f_equal. apply flat_map_ext_in.
    intros st' Hin. destruct (pos st <? pos st') eqn:E; [|reflexivity].
    apply Nat.ltb_lt in E. apply ms_consumes, consumes_length in Hin.
    apply IH; lia. }
  rewrite (Hstep f) by lia.
  destruct (length (rest st)) as [|n] eqn:El.
  - cbn [star_iter]. rewrite flat_map_nil; [reflexivity|].
    intros st' Hin. apply ms_consumes, consumes_length in Hin.
    replace (pos st <? pos st') with false
      by (symmetry; apply Nat.ltb_ge; lia).
    reflexivity.
  - rewrite <- El. rewrite El at 1. rewrite (Hstep n) by lia. reflexivity.
Qed.

(** The state a match ends in is no further than the end of the text. *)
Lemma exec_at_length (r : regex) (s : str) (i : nat) (m : rmatch) :
  exec_at r i s = Some m ->
  length (rest (final m)) + matchLength m <= length s.
Proof.
  intros Hm. apply exec_at_final in Hm as (k & Hi & Hk).
  apply ms_consumes, consumes_length in Hk. cbn [pos rest] in Hk.
  unfold matchLength. rewrite Hi.
  pose proof (length_skipn k s). lia.
Qed.

(** A replacement gives the same text with any fuel above the length of
    the text. *)
Lemma replace_from_fuel (r : regex) (by_ : str) :
  forall (fuel : nat) (s : str) (i : nat),
    length s < fuel ->
    replace_from r by_ fuel i s = replace_from r by_ (S (length s)) i s.
Proof.
  induction fuel as [fuel IH] using lt_wf_ind. intros s i Hf.
  destruct fuel as [|f]; [lia|]. cbn [replace_from].
  destruct (exec_at r i s) as [m|] eqn:Hm; [|reflexivity].
  apply exec_at_length in Hm. f_equal. f_equal.
  destruct (matchLength m =? 0) eqn:E.
  - destruct (rest (final m)) as [|c t]; [reflexivity|]. cbn [length] in Hm.
    f_equal. rewrite (IH f) by lia. rewrite (IH (length s)) by lia.
    reflexivity.
  - apply Nat.eqb_neq in E.
    rewrite (IH f) by lia. rewrite (IH (length s)) by lia. reflexivity.
Qed.

(** *** [/\r?\n/] *)

Lemma isChar_eq (a c : ascii) : isChar a c = true -> c = a.
Proof. unfold isChar. intros E. apply Ascii.eqb_eq in E. now subst. Qed.

Lemma ms_newline (q : nat) (s : str) :
  ms re_newline (MState q s []) =
  match s with
  | c :: t =>
      if isChar "010" c then [MState (S q) t []]
      else if isChar "013" c then
        match t with
        | d :: t' => if isChar "010" d then [MState (S (S q)) t' []] else []
        | [] => []
        end
      else []
  | [] => []
  end.
Proof.
  destruct s as [|c t]; [reflexivity|].
  unfold re_newline, Opt, Chr.
  change (ms (Seq (Alt ?a Empty) ?b) ?st)
    with (flat_map (ms b) (ms a st ++ [st])).
  rewrite flat_map_app, !ms_class. cbn [flat_map]. rewrite ms_class, app_nil_r.
  destruct (isChar "010" c) eqn:E10.
  - apply isChar_eq in E10. subst c. reflexivity.
  - rewrite app_nil_r. destruct (isChar "013" c); [|reflexivity].
    cbn [flat_map]. rewrite ms_class, app_nil_r. reflexivity.
Qed.

(** [s.split(/\r?\n/)] is [splitLines]. *)
Lemma split_newline_from :
  forall (fuel : nat) (s : str) (p q : nat) (acc : str),
    p <= q -> length s < fuel ->
    split_from re_newline fuel p q acc s = splitLines acc s.
Proof.
  induction fuel as [fuel IH] using lt_wf_ind. intros s p q acc Hpq Hf.
  destruct fuel as [|f]; [lia|]. cbn [split_from].
  destruct s as [|c t]; [reflexivity|].
  rewrite ms_newline. cbn [splitLines length] in *.
  destruct (isChar "010" c).
  - cbn [pos rest].
    replace (S q =? p) with false by (symmetry; apply Nat.eqb_neq; lia).
    f_equal. apply IH; lia.
  - destruct (isChar "013" c); [|apply IH; lia].
    destruct t as [|d t']; cbn [length] in *; [apply IH; cbn [length]; lia|].
    destruct (isChar "010" d); [|apply IH; cbn [length]; lia].
    cbn [pos rest].
    replace (S (S q) =? p) with false by (symmetry; apply Nat.eqb_neq; lia).
    f_equal. apply IH; lia.
Qed.

Lemma split_newline (s : str) : split re_newline s = splitLines [] s.
Proof.
  unfold split. destruct s as [|c t]; [reflexivity|].
  apply split_newline_from; cbn [length]; lia.
Qed.

(** *** The two patterns of [extractCollectedAt] *)

Lemma collectionDate_groups (s : str) (m : rmatch) :
  exec re_collectionDate s = Some m ->
  (exists d, group 1 m = Some d /\ d <> []) /\ group 2 m = None.
Proof.
  intros Hm. apply exec_at_final in Hm as (k & _ & Hk). unfold group. split.
  - destruct (@ms_lastGroup re_collectionDate 1 re_date eq_refl _ _ Hk)
      as (w & -> & Hl).
    exists w. split; [reflexivity|]. intros ->. vm_compute in Hl. lia.
  - rewrite (@ms_frame 2 re_collectionDate) with (st := MState (0 + k) (skipn k s) []);
      [reflexivity| |exact Hk].
    vm_compute. intros [H|[]]. discriminate.
Qed.

Lemma collectedOn_groups (s : str) (m : rmatch) :
  exec re_collectedOn s = Some m ->
  (exists d, group 1 m = Some d) /\ (exists t, group 2 m = Some t /\ t <> []).
Proof.
  intros Hm. apply exec_at_final in Hm as (k & _ & Hk). unfold group. split.
  - pose proof (@ms_sets 1 re_collectedOn eq_refl _ _ Hk) as H.
    destruct (assoc 1 (caps (final m))) as [d|]; [now exists d|congruence].
  - destruct (@ms_lastGroup re_collectedOn _ _ eq_refl _ _ Hk) as (w & -> & Hl).
    exists w. split; [reflexivity|]. intros ->. vm_compute in Hl. lia.
Qed.

(** ** The driver against the specification *)

Lemma panelBefore_snoc (before : list str) (l : str) :
  panelBefore (before ++ [l]) =
  if looksLikePanelHeader l
  then trim (replaceAll re_spaces (lit " ") l) else panelBefore before.
Proof.
  unfold panelBefore. rewrite rev_app_distr. cbn [rev app find].
  destruct (looksLikePanelHeader l); reflexivity.
Qed.

Lemma recordsFrom_spec (ls : list str) :
  forall before : list str,
    recordsFrom (panelBefore before) ls =
    flat_map (fun i => recordOf (firstn i (before ++ ls)) (nth i (before ++ ls) []))
             (seq (length before) (length ls)).
Proof.
  induction ls as [|l ls IH]; intros before; [reflexivity|].
  cbn [length seq flat_map].
  replace (firstn (length before) (before ++ l :: ls)) with before.
  2:{ rewrite <- (Nat.add_0_r (length before)), firstn_app_2.
      cbn [firstn]. now rewrite app_nil_r. }
  rewrite nth_middle.
  specialize (IH (before ++ [l])).
  rewrite <- app_assoc, length_app, Nat.add_1_r in IH. cbn [app] in IH.
  rewrite <- IH, panelBefore_snoc, recordsFrom_cons. unfold recordOf.
  destruct (looksLikePanelHeader l); [reflexivity|].
  destruct (parseMeasurementLine l); reflexivity.
Qed.

(** ** The scenarios of the specification *)

Lemma normalizedLine_eq (line : str) :
  normalizedLine line = trim (squeeze isSpace (lit " ") line).
Proof. unfold normalizedLine, re_spaces. now rewrite replaceAll_plus_class. Qed.

Lemma reportLines_eq (rawText : str) :
  reportLines rawText
  = filter (fun l => negb (isEmpty l)) (map trim (splitLines [] rawText)).
Proof. unfold reportLines. now rewrite split_newline. Qed.

Example parseRef_range :
  parseRef (Some (lit "14-18")) = Ref.Build (Some (ofZ 14)) (Some (ofZ 18)) None.
Proof. vm_compute. reflexivity. Qed.

Example parseRef_inequality :
  parseRef (Some (lit "<5.0")) = Ref.Build None None (Some (lit "<5.0")).
Proof. vm_compute. reflexivity. Qed.

Example parseRef_empty :
  parseRef (Some []) = Ref.Build None None None
  /\ parseRef None = Ref.Build None None None.
Proof. split; reflexivity. Qed.

Example normalizeKey_variants :
  normalizeKey (lit "Haemoglobin (Hb)") = lit "haemoglobin"
  /\ normalizeKey (lit "HAEMOGLOBIN") = lit "haemoglobin".
Proof. split; vm_compute; reflexivity. Qed.

Example scenario_crp :
  parseMeasurementLine (lit "C-Reactive Protein (CRP) 28.42 mg/L <5.0")
  = Some (Measurement (lit "c_reactive_protein")
                      (lit "C-Reactive Protein (CRP)")
                      (ofDecimal false 2842 (-2)) (Some (lit "mg/L"))
                      None None (Some (lit "<5.0")) None
                      (lit "C-Reactive Protein (CRP) 28.42 mg/L <5.0") None).
Proof. vm_compute. reflexivity. Qed.

Example scenario_lipid_profile :
  map (fun r => (name r, panel r))
      (parseReportText (lit "Glucose 90 mg/dL
LIPID PROFILE
Cholesterol 180 mg/dL
HDL 50 mg/dL"))
  = [(lit "Glucose", Some (lit "General"));
     (lit "Cholesterol", Some (lit "LIPID PROFILE"));
     (lit "HDL", Some (lit "LIPID PROFILE"))].
Proof. vm_compute. reflexivity. Qed.

Example scenario_collected_on :
  extractCollectedAt (lit "Collected On : 16/01/2026 1:40PM")
  = Some (CollectedAt (Some (lit "16/01/2026")) (lit "1:40PM")).
Proof. vm_compute. reflexivity. Qed.

(* ================================================================= *)
(** * The properties of the specification *)

(** C1 (counterexample).  The text ["Page 1 of 3"] has that one line, and
    [parseReportText] yields a record for it: name ["Page"], value 1, unit
    ["of"], reference text ["3"]. *)
Lemma C1_page_line_counterexample :
  reportLines (lit "Page 1 of 3") = [lit "Page 1 of 3"]
  /\ parseReportText (lit "Page 1 of 3")
     = [Measurement (lit "page") (lit "Page") (ofZ 1) (Some (lit "of"))
                    None None (Some (lit "3")) None (lit "Page 1 of 3")
                    (Some (lit "General"))].
Proof. split; vm_compute; reflexivity. Qed.

(** C1 (amended).  For every input text whose lines contain ["Page 1 of 3"],
    [parseReportText] yields for that line exactly one record (name
    ["Page"], value 1, unit ["of"], reference text ["3"], no bounds, no
    flag, stamped with the panel in force), and the records of the other
    lines are those of the text without that line. *)
Theorem C1_page_line (rawText : str) (before after : list str) :
  reportLines rawText = before ++ pageLine :: after ->
  parseReportText rawText
  = recordsFrom (lit "General") before
    ++ withPanel pageRecord (panelBefore before)
    :: recordsFrom (panelBefore before) after
  /\ recordsFrom (lit "General") (before ++ after)
     = recordsFrom (lit "General") before
       ++ recordsFrom (panelBefore before) after.
Proof.
  intros E. rewrite parseReportText_eq, E, !recordsFrom_app.
  rewrite panelAfter_panelBefore, recordsFrom_cons.
  split; reflexivity.
Qed.

Lemma C1_page_line_witness :
  let rawText := lit "Hb 12.3
Page 1 of 3
Na 140" in
  parseReportText rawText
  = recordsFrom (lit "General") [lit "Hb 12.3"]
    ++ withPanel pageRecord (panelBefore [lit "Hb 12.3"])
    :: recordsFrom (panelBefore [lit "Hb 12.3"]) [lit "Na 140"]
  /\ recordsFrom (lit "General") ([lit "Hb 12.3"] ++ [lit "Na 140"])
     = recordsFrom (lit "General") [lit "Hb 12.3"]
       ++ recordsFrom (panelBefore [lit "Hb 12.3"]) [lit "Na 140"].
Proof.
  intros rawText.
  apply (@C1_page_line rawText [lit "Hb 12.3"] [lit "Na 140"]).
  vm_compute. reflexivity.
Defined.

(** C2 (counterexample).  The trimmed line ["ABcde"] meets the rule as the
    specification words it (length 5, no digit, 2 capitals, and
    min(8, floor(5 * 0.5)) = 2), yet [looksLikePanelHeader] rejects it: the
    code compares with 2.5. *)
Lemma C2_header_floor_counterexample :
  trim (lit "ABcde") = lit "ABcde"
  /\ headerRuleFloor (lit "ABcde") = true
  /\ looksLikePanelHeader (lit "ABcde") = false.
Proof. repeat split; vm_compute; reflexivity. Qed.

(** C2 (amended).  For every line, with [s] its trimmed text,
    [looksLikePanelHeader] holds exactly when the line is non-empty, the
    length of [s] is at least 4 and at most 45, [s] has no digit, and the
    number of capitals A-Z in [s] is at least min(8, length / 2) with the
    half not rounded, that is, twice the number is at least
    min(16, length).  A line that fails one of the first three conditions is
    never a header. *)
Theorem C2_header_rule (line : str) :
  looksLikePanelHeader line
  = negb (isEmpty line)
    && ((4 <=? length (trim line)) && (length (trim line) <=? 45)
        && negb (existsb isDigit (trim line))
        && (Nat.min 16 (length (trim line)) <=? 2 * countUpper (trim line))).
Proof. apply looksLikePanelHeader_eq. Qed.




(** C4 (counterexample).  The line ["- 5"] yields one record, with name
    ["-"], and its key is the empty string. *)
Lemma C4_empty_key_counterexample :
  map (fun r => (name r, key r)) (parseReportText (lit "- 5"))
  = [(lit "-", [])].
Proof. vm_compute. reflexivity. Qed.

(** C4 (amended).  For every input text and every record of
    [parseReportText], the key is [normalizeKey] of the name, and it is a
    possibly empty string of characters of [[a-z0-9_]] with no underscore at
    either end. *)
Theorem C4_key_shape (rawText : str) (r : measurement) :
  In r (parseReportText rawText) ->
  key r = normalizeKey (name r)
  /\ forallb isKeyChar (key r) = true
  /\ startsWith "_" (key r) = false
  /\ endsWith "_" (key r) = false.
Proof.
  intros Hin. rewrite parseReportText_eq in Hin.
  apply recordsFrom_in in Hin as (l & m & q & _ & _ & Hm & ->).
  pose proof (parseMeasurementLine_inv l) as Hinv. rewrite Hm in Hinv.
  destruct Hinv as (_ & _ & _ & _ & _ & _ & Hk & _).
  cbn [withPanel key name]. split; [exact Hk|]. rewrite Hk.
  pose proof (normalizeKey_shape (name m)) as Hs. unfold keyShape in Hs.
  apply andb_true_iff in Hs as [Hs He]. apply andb_true_iff in Hs as [Hc Hh].
  apply negb_true_iff in He, Hh. auto.
Qed.

Lemma C4_key_shape_witness :
  key (withPanel haemoglobinRecord (lit "General"))
  = normalizeKey (name (withPanel haemoglobinRecord (lit "General")))
  /\ forallb isKeyChar (key (withPanel haemoglobinRecord (lit "General"))) = true
  /\ startsWith "_" (key (withPanel haemoglobinRecord (lit "General"))) = false
  /\ endsWith "_" (key (withPanel haemoglobinRecord (lit "General"))) = false.
Proof.
  apply (@C4_key_shape haemoglobinLine).
  left. vm_compute. reflexivity.
Defined.

(** C5 (counterexample).  The value 18 is exactly equal to refLow 18 and,
    refHigh being 14, it is flagged "H" (the line ["X 18 mg 18-14"] gives
    these bounds). *)
Lemma C5_equal_bound_counterexample :
  eqn (ofZ 18) (ofZ 18) = true
  /\ computeFlag (JNum (ofZ 18)) (JNum (ofZ 18)) (JNum (ofZ 14)) JNull = Some FlagH
  /\ option_map flag (parseMeasurementLine (lit "X 18 mg 18-14")) = Some (Some FlagH).
Proof. repeat split; vm_compute; reflexivity. Qed.

(** C5 (amended).  [computeFlag] returns no flag when the value is not of
    type number or is NaN; "L" when refLow is a number and value < refLow;
    otherwise "H" when refHigh is a number and value > refHigh; otherwise no
    flag.  A value equal to refLow is never flagged "L" and a value equal to
    refHigh is never flagged "H", so that with refLow <= refHigh a value
    equal to either bound is not flagged; without numeric bounds (a
    reference given as text only) there is no flag. *)
Theorem C5_flag_rule :
  (forall value refLow refHigh refText,
      (forall v, value = JNum v -> isNaN v = true) ->
      computeFlag value refLow refHigh refText = None)
  /\ (forall v lo refHigh refText,
        isNaN v = false -> lt v lo = true ->
        computeFlag (JNum v) (JNum lo) refHigh refText = Some FlagL)
  /\ (forall v refLow hi refText,
        isNaN v = false ->
        (forall lo, refLow = JNum lo -> lt v lo = false) ->
        gt v hi = true ->
        computeFlag (JNum v) refLow (JNum hi) refText = Some FlagH)
  /\ (forall v refLow refHigh refText,
        (forall lo, refLow = JNum lo -> lt v lo = false) ->
        (forall hi, refHigh = JNum hi -> gt v hi = false) ->
        computeFlag (JNum v) refLow refHigh refText = None)
  /\ (forall v lo refHigh refText,
        eqn v lo = true ->
        computeFlag (JNum v) (JNum lo) refHigh refText <> Some FlagL)
  /\ (forall v refLow hi refText,
        eqn v hi = true ->
        computeFlag (JNum v) refLow (JNum hi) refText <> Some FlagH)
  /\ (forall v lo hi refText,
        le lo hi = true -> eqn v lo = true \/ eqn v hi = true ->
        computeFlag (JNum v) (JNum lo) (JNum hi) refText = None)
  /\ (forall value refLow refHigh refText,
        (forall x, refLow <> JNum x) -> (forall x, refHigh <> JNum x) ->
        computeFlag value refLow refHigh refText = None).
Proof.
  repeat split.
  - intros value refLow refHigh refText Hv.
    destruct value as [| |v|s]; try reflexivity.
    cbn [computeFlag]. now rewrite (Hv v eq_refl).
  - intros v lo refHigh refText Hn Hl. cbn [computeFlag]. now rewrite Hn, Hl.
  - intros v refLow hi refText Hn Hl Hh. cbn [computeFlag]. rewrite Hn, Hh.
    destruct refLow as [| |lo|s]; try reflexivity.
    now rewrite (Hl lo eq_refl).
  - intros v refLow refHigh refText Hl Hh. cbn [computeFlag].
    destruct (isNaN v); [reflexivity|].
    destruct refLow as [| |lo|s]; try rewrite (Hl lo eq_refl);
      destruct refHigh as [| |hi|t]; try rewrite (Hh hi eq_refl); reflexivity.
  - intros v lo refHigh refText He. cbn [computeFlag].
    rewrite (eqn_not_lt _ _ He). destruct (isNaN v); [discriminate|].
    destruct refHigh as [| |hi|t]; try discriminate.
    destruct (gt v hi); discriminate.
  - intros v refLow hi refText He. cbn [computeFlag].
    rewrite (eqn_not_gt _ _ He). destruct (isNaN v); [discriminate|].
    destruct refLow as [| |lo|t]; try discriminate.
    destruct (lt v lo); discriminate.
  - intros v lo hi refText Hle [He|He]; cbn [computeFlag];
      destruct (isNaN v); try reflexivity.
    + rewrite (eqn_not_lt _ _ He), (eqn_gt_l _ _ hi He), (le_not_gt _ _ Hle).
      reflexivity.
    + rewrite (eqn_not_gt _ _ He), (eqn_lt_l _ _ lo He).
      apply le_not_gt in Hle. unfold gt in Hle. unfold lt. now rewrite Hle.
  - intros value refLow refHigh refText Hl Hh.
    destruct value as [| |v|s]; try reflexivity. cbn [computeFlag].
    destruct (isNaN v); [reflexivity|].
    destruct refLow as [| |lo|s]; try (exfalso; eapply Hl; reflexivity);
      destruct refHigh as [| |hi|t]; try (exfalso; eapply Hh; reflexivity);
      reflexivity.
Qed.

Lemma C5_flag_rule_witness :
  computeFlag (JNum (ofDecimal false 123 (-1))) (JNum (ofZ 14)) (JNum (ofZ 18))
              JNull = Some FlagL
  /\ computeFlag (JNum (ofZ 14)) (JNum (ofZ 14)) (JNum (ofZ 18)) JNull = None.
Proof.
  destruct C5_flag_rule as (_ & HL & _ & _ & _ & _ & HE & _). split.
  - apply HL; vm_compute; reflexivity.
  - apply HE; [|left]; vm_compute; reflexivity.
Defined.

(** C6.  The line ["Haemoglobin (Hb) 12.3 gm/dL 14-18"] parses to the record
    with key ["haemoglobin"], name ["Haemoglobin (Hb)"], value 12.3, unit
    ["gm/dL"], refLow 14, refHigh 18, no refText and flag "L". *)
Theorem C6_haemoglobin_line :
  parseMeasurementLine (lit "Haemoglobin (Hb) 12.3 gm/dL 14-18")
  = Some (Measurement (lit "haemoglobin") (lit "Haemoglobin (Hb)")
                      (ofDecimal false 123 (-1)) (Some (lit "gm/dL"))
                      (Some (ofZ 14)) (Some (ofZ 18)) None (Some FlagL)
                      (lit "Haemoglobin (Hb) 12.3 gm/dL 14-18") None).
Proof. vm_compute. reflexivity. Qed.

(** C7.  For every input text, the output of [parseReportText] is, line
    after line in the order of the text, what each line contributes: a
    header nothing, a line that does not parse nothing, any other line its
    record with, as panel, the whitespace-normalized text of the nearest
    header before it, or ["General"] when no header comes before.  The
    contribution of a line is spelled out field by field, the panel field
    being that text; and every record of the output comes from a line that
    is no header and has in its panel field the panel of that line. *)
Theorem C7_panel_of_nearest_header (rawText : str) :
  parseReportText rawText
  = flat_map (fun i => recordOf (firstn i (reportLines rawText))
                                (nth i (reportLines rawText) []))
             (seq 0 (length (reportLines rawText)))
  /\ (forall (before : list str) (line : str),
        recordOf before line
        = if looksLikePanelHeader line then []
          else match parseMeasurementLine line with
               | Some m =>
                   [Measurement (key m) (name m) (value m) (unit m)
                                (refLow m) (refHigh m) (refText m) (flag m)
                                (rawLine m) (Some (panelBefore before))]
               | None => []
               end)
  /\ (forall r : measurement,
        In r (parseReportText rawText) ->
        exists (i : nat) (m : measurement),
          i < length (reportLines rawText)
          /\ looksLikePanelHeader (nth i (reportLines rawText) []) = false
          /\ parseMeasurementLine (nth i (reportLines rawText) []) = Some m
          /\ panel r = Some (panelBefore (firstn i (reportLines rawText)))
          /\ (key r, name r, value r, unit r, refLow r, refHigh r, refText r,
              flag r, rawLine r)
             = (key m, name m, value m, unit m, refLow m, refHigh m,
                refText m, flag m, rawLine m)).
Proof.
  assert (E : parseReportText rawText
              = flat_map (fun i => recordOf (firstn i (reportLines rawText))
                                            (nth i (reportLines rawText) []))
                         (seq 0 (length (reportLines rawText)))).
  { rewrite parseReportText_eq.
    exact (recordsFrom_spec (reportLines rawText) []). }
  split; [exact E|]. split; [reflexivity|].
  intros r Hin. rewrite E in Hin.
  apply in_flat_map in Hin as (i & Hi & Hr). apply in_seq in Hi.
  unfold recordOf in Hr.
  destruct (looksLikePanelHeader (nth i (reportLines rawText) [])) eqn:Hh;
    [destruct Hr|].
  destruct (parseMeasurementLine (nth i (reportLines rawText) [])) as [m|]
    eqn:Hm; [|destruct Hr].
  destruct Hr as [<-|[]]. exists i, m.
  refine (conj _ (conj Hh (conj Hm (conj eq_refl eq_refl)))). lia.
Qed.

Lemma C7_panel_of_nearest_header_witness :
  exists (i : nat) (m : measurement),
    i < 3
    /\ looksLikePanelHeader
         (nth i [lit "Glucose 90 mg/dL"; lit "LIPID PROFILE";
                 lit "HDL 50 mg/dL"] []) = false
    /\ parseMeasurementLine
         (nth i [lit "Glucose 90 mg/dL"; lit "LIPID PROFILE";
                 lit "HDL 50 mg/dL"] []) = Some m
    /\ Some (lit "LIPID PROFILE")
       = Some (panelBefore
                 (firstn i [lit "Glucose 90 mg/dL"; lit "LIPID PROFILE";
                            lit "HDL 50 mg/dL"]))
    /\ (lit "hdl", lit "HDL", ofZ 50, Some (lit "mg/dL"),
        @None number, @None number, @None str, @None Flag,
        lit "HDL 50 mg/dL")
       = (key m, name m, value m, unit m, refLow m, refHigh m,
          refText m, flag m, rawLine m).
Proof.
  apply (proj2 (proj2 (C7_panel_of_nearest_header
                         (lit "Glucose 90 mg/dL
LIPID PROFILE
HDL 50 mg/dL")))
           (Measurement (lit "hdl") (lit "HDL") (ofZ 50) (Some (lit "mg/dL"))
                        None None None None (lit "HDL 50 mg/dL")
                        (Some (lit "LIPID PROFILE")))).
  vm_compute. right. left. reflexivity.
Defined.



(** C9.  [normalizeKey] is idempotent: one pass is a fixed point. *)
Theorem C9_normalizeKey_idempotent (x : str) :
  normalizeKey (normalizeKey x) = normalizeKey x.
Proof.
  apply normalizeKey_fixed.
  - apply normalizeKey_shape.
  - apply normalizeKey_noAdjacent.
Qed.

(** C10.  For every input text, the value of every record of
    [parseReportText] is a number other than NaN. *)
Theorem C10_value_not_NaN (rawText : str) (r : measurement) :
  In r (parseReportText rawText) -> isNaN (value r) = false.
Proof.
  intros Hin. rewrite parseReportText_eq in Hin.
  apply recordsFrom_in in Hin as (l & m & q & _ & _ & Hm & ->).
  pose proof (parseMeasurementLine_inv l) as Hinv. rewrite Hm in Hinv.
  destruct Hinv as (_ & _ & Hv & _ & _ & Hval & _).
  cbn [withPanel value]. now rewrite Hval.
Qed.

Lemma C10_value_not_NaN_witness :
  isNaN (value (withPanel pageRecord (lit "General"))) = false.
Proof.
  apply (@C10_value_not_NaN pageLine).
  left. vm_compute. reflexivity.
Defined.

(* ================================================================= *)
(** * Further properties of the code *)

(** ** The matcher consumes words of the pattern *)

Lemma ms_matches (r : regex) :
  forall st st',
    In st' (ms r st) ->
    exists w,
      rest st = w ++ rest st' /\ pos st' = pos st + length w /\ matches r w.
Proof.
  induction r as [|p|r1 IH1 r2 IH2|r1 IH1 r2 IH2|r1 IH1|i r1 IH1| |];
    intros st st' Hin; cbn [ms] in Hin.
  - destruct Hin as [<-|[]]. exists []. repeat split; [cbn; lia|constructor].
  - destruct (rest st) as [|c t] eqn:E; [destruct Hin|].
    destruct (p c) eqn:P; [|destruct Hin]. destruct Hin as [<-|[]].
    exists [c]. cbn. repeat split; [lia|now constructor].
  - apply in_flat_map in Hin as (mid & Hmid & Hin).
    apply IH1 in Hmid as (w1 & E1 & P1 & M1).
    apply IH2 in Hin as (w2 & E2 & P2 & M2).
    exists (w1 ++ w2). rewrite E1, E2, P2, P1, length_app, app_assoc.
    repeat split; [lia|now constructor].
  - apply in_app_or in Hin as [Hin|Hin].
    + apply IH1 in Hin as (w & E & P & M). exists w. repeat split; auto.
      now apply M_AltL.
    + apply IH2 in Hin as (w & E & P & M). exists w. repeat split; auto.
      now apply M_AltR.
  - assert (H : forall fuel st st', In st' (star_iter (ms r1) fuel st) ->
              exists w, rest st = w ++ rest st'
                        /\ pos st' = pos st + length w /\ matches (Star r1) w).
    { clear st st' Hin. induction fuel as [|f IHf]; intros st st' Hin.
      - destruct Hin as [<-|[]]. exists []. repeat split; [cbn; lia|constructor].
      - cbn [star_iter] in Hin. apply in_app_or in Hin as [Hin|[<-|[]]].
        + apply in_flat_map in Hin as (mid & Hmid & Hin).
          destruct (pos st <? pos mid); [|destruct Hin].
          apply IH1 in Hmid as (w1 & E1 & P1 & M1).
          apply IHf in Hin as (w2 & E2 & P2 & M2).
          exists (w1 ++ w2). rewrite E1, E2, P2, P1, length_app, app_assoc.
          repeat split; [lia|now constructor].
        + exists []. repeat split; [cbn; lia|constructor]. }
    exact (H _ _ _ Hin).
  - apply in_map_iff in Hin as (mid & <- & Hmid).
    apply IH1 in Hmid as (w & E & P & M). exists w. cbn [capture rest pos].
    repeat split; auto. now constructor.
  - destruct (pos st =? 0); [|destruct Hin]. destruct Hin as [<-|[]].
    exists []. repeat split; [cbn; lia|constructor].
  - destruct (isEmpty (rest st)); [|destruct Hin]. destruct Hin as [<-|[]].
    exists []. repeat split; [cbn; lia|constructor].
Qed.

(** What a group holds after a match was there before or is a word of the
    body of that group. *)
Lemma ms_caps_sound (r : regex) :
  forall st st',
    In st' (ms r st) ->
    forall i w,
      assoc i (caps st') = Some w ->
      assoc i (caps st) = Some w
      \/ exists b, In (i, b) (groupBodies r) /\ matches b w.
Proof.
  induction r as [|p|r1 IH1 r2 IH2|r1 IH1 r2 IH2|r1 IH1|j r1 IH1| |];
    intros st st' Hin i w Hw; cbn [ms groupBodies] in *.
  - destruct Hin as [<-|[]]. now left.
  - destruct (rest st) as [|c t]; [destruct Hin|].
    destruct (p c); [|destruct Hin]. destruct Hin as [<-|[]]. now left.
  - apply in_flat_map in Hin as (mid & Hmid & Hin).
    destruct (IH2 _ _ Hin _ _ Hw) as [H|(b & Hb & Mb)].
    + destruct (IH1 _ _ Hmid _ _ H) as [H'|(b & Hb & Mb)]; [now left|].
      right. exists b. split; [apply in_or_app; now left|exact Mb].
    + right. exists b. split; [apply in_or_app; now right|exact Mb].
  - apply in_app_or in Hin as [Hin|Hin].
    + destruct (IH1 _ _ Hin _ _ Hw) as [H|(b & Hb & Mb)]; [now left|].
      right. exists b. split; [apply in_or_app; now left|exact Mb].
    + destruct (IH2 _ _ Hin _ _ Hw) as [H|(b & Hb & Mb)]; [now left|].
      right. exists b. split; [apply in_or_app; now right|exact Mb].
  - revert i w Hw.
    apply (star_iter_closure
             (fun a b => forall i w, assoc i (caps b) = Some w ->
                assoc i (caps a) = Some w
                \/ exists b0, In (i, b0) (groupBodies r1) /\ matches b0 w))
      with (body := ms r1) (fuel := length (rest st)); auto.
    intros a b c Hab Hbc i w Hw.
    destruct (Hbc _ _ Hw) as [H|H]; [now apply Hab|now right].
  - apply in_map_iff in Hin as (mid & <- & Hmid).
    cbn [capture caps assoc] in Hw. destruct (i =? j) eqn:E.
    + apply Nat.eqb_eq in E. subst j. injection Hw as <-.
      right. exists r1. split; [now left|].
      apply ms_matches in Hmid as (w & Ew & Pw & Mw).
      rewrite Ew, Pw.
      replace (pos st + length w - pos st) with (length w + 0) by lia.
      rewrite firstn_app_2. cbn [firstn]. now rewrite app_nil_r.
    + destruct (IH1 _ _ Hmid _ _ Hw) as [H|(b & Hb & Mb)]; [now left|].
      right. exists b. split; [now right|exact Mb].
  - destruct (pos st =? 0); [|destruct Hin]. destruct Hin as [<-|[]]. now left.
  - destruct (isEmpty (rest st)); [|destruct Hin]. destruct Hin as [<-|[]].
    now left.
Qed.

(** A group of a match holds a word of the body of that group. *)
Lemma exec_group_matches (r : regex) (s : str) (m : rmatch) (i : nat) (w : str) :
  exec r s = Some m -> group i m = Some w ->
  exists b, In (i, b) (groupBodies r) /\ matches b w.
Proof.
  intros Hm Hg. apply exec_at_final in Hm as (k & _ & Hk).
  destruct (@ms_caps_sound r _ _ Hk i w Hg) as [H|H]; [discriminate|exact H].
Qed.

Lemma matches_star_class (p : ascii -> bool) (w : str) :
  matches (Star (Class p)) w -> forallb p w = true.
Proof.
  intros M. remember (Star (Class p)) as r eqn:Er.
  induction M; try discriminate.
  - reflexivity.
  - injection Er as ->. rewrite forallb_app, IHM2 by reflexivity.
    inversion M1; subst. cbn. now rewrite H0.
Qed.

Lemma matches_plus_class (p : ascii -> bool) (w : str) :
  matches (Plus (Class p)) w -> w <> [] /\ forallb p w = true.
Proof.
  unfold Plus. intros M. inversion M as [| |r1 r2 w1 w2 M1 M2| | | | | | |]; subst.
  inversion M1; subst. apply matches_star_class in M2. cbn.
  split; [discriminate|]. now rewrite H0, M2.
Qed.

(** ** Numeric tokens are numbers *)

Lemma span_all (p : ascii -> bool) (a : str) :
  forallb p a = true -> span p a = (a, []).
Proof.
  induction a as [|c t IH]; [reflexivity|]. cbn [forallb span].
  intros E. apply andb_true_iff in E as [-> Et]. now rewrite IH.
Qed.

Lemma span_stop (p : ascii -> bool) (a : str) (c : ascii) (b : str) :
  forallb p a = true -> p c = false -> span p (a ++ c :: b) = (a, c :: b).
Proof.
  induction a as [|d t IH]; cbn [forallb span app]; intros Ea Ec.
  - now rewrite Ec.
  - apply andb_true_iff in Ea as [-> Et]. now rewrite IH.
Qed.

Lemma matches_number (w : str) : matches re_number w -> decimalToken w = true.
Proof.
  unfold re_number. intros M.
  inversion M as [| |r1 r2 w1 w2 M1 M2| | | | | | |]; subst.
  apply matches_plus_class in M1 as [Hn Hd]. unfold decimalToken, Opt in *.
  inversion M2 as [| | |r1 r2 w M3|r1 r2 w M3| | | | |]; subst.
  - inversion M3 as [| |r1 r2 wd wf Md Mf| | | | | | |]; subst.
    inversion Md as [|p c Pc| | | | | | | |]; subst.
    apply matches_plus_class in Mf as [Hfn Hfd]. cbn [app].
    rewrite span_stop; [| exact Hd |].
    + apply isChar_eq in Pc. subst c. rewrite Hfd.
      destruct w1; [congruence|]. destruct wf; [congruence|]. reflexivity.
    + apply isChar_eq in Pc. subst c. reflexivity.
  - inversion M3; subst. rewrite app_nil_r, span_all by exact Hd.
    destruct w1; [congruence|reflexivity].
Qed.

(** *** Rounding never gives NaN *)

Lemma shr_1_nonneg (mrs : shr_record) :
  (0 <= shr_m mrs)%Z -> (0 <= shr_m (shr_1 mrs))%Z.
Proof.
  destruct mrs as [m r s]. cbn [shr_m]. intros Hm.
  destruct m as [|[p|p|]|p]; cbn; lia.
Qed.

Lemma iter_pos_invariant (A : Type) (f : A -> A) (P : A -> Prop) :
  (forall x, P x -> P (f x)) ->
  forall (n : positive) (x : A), P x -> P (iter_pos f n x).
Proof.
  intros Hf. induction n as [n IH|n IH|]; intros x Hx; cbn [iter_pos]; auto.
Qed.

Lemma shr_nonneg (mrs : shr_record) (e n : Z) :
  (0 <= shr_m mrs)%Z -> (0 <= shr_m (fst (shr mrs e n)))%Z.
Proof.
  intros Hm. unfold shr. destruct n as [|p|p]; cbn [fst]; auto.
  apply iter_pos_invariant with (P := fun x => (0 <= shr_m x)%Z); auto.
  apply shr_1_nonneg.
Qed.

Lemma shr_fexp_nonneg (m e : Z) (l : location) :
  (0 <= m)%Z -> (0 <= shr_m (fst (shr_fexp prec emax m e l)))%Z.
Proof.
  intros Hm. unfold shr_fexp. apply shr_nonneg.
  destruct l as [|[]]; exact Hm.
Qed.

Lemma binary_round_aux_not_NaN (sx : bool) (mx ex : Z) (lx : location) :
  (0 <= mx)%Z -> isNaN (binary_round_aux prec emax sx mx ex lx) = false.
Proof.
  intros Hm. unfold binary_round_aux.
  pose proof (shr_fexp_nonneg ex lx Hm) as H1.
  destruct (shr_fexp prec emax mx ex lx) as [mrs' e']. cbn [fst] in H1.
  assert (H2 : (0 <= round_nearest_even (shr_m mrs') (loc_of_shr_record mrs'))%Z).
  { unfold round_nearest_even.
    destruct (loc_of_shr_record mrs') as [|[]]; try exact H1; try lia.
    destruct (Z.even (shr_m mrs')); lia. }
  pose proof (shr_fexp_nonneg e' loc_Exact H2) as H3.
  destruct (shr_fexp prec emax _ e' loc_Exact) as [mrs'' e'']. cbn [fst] in H3.
  destruct (shr_m mrs'') as [|p|p]; try reflexivity; [|lia].
  now destruct (e'' <=? emax - prec)%Z.
Qed.

Lemma ofDecimal_not_NaN (neg : bool) (m e : Z) :
  (0 <= m)%Z -> isNaN (ofDecimal neg m e) = false.
Proof.
  intros Hm. unfold ofDecimal. destruct m as [|p|p]; [reflexivity| |lia].
  destruct (0 <=? e)%Z.
  - unfold binary_round. destruct (shl_align _ _ _) as [mz ez].
    apply binary_round_aux_not_NaN. lia.
  - unfold SFdiv, SFdiv_core_binary.
    match goal with
    | |- context [Z.div_eucl ?a ?b] =>
        assert (Ha : (0 <= a)%Z);
        [|pose proof (Z.div_pos a b Ha) as Hq; unfold Z.div in Hq;
          destruct (Z.div_eucl a b) as [q r]]
    end.
    + destruct (_ - _ - _)%Z; try lia. apply Z.shiftl_nonneg. lia.
    + apply binary_round_aux_not_NaN. cbn [fst] in Hq. apply Hq; lia.
Qed.

Lemma ofZ_not_NaN (n : Z) : (0 <= n)%Z -> isNaN (ofZ n) = false.
Proof.
  intros Hn. unfold ofZ, binary_normalize.
  destruct n as [|p|p]; [reflexivity| |lia].
  unfold binary_round. destruct (shl_align _ _ _) as [mz ez].
  apply binary_round_aux_not_NaN. lia.
Qed.

Lemma digitVal_nonneg (c : ascii) : (0 <= digitVal c)%Z.
Proof. ascii_cases c; vm_compute; congruence. Qed.

Lemma digitsVal_nonneg (radix : Z) (ds : str) :
  (0 <= radix)%Z -> (0 <= digitsVal radix ds)%Z.
Proof.
  intros Hr. unfold digitsVal.
  assert (H : forall a, (0 <= a)%Z ->
            (0 <= fold_left (fun a c => a * radix + digitVal c) ds a)%Z).
  { induction ds as [|c t IH]; intros a Ha; cbn [fold_left]; [exact Ha|].
    apply IH. pose proof (digitVal_nonneg c). nia. }
  apply H. lia.
Qed.

(** *** [Number] on a numeric token *)

Lemma trim_id_ends (s : str) :
  headIs isSpace s = false -> headIs isSpace (rev s) = false -> trim s = s.
Proof.
  intros Hh Hl. unfold trim, trimStart, trimEnd.
  rewrite (dropWhile_id isSpace s) by exact Hh. now apply dropWhileEnd_id.
Qed.

Lemma digit_or_dot (c : ascii) :
  isDigit c || isChar "." c = true ->
  isSpace c = false
  /\ isChar "x" c || isChar "X" c = false
  /\ isChar "o" c || isChar "O" c = false
  /\ isChar "b" c || isChar "B" c = false.
Proof. ascii_cases c; vm_compute; intuition congruence. Qed.

Lemma parseRadix_none (w : str) :
  match w with
  | _ :: c :: _ => isDigit c || isChar "." c = true
  | _ => True
  end -> parseRadix w = None.
Proof.
  destruct w as [|d [|c ds]]; [reflexivity| |].
  - intros _. ascii_cases d; reflexivity.
  - intros Hc. apply digit_or_dot in Hc as (_ & Hx & Ho & Hb).
    ascii_cases d; try reflexivity.
    cbn [parseRadix]. now rewrite Hx, Ho, Hb.
Qed.

Lemma parseDecimal_digit (d : ascii) (t : str) :
  isDigit d = true -> parseDecimal (d :: t) = parseUnsignedDecimal false (d :: t).
Proof. intros Hd. ascii_cases d; try (vm_compute in Hd; discriminate); reflexivity. Qed.

Lemma digit_not_space (c : ascii) : isDigit c = true -> isSpace c = false.
Proof. ascii_cases c; vm_compute; congruence. Qed.

Lemma digit_not_dot (c : ascii) : isChar "." c = true -> isDigit c = false.
Proof. ascii_cases c; vm_compute; congruence. Qed.

Lemma headIs_last (p : ascii -> bool) (a : str) (c : ascii) :
  headIs p (rev (a ++ [c])) = p c.
Proof. rewrite rev_app_distr. reflexivity. Qed.

(** A numeric token is the number nearest to its decimal value. *)
Lemma Number_decimalToken (w : str) :
  decimalToken w = true ->
  exists m e, (0 <= m)%Z /\ Number w = ofDecimal false m e.
Proof.
  unfold decimalToken. destruct (span isDigit w) as [ip r] eqn:Sp.
  pose proof (span_app isDigit w) as Hw.
  pose proof (span_fst_all isDigit w) as Hip. rewrite Sp in Hw, Hip.
  cbn [fst snd] in Hw, Hip. intros H. apply andb_true_iff in H as [Hn Hr].
  destruct ip as [|d ip']; [discriminate|]. clear Hn.
  cbn [forallb] in Hip. apply andb_true_iff in Hip as [Hd Hip'].
  assert (Hshape : (r = [] \/ exists fp, r = "."%char :: fp /\ fp <> []
                                          /\ forallb isDigit fp = true)).
  { destruct r as [|c fp]; [now left|]. right.
    apply andb_true_iff in Hr as [Hr Hf]. apply andb_true_iff in Hr as [Hc He].
    apply isChar_eq in Hc. subst c. exists fp. repeat split; auto.
    now destruct fp. }
  clear Hr.
  assert (Ht : trim w = w).
  { apply trim_id_ends.
    - rewrite <- Hw. cbn. now apply digit_not_space.
    - destruct Hshape as [->|(fp & -> & Hfn & Hfd)].
      + rewrite app_nil_r in Hw. subst w.
        destruct ip' as [|x y] using rev_ind; [cbn; now apply digit_not_space|].
        rewrite app_comm_cons, headIs_last. apply digit_not_space.
        rewrite forallb_app in Hip'. cbn in Hip'.
        now apply andb_true_iff in Hip' as [_ [H _]%andb_true_iff].
      + subst w. destruct fp as [|x y] using rev_ind; [congruence|].
        replace ((d :: ip') ++ "."%char :: y ++ [x])
          with (((d :: ip') ++ "."%char :: y) ++ [x])
          by (now rewrite <- app_assoc).
        rewrite headIs_last. apply digit_not_space.
        rewrite forallb_app in Hfd. cbn in Hfd.
        now apply andb_true_iff in Hfd as [_ [H _]%andb_true_iff]. }
  unfold Number. rewrite Ht, <- Hw. cbn [app isEmpty].
  rewrite parseRadix_none.
  2:{ destruct ip' as [|c t]; cbn [app].
      - destruct Hshape as [->|(fp & -> & _)]; [exact I|reflexivity].
      - cbn [forallb] in Hip'. apply andb_true_iff in Hip' as [-> _]. reflexivity. }
  rewrite parseDecimal_digit by exact Hd. unfold parseUnsignedDecimal.
  destruct (list_eq_dec _ _ _) as [E|_].
  { exfalso. injection E as -> _. vm_compute in Hd. discriminate. }
  change (d :: ip' ++ r) with ((d :: ip') ++ r). rewrite Hw, Sp.
  destruct Hshape as [->|(fp & -> & Hfn & Hfd)].
  - cbn [isEmpty parseExponent option_map].
    eexists _, _. split; [|reflexivity]. apply digitsVal_nonneg. lia.
  - rewrite (span_all isDigit fp Hfd). cbn [isEmpty andb parseExponent option_map].
    eexists _, _. split; [|reflexivity]. apply digitsVal_nonneg. lia.
Qed.

Lemma Number_decimalToken_not_NaN (w : str) :
  decimalToken w = true -> isNaN (Number w) = false.
Proof.
  intros H. apply Number_decimalToken in H as (m & e & Hm & ->).
  now apply ofDecimal_not_NaN.
Qed.

(** ** The reference-range parser *)

Lemma groupBodies_range :
  groupBodies re_range = [(1, re_number); (2, re_number)].
Proof. reflexivity. Qed.

Lemma range_groups (s : str) (m : rmatch) :
  exec re_range s = Some m ->
  exists w1 w2,
    group 1 m = Some w1 /\ group 2 m = Some w2
    /\ decimalToken w1 = true /\ decimalToken w2 = true.
Proof.
  intros Hm.
  assert (Hg : forall i, setsGroup i re_range = true ->
             exists w, group i m = Some w).
  { intros i Hi. destruct (exec_at_final _ _ _ Hm) as (k & _ & Hk).
    pose proof (@ms_sets i re_range Hi _ _ Hk) as H. unfold group.
    destruct (assoc i (caps (final m))) as [w|]; [now exists w|congruence]. }
  destruct (Hg 1 eq_refl) as (w1 & H1). destruct (Hg 2 eq_refl) as (w2 & H2).
  exists w1, w2. repeat split; auto.
  - destruct (@exec_group_matches _ _ _ _ _ Hm H1) as (b & Hb & Mb).
    rewrite groupBodies_range in Hb.
    destruct Hb as [[= <-]|[[=]|[]]]. now apply matches_number.
  - destruct (@exec_group_matches _ _ _ _ _ Hm H2) as (b & Hb & Mb).
    rewrite groupBodies_range in Hb.
    destruct Hb as [[=]|[[= <-]|[]]]. now apply matches_number.
Qed.

(** The outcomes of [parseRef]: nothing for an empty reference; both
    bounds, neither of them NaN, and no text; or the trimmed text and no
    bound. *)
Lemma parseRef_cases (refStr : option str) :
  match refStr with
  | None | Some [] => parseRef refStr = Ref.Build None None None
  | Some s =>
      (exists lo hi,
          parseRef refStr = Ref.Build (Some lo) (Some hi) None
          /\ isNaN lo = false /\ isNaN hi = false)
      \/ parseRef refStr = Ref.Build None None (Some (trim s))
  end.
Proof.
  destruct refStr as [[|c t]|]; try reflexivity.
  unfold parseRef.
  destruct (exec re_inequality _); [now right|].
  destruct (exec re_range _) as [m|] eqn:Hm; [|now right].
  left. destruct (range_groups _ Hm) as (w1 & w2 & -> & -> & D1 & D2).
  eexists _, _. split; [reflexivity|]. cbn [NumberOf].
  split; now apply Number_decimalToken_not_NaN.
Qed.

(** ** The measurement record in full *)

Lemma parseMeasurementLine_full (line : str) (m : measurement) :
  parseMeasurementLine line = Some m ->
  m = Measurement (normalizeKey (nameText (normalizedLine line)))
                  (nameText (normalizedLine line))
                  (Number (valueToken (normalizedLine line)))
                  (orNull (trim (join (lit " ")
                                      (fst (lineUnitRef (normalizedLine line))))))
                  (Ref.refLow (lineRef (normalizedLine line)))
                  (Ref.refHigh (lineRef (normalizedLine line)))
                  (Ref.refText (lineRef (normalizedLine line)))
                  (computeFlag
                     (JNum (Number (valueToken (normalizedLine line))))
                     (numOrNull (Ref.refLow (lineRef (normalizedLine line))))
                     (numOrNull (Ref.refHigh (lineRef (normalizedLine line))))
                     (strOrNull (Ref.refText (lineRef (normalizedLine line)))))
                  (normalizedLine line) None.
Proof.
  unfold parseMeasurementLine. fold (normalizedLine line).
  set (s := normalizedLine line).
  destruct (isEmpty s); [discriminate|].
  pose proof (exec_at_first (Group 1 re_number) isDigit ms_group_number_empty s 0)
    as Hx.
  unfold exec. destruct (exec_at (Group 1 re_number) 0 s) as [vm|]; [|discriminate].
  destruct Hx as [_ Hi]. cbn [Nat.add] in Hi. rewrite Hi.
  unfold slice_to, slice_from.
  fold (firstNumericIndex s). fold (nameText s).
  destruct (isEmpty (nameText s)); [discriminate|].
  rewrite first_token. cbn [NumberOf]. fold (valueToken s).
  destruct (isNaN (Number (valueToken s))); [discriminate|].
  fold (lineTokens s). fold (lineUnitRef s). unfold lineRef.
  destruct (lineUnitRef s) as [unitTokens refTokens]. cbn [fst snd].
  now intros [= <-].
Qed.

(** ** Trimming and whitespace normalization *)

Lemma headIs_rev_dropWhileEnd (p : ascii -> bool) (s : str) :
  headIs p (rev (dropWhileEnd p s)) = false.
Proof. unfold dropWhileEnd. rewrite rev_involutive. apply headIs_dropWhile. Qed.

Lemma trim_head (s : str) : headIs isSpace (trim s) = false.
Proof.
  unfold trim, trimEnd, trimStart. apply headIs_dropWhileEnd, headIs_dropWhile.
Qed.

Lemma trim_last (s : str) : headIs isSpace (rev (trim s)) = false.
Proof. unfold trim, trimEnd. apply headIs_rev_dropWhileEnd. Qed.

Lemma trim_idem (s : str) : trim (trim s) = trim s.
Proof. apply trim_id_ends; [apply trim_head|apply trim_last]. Qed.

Lemma forallb_trim (q : ascii -> bool) (s : str) :
  forallb q s = true -> forallb q (trim s) = true.
Proof.
  intros H. unfold trim, trimEnd, trimStart.
  now apply forallb_dropWhileEnd, forallb_dropWhile.
Qed.

Lemma noAdjacent_trim (p : ascii -> bool) (s : str) :
  noAdjacent p s = true -> noAdjacent p (trim s) = true.
Proof.
  intros H. unfold trim, trimEnd, trimStart.
  now apply noAdjacent_dropWhileEnd, noAdjacent_dropWhile.
Qed.

Lemma existsb_forallb_negp (p : ascii -> bool) (s : str) :
  existsb p s = negb (forallb (negp p) s).
Proof.
  induction s as [|c t IH]; [reflexivity|]. cbn [existsb forallb].
  rewrite IH. unfold negp. now destruct (p c), (forallb _ t).
Qed.

Lemma existsb_rev (p : ascii -> bool) (s : str) :
  existsb p (rev s) = existsb p s.
Proof. now rewrite !existsb_forallb_negp, forallb_rev. Qed.

(** Dropping characters of [p] at an end neither adds nor removes a
    character of a class disjoint from [p]. *)
Lemma existsb_dropWhile (p q : ascii -> bool) (s : str) :
  (forall c, p c = true -> q c = false) ->
  existsb q (dropWhile p s) = existsb q s.
Proof.
  intros Hpq. induction s as [|c t IH]; [reflexivity|].
  cbn [dropWhile]. destruct (p c) eqn:P; [|reflexivity].
  cbn [existsb]. now rewrite (Hpq c P), IH.
Qed.

Lemma existsb_trim (q : ascii -> bool) (s : str) :
  (forall c, isSpace c = true -> q c = false) ->
  existsb q (trim s) = existsb q s.
Proof.
  intros Hq. unfold trim, trimEnd, trimStart, dropWhileEnd.
  now rewrite existsb_rev, existsb_dropWhile, existsb_rev, existsb_dropWhile.
Qed.

Lemma space_not_digit (c : ascii) : isSpace c = true -> isDigit c = false.
Proof. ascii_cases c; vm_compute; congruence. Qed.

Lemma existsb_squeezeFrom (p q : ascii -> bool) (by_ : str) (s : str) :
  (forall c, p c = true -> q c = false) -> existsb q by_ = false ->
  forall b, existsb q (squeezeFrom p by_ b s) = existsb q s.
Proof.
  intros Hpq Hby. induction s as [|c t IH]; intros b; [reflexivity|].
  cbn [squeezeFrom existsb]. destruct (p c) eqn:P.
  - rewrite (Hpq c P). destruct b; [apply IH|].
    now rewrite existsb_app, Hby, IH.
  - cbn [existsb]. now rewrite IH.
Qed.

(** A line has a numeric token exactly when it has a digit. *)
Lemma hasNumericToken_normalized (line : str) :
  hasNumericToken (normalizedLine line) = existsb isDigit line.
Proof.
  unfold hasNumericToken. rewrite normalizedLine_eq.
  rewrite existsb_trim by exact space_not_digit.
  apply existsb_squeezeFrom; [exact space_not_digit|reflexivity].
Qed.

Lemma squeezeFrom_only (p : ascii -> bool) (u : ascii) (s : str) :
  forall b, forallb (fun c => negb (p c) || isChar u c) (squeezeFrom p [u] b s) = true.
Proof.
  induction s as [|c t IH]; intros b; [reflexivity|].
  cbn [squeezeFrom]. destruct (p c) eqn:P.
  - destruct b; [apply IH|]. cbn [app forallb]. rewrite IH.
    unfold isChar. rewrite Ascii.eqb_refl. now rewrite orb_true_r.
  - cbn [forallb]. now rewrite P, IH.
Qed.

(** In the whitespace-normalized line every white space is one SPACE
    between two other characters. *)
Lemma normalizedLine_shape (line : str) :
  noAdjacent isSpace (normalizedLine line) = true
  /\ forallb (fun c => negb (isSpace c) || isChar " " c) (normalizedLine line) = true
  /\ headIs isSpace (normalizedLine line) = false
  /\ headIs isSpace (rev (normalizedLine line)) = false.
Proof.
  rewrite normalizedLine_eq. repeat split.
  - apply noAdjacent_trim. apply (squeezeFrom_noAdjacent isSpace " "%char).
  - apply forallb_trim. apply (squeezeFrom_only isSpace " "%char).
  - apply trim_head.
  - apply trim_last.
Qed.

Lemma normalizedLine_idem (line : str) :
  normalizedLine (normalizedLine line) = normalizedLine line.
Proof.
  destruct (normalizedLine_shape line) as (Hn & Ho & Hh & Hl).
  rewrite (normalizedLine_eq (normalizedLine line)). unfold squeeze.
  change (lit " ") with [" "%char].
  destruct (@squeezeFrom_id isSpace " "%char (normalizedLine line) Hn) as [-> _].
  - intros c Hin Hp. rewrite forallb_forall in Ho. specialize (Ho c Hin).
    rewrite Hp in Ho. cbn in Ho. now apply isChar_eq.
  - now apply trim_id_ends.
Qed.

Lemma parseMeasurementLine_normalized (line : str) :
  parseMeasurementLine (normalizedLine line) = parseMeasurementLine line.
Proof.
  unfold parseMeasurementLine. fold (normalizedLine (normalizedLine line)).
  fold (normalizedLine line). now rewrite normalizedLine_idem.
Qed.

(** ** The fields of a record *)

Lemma record_origin (rawText : str) (r : measurement) :
  In r (parseReportText rawText) ->
  exists line m q,
    In line (reportLines rawText) /\ looksLikePanelHeader line = false
    /\ parseMeasurementLine line = Some m /\ r = withPanel m q.
Proof. rewrite parseReportText_eq. apply recordsFrom_in. Qed.

Lemma nameText_no_digit (s : str) : existsb isDigit (nameText s) = false.
Proof.
  unfold nameText, firstNumericIndex. rewrite firstn_span.
  rewrite existsb_forallb_negp, forallb_trim; [reflexivity|].
  apply span_fst_all.
Qed.

Lemma trim_cons_nonspace (d : ascii) (t : str) :
  isSpace d = false -> exists t', trim (d :: t) = d :: t'.
Proof.
  intros Hd. unfold trim, trimStart, trimEnd. cbn [dropWhile]. rewrite Hd.
  rewrite dropWhileEnd_cons. cbn [forallb]. rewrite Hd. cbn [andb]. eauto.
Qed.

Lemma skipn_span (p : ascii -> bool) (s : str) :
  skipn (length (fst (span p s))) s = dropWhile p s.
Proof.
  rewrite <- (span_app p s) at 2.
  rewrite skipn_app, Nat.sub_diag, skipn_all. cbn [app skipn].
  apply span_snd_dropWhile.
Qed.

(** The value token starts with the first digit of the line. *)
Lemma valueToken_head (s : str) :
  hasNumericToken s = true ->
  exists d t, isDigit d = true /\ valueToken s = d :: t.
Proof.
  unfold hasNumericToken, valueToken, firstNumericIndex. intros Hs.
  rewrite skipn_span.
  destruct (dropWhile (negp isDigit) s) as [|d t0] eqn:D.
  { apply dropWhile_nil_iff in D. rewrite existsb_forallb_negp, D in Hs.
    discriminate. }
  apply dropWhile_head, negp_false in D.
  destruct (@trim_cons_nonspace d t0 (@digit_not_space d D)) as (t1 & ->).
  cbn [split_on].
  replace (isChar " " d) with false
    by (revert D; clear; ascii_cases d; vm_compute; congruence).
  exists d. destruct (split_on " " t1) as [|p ps]; cbn [hd]; eauto.
Qed.

(** *** Signs *)

Lemma signBit_round_aux (m e : Z) (l : location) :
  signBit (binary_round_aux prec emax false m e l) = false.
Proof.
  unfold binary_round_aux.
  destruct (shr_fexp prec emax m e l) as [mrs' e'].
  destruct (shr_fexp prec emax _ e' loc_Exact) as [mrs'' e''].
  destruct (shr_m mrs''); try reflexivity.
  now destruct (e'' <=? emax - prec)%Z.
Qed.

Lemma signBit_ofDecimal (m e : Z) : signBit (ofDecimal false m e) = false.
Proof.
  unfold ofDecimal. destruct m as [|p|p]; try reflexivity.
  destruct (0 <=? e)%Z.
  - unfold binary_round. destruct (shl_align _ _ _). apply signBit_round_aux.
  - unfold SFdiv. destruct (SFdiv_core_binary _ _ _ _ _ _) as [[mz ez] lz].
    apply signBit_round_aux.
Qed.

Lemma signBit_ofZ (n : Z) : (0 <= n)%Z -> signBit (ofZ n) = false.
Proof.
  intros Hn. unfold ofZ, binary_normalize.
  destruct n as [|p|p]; [reflexivity| |lia].
  unfold binary_round. destruct (shl_align _ _ _). apply signBit_round_aux.
Qed.

Lemma parseRadix_sign (t : str) (x : number) :
  parseRadix t = Some x -> signBit x = false.
Proof.
  destruct t as [|d [|c ds]]; [discriminate| |].
  - ascii_cases d; discriminate.
  - ascii_cases d; try discriminate. cbn [parseRadix].
    destruct (isChar "x" c || isChar "X" c);
      [|destruct (isChar "o" c || isChar "O" c);
        [|destruct (isChar "b" c || isChar "B" c); [|discriminate]]];
      destruct (negb (isEmpty ds) && forallb _ ds); try discriminate;
      intros [= <-]; apply signBit_ofZ, digitsVal_nonneg; lia.
Qed.

Lemma parseUnsignedDecimal_sign (t : str) (x : number) :
  parseUnsignedDecimal false t = Some x -> signBit x = false.
Proof.
  unfold parseUnsignedDecimal.
  destruct (list_eq_dec _ _ _); [now intros [= <-]|].
  destruct (span isDigit t) as [ip r].
  assert (Hplain : (if isEmpty ip then None
                    else option_map (fun e => ofDecimal false (digitsVal 10 ip) e)
                                    (parseExponent r)) = Some x ->
                   signBit x = false).
  { destruct (isEmpty ip); [discriminate|].
    destruct (parseExponent r); [|discriminate].
    intros [= <-]. apply signBit_ofDecimal. }
  destruct r as [|c r']; [exact Hplain|].
  ascii_cases c; try exact Hplain.
  destruct (span isDigit r') as [fp r''].
  destruct (isEmpty ip && isEmpty fp); [discriminate|].
  destruct (parseExponent r''); [|discriminate].
  intros [= <-]. apply signBit_ofDecimal.
Qed.

(** [Number] of a text that starts with a digit is never negative. *)
Lemma Number_sign (d : ascii) (t : str) :
  isDigit d = true -> signBit (Number (d :: t)) = false.
Proof.
  intros Hd. unfold Number.
  destruct (@trim_cons_nonspace d t (@digit_not_space d Hd)) as (t' & ->).
  cbn [isEmpty].
  destruct (parseRadix (d :: t')) as [x|] eqn:Hr; [now apply parseRadix_sign in Hr|].
  rewrite parseDecimal_digit by exact Hd.
  destruct (parseUnsignedDecimal false (d :: t')) as [x|] eqn:Hu; [|reflexivity].
  now apply parseUnsignedDecimal_sign in Hu.
Qed.

(** *** The order of numbers *)

Lemma SFcompare_total (x y : number) :
  isNaN x = false -> isNaN y = false -> SFcompare x y <> None.
Proof.
  destruct x as [sx|sx| |sx mx ex], y as [sy|sy| |sy my ey];
    cbn; intros; try discriminate; try (destruct sx; discriminate);
    try (destruct sy; discriminate).
Qed.

Lemma not_lt_le (x y : number) :
  isNaN x = false -> isNaN y = false -> lt x y = false -> le y x = true.
Proof.
  intros Hx Hy. pose proof (SFcompare_total x y Hx Hy) as T.
  unfold lt, le, SFltb, SFleb. rewrite (SFcompare_antisym x y).
  destruct (SFcompare x y) as [[]|]; cbn; congruence.
Qed.

Lemma le_not_lt (x y : number) : le y x = true -> lt x y = false.
Proof. intros H. apply le_not_gt in H. exact H. Qed.

(** [computeFlag] against an interval of numbers. *)
Lemma computeFlag_range (v lo hi : number) (refText : jsval) :
  isNaN v = false -> isNaN lo = false -> isNaN hi = false ->
  (computeFlag (JNum v) (JNum lo) (JNum hi) refText = Some FlagL
   <-> lt v lo = true)
  /\ (computeFlag (JNum v) (JNum lo) (JNum hi) refText = Some FlagH
      <-> le lo v = true /\ gt v hi = true)
  /\ (computeFlag (JNum v) (JNum lo) (JNum hi) refText = None
      <-> le lo v = true /\ le v hi = true).
Proof.
  intros Hv Hlo Hhi. cbn [computeFlag]. rewrite Hv.
  pose proof (not_lt_le v lo Hv Hlo) as H1.
  pose proof (@le_not_lt v lo) as H2.
  pose proof (not_lt_le hi v Hhi Hv) as H3.
  pose proof (@le_not_lt hi v) as H4.
  unfold gt in *. fold (lt hi v) in *.
  destruct (lt v lo) eqn:E1.
  - repeat split; try discriminate; try tauto;
      intros [H _]; apply H2 in H; discriminate.
  - specialize (H1 eq_refl). destruct (lt hi v) eqn:E2.
    + repeat split; try discriminate; try tauto.
      intros [_ H]. apply H4 in H. discriminate.
    + specialize (H3 eq_refl).
      repeat split; try discriminate; try tauto; intros [? ?]; discriminate.
Qed.

(** *** The reference of a line *)

Lemma lineRef_cases (s : str) :
  lineRef s = Ref.Build None None None
  \/ (exists lo hi,
        lineRef s = Ref.Build (Some lo) (Some hi) None
        /\ isNaN lo = false /\ isNaN hi = false)
  \/ (exists t,
        lineRef s = Ref.Build None None (Some t) /\ t <> [] /\ trim t = t).
Proof.
  unfold lineRef.
  set (x := join (lit " ") (snd (lineUnitRef s))).
  pose proof (parseRef_cases (orNull (trim x))) as H.
  unfold orNull in *. destruct (trim x) as [|c t] eqn:E; cbn [isEmpty] in *.
  - now left.
  - right.
    assert (Ht : trim (c :: t) = c :: t) by (rewrite <- E; apply trim_idem).
    destruct H as [H|H]; [now left|right].
    exists (c :: t). rewrite Ht in H. repeat split; [exact H|discriminate|exact Ht].
Qed.

(** ** Properties of the records *)

(** X1.  The name of every record of [parseReportText] is not empty, has
    no white space at either end and contains no digit: it stops before the
    first digit of the line, also when that digit belongs to the name of
    the test. *)
Theorem X1_name_shape (rawText : str) (r : measurement) :
  In r (parseReportText rawText) ->
  name r <> [] /\ trim (name r) = name r /\ existsb isDigit (name r) = false.
Proof.
  intros Hin. apply record_origin in Hin as (line & m & q & _ & _ & Hm & ->).
  pose proof (parseMeasurementLine_inv line) as Hinv. rewrite Hm in Hinv.
  destruct Hinv as (_ & Hn & _ & _ & Hname & _).
  cbn [withPanel name]. rewrite Hname. repeat split.
  - exact Hn.
  - unfold nameText. apply trim_idem.
  - apply nameText_no_digit.
Qed.

Lemma X1_name_shape_witness :
  name (withPanel haemoglobinRecord (lit "General")) <> []
  /\ trim (name (withPanel haemoglobinRecord (lit "General")))
     = name (withPanel haemoglobinRecord (lit "General"))
  /\ existsb isDigit (name (withPanel haemoglobinRecord (lit "General"))) = false.
Proof.
  apply (@X1_name_shape haemoglobinLine).
  left. vm_compute. reflexivity.
Defined.

(** The name stops at the first digit: "Vitamin B12 250 pg/mL" gives the
    name "Vitamin B" and the value 12. *)
Example vitamin_b12 :
  map (fun r => (name r, value r, unit r))
      (parseReportText (lit "Vitamin B12 250 pg/mL"))
  = [(lit "Vitamin B", ofZ 12, Some (lit "250 pg/mL"))].
Proof. vm_compute. reflexivity. Qed.

(** X2.  The value of every record of [parseReportText] has a positive
    sign: the value token starts at a digit, so a minus sign before it
    stays in the name and is lost for the value. *)
Theorem X2_value_not_negative (rawText : str) (r : measurement) :
  In r (parseReportText rawText) -> signBit (value r) = false.
Proof.
  intros Hin. apply record_origin in Hin as (line & m & q & _ & _ & Hm & ->).
  pose proof (parseMeasurementLine_inv line) as Hinv. rewrite Hm in Hinv.
  destruct Hinv as (Hd & _ & _ & _ & _ & Hval & _).
  cbn [withPanel value]. rewrite Hval.
  destruct (valueToken_head _ Hd) as (d & t & Hdig & ->).
  now apply Number_sign.
Qed.

Lemma X2_value_not_negative_witness :
  signBit (value (withPanel haemoglobinRecord (lit "General"))) = false.
Proof.
  apply (@X2_value_not_negative haemoglobinLine).
  left. vm_compute. reflexivity.
Defined.

Example base_excess :
  map (fun r => (name r, value r, unit r))
      (parseReportText (lit "Base Excess -2.5 mmol/L"))
  = [(lit "Base Excess -", ofDecimal false 25 (-1), Some (lit "mmol/L"))].
Proof. vm_compute. reflexivity. Qed.

(** X3.  In every record of [parseReportText] the bounds refLow and
    refHigh are both present or both absent; when present neither is NaN
    and refText is absent; refText and unit, when present, are not empty
    and have no white space at either end. *)
Theorem X3_reference_fields (rawText : str) (r : measurement) :
  In r (parseReportText rawText) ->
  (refLow r = None <-> refHigh r = None)
  /\ (refLow r <> None -> refText r = None)
  /\ (forall lo, refLow r = Some lo -> isNaN lo = false)
  /\ (forall hi, refHigh r = Some hi -> isNaN hi = false)
  /\ (forall t, refText r = Some t -> t <> [] /\ trim t = t)
  /\ (forall u, unit r = Some u -> u <> [] /\ trim u = u).
Proof.
  intros Hin. apply record_origin in Hin as (line & m & q & _ & _ & Hm & ->).
  apply parseMeasurementLine_full in Hm. subst m.
  cbn [withPanel refLow refHigh refText unit].
  assert (Hu : forall u, orNull (trim (join (lit " ")
                 (fst (lineUnitRef (normalizedLine line))))) = Some u ->
               u <> [] /\ trim u = u).
  { intros u. unfold orNull. destruct (trim _) as [|c t] eqn:E; [discriminate|].
    cbn [isEmpty]. intros [= <-]. split; [discriminate|].
    rewrite <- E. apply trim_idem. }
  destruct (lineRef_cases (normalizedLine line))
    as [->|[(lo & hi & -> & Hlo & Hhi)|(t & -> & Ht & Htt)]];
    cbn [Ref.refLow Ref.refHigh Ref.refText];
    refine (conj _ (conj _ (conj _ (conj _ (conj _ Hu)))));
    try (split; congruence); try congruence;
    try (intros ? [=]); try (intros ? [= <-]; auto).
Qed.

Lemma X3_reference_fields_witness :
  refText (withPanel haemoglobinRecord (lit "General")) = None.
Proof.
  apply (@X3_reference_fields haemoglobinLine).
  - left. vm_compute. reflexivity.
  - discriminate.
Defined.

(** X4.  In every record of [parseReportText] that has bounds, the flag is
    "L" exactly when value < refLow, "H" exactly when refLow <= value and
    value > refHigh, and absent exactly when refLow <= value <= refHigh; a
    record without bounds has no flag. *)
Theorem X4_flag_range (rawText : str) (r : measurement) :
  In r (parseReportText rawText) ->
  match refLow r, refHigh r with
  | Some lo, Some hi =>
      (flag r = Some FlagL <-> lt (value r) lo = true)
      /\ (flag r = Some FlagH <-> le lo (value r) = true /\ gt (value r) hi = true)
      /\ (flag r = None <-> le lo (value r) = true /\ le (value r) hi = true)
  | _, _ => flag r = None
  end.
Proof.
  intros Hin. apply record_origin in Hin as (line & m & q & _ & _ & Hm & ->).
  pose proof (parseMeasurementLine_inv line) as Hinv. rewrite Hm in Hinv.
  destruct Hinv as (_ & _ & Hv & _).
  apply parseMeasurementLine_full in Hm. subst m.
  cbn [withPanel refLow refHigh refText flag value].
  destruct (lineRef_cases (normalizedLine line))
    as [->|[(lo & hi & -> & Hlo & Hhi)|(t & -> & _)]];
    cbn [Ref.refLow Ref.refHigh Ref.refText numOrNull strOrNull].
  - cbn [computeFlag]. now destruct (isNaN _).
  - now apply computeFlag_range.
  - cbn [computeFlag]. now destruct (isNaN _).
Qed.

Lemma X4_flag_range_witness :
  flag (withPanel haemoglobinRecord (lit "General")) = Some FlagL
  <-> lt (value (withPanel haemoglobinRecord (lit "General"))) (ofZ 14) = true.
Proof.
  apply (@X4_flag_range haemoglobinLine (withPanel haemoglobinRecord (lit "General"))).
  left. vm_compute. reflexivity.
Defined.

(** X5.  [parseMeasurementLine] depends on the whitespace-normalized line
    only - two lines with the same normalized text give the same result,
    a record or none, and the normalized line gives what the line gives -
    and the raw line of a record parses again to the same record. *)
Theorem X5_rawLine_reparses (line : str) :
  parseMeasurementLine (normalizedLine line) = parseMeasurementLine line
  /\ (forall line' : str,
        normalizedLine line' = normalizedLine line ->
        parseMeasurementLine line' = parseMeasurementLine line)
  /\ (forall m : measurement,
        parseMeasurementLine line = Some m ->
        parseMeasurementLine (rawLine m) = Some m).
Proof.
  split; [apply parseMeasurementLine_normalized|]. split.
  - intros line' E.
    now rewrite <- (parseMeasurementLine_normalized line'), E,
      parseMeasurementLine_normalized.
  - intros m Hm. pose proof (parseMeasurementLine_inv line) as Hinv.
    rewrite Hm in Hinv. destruct Hinv as (_ & _ & _ & -> & _).
    now rewrite parseMeasurementLine_normalized.
Qed.

Lemma X5_rawLine_reparses_witness :
  parseMeasurementLine (rawLine haemoglobinRecord) = Some haemoglobinRecord
  /\ parseMeasurementLine (lit "Haemoglobin (Hb)  12.3	gm/dL 14-18")
     = parseMeasurementLine (lit "  Haemoglobin   (Hb)	12.3 gm/dL  14-18 ")
  /\ parseMeasurementLine (lit " 	 ") = parseMeasurementLine (lit "").
Proof.
  split; [|split].
  - apply (proj2 (proj2 (X5_rawLine_reparses
                           (lit "  Haemoglobin   (Hb)	12.3 gm/dL  14-18 ")))).
    vm_compute. reflexivity.
  - apply (proj1 (proj2 (X5_rawLine_reparses
                           (lit "  Haemoglobin   (Hb)	12.3 gm/dL  14-18 ")))).
    vm_compute. reflexivity.
  - apply (proj1 (proj2 (X5_rawLine_reparses (lit "")))).
    vm_compute. reflexivity.
Defined.

(** X6.  A line that [looksLikePanelHeader] accepts has no digit, so
    [parseMeasurementLine] would yield nothing for it: by taking headers
    first the driver never passes over a measurement. *)
Theorem X6_header_not_measurement (line : str) :
  looksLikePanelHeader line = true -> parseMeasurementLine line = None.
Proof.
  intros Hh. rewrite looksLikePanelHeader_eq in Hh.
  apply andb_true_iff in Hh as [_ Hh]. unfold headerRule in Hh.
  apply andb_true_iff in Hh as [Hh _]. apply andb_true_iff in Hh as [_ Hd].
  apply negb_true_iff in Hd. rewrite existsb_trim in Hd by exact space_not_digit.
  pose proof (parseMeasurementLine_inv line) as Hinv. cbv zeta in Hinv.
  destruct (parseMeasurementLine line) as [m|]; [|reflexivity].
  destruct Hinv as (Hn & _). rewrite hasNumericToken_normalized in Hn.
  congruence.
Qed.

Lemma X6_header_not_measurement_witness :
  parseMeasurementLine (lit "LIPID PROFILE") = None.
Proof. apply X6_header_not_measurement. vm_compute. reflexivity. Defined.

(** ** The lines of a report *)

Lemma trim_snoc_space (x : str) (c : ascii) :
  isSpace c = true -> trim (x ++ [c]) = trim x.
Proof.
  intros Hc. unfold trim, trimStart, trimEnd. rewrite dropWhile_app.
  destruct (forallb isSpace x) eqn:F.
  - cbn [dropWhile]. rewrite Hc.
    apply dropWhile_nil_iff in F. now rewrite F.
  - unfold dropWhileEnd. rewrite rev_app_distr. cbn [rev app dropWhile].
    now rewrite Hc.
Qed.

Lemma prepend_nil (l : list str) : l <> [] -> prepend [] l = l.
Proof. now destruct l. Qed.

Lemma char_013_space : isSpace "013" = true.
Proof. reflexivity. Qed.

(** The pieces [/\r?\n/] cuts are those a line feed alone cuts, up to a
    carriage return at their end, which [trim] removes. *)
Lemma map_trim_splitLines (n : nat) :
  forall (s acc : str),
    length s <= n ->
    map trim (splitLines acc s)
    = map trim (prepend (rev acc) (split_on "010" s)).
Proof.
  induction n as [n IH] using lt_wf_ind. intros s acc Hn.
  destruct s as [|c t].
  - cbn. now rewrite app_nil_r.
  - cbn [length] in Hn. cbn [splitLines split_on].
    destruct (isChar "010" c) eqn:E10.
    + cbn [prepend map]. rewrite app_nil_r. f_equal.
      rewrite (IH (length t)) by lia. cbn [rev].
      now rewrite prepend_nil by apply split_on_nonempty.
    + assert (Hstep : map trim (splitLines (c :: acc) t)
                      = map trim (prepend (rev acc)
                                    match split_on "010" t with
                                    | p :: ps => (c :: p) :: ps
                                    | [] => [[c]]
                                    end)).
      { rewrite (IH (length t)) by lia. cbn [rev].
        pose proof (split_on_nonempty "010" t).
        destruct (split_on "010" t) as [|p ps]; [congruence|].
        cbn [prepend]. now rewrite <- app_assoc. }
      destruct (isChar "013" c) eqn:E13; [|exact Hstep].
      destruct t as [|d t']; [exact Hstep|].
      destruct (isChar "010" d) eqn:Ed; [|exact Hstep].
      cbn [split_on]. rewrite Ed. cbn [prepend map length] in *.
      apply isChar_eq in E13. subst c.
      rewrite (@trim_snoc_space (rev acc) _ char_013_space). f_equal.
      rewrite (IH (length t')) by lia. cbn [rev].
      now rewrite prepend_nil by apply split_on_nonempty.
Qed.

Lemma reportLines_split_on (rawText : str) :
  reportLines rawText
  = filter (fun l => negb (isEmpty l)) (map trim (split_on "010" rawText)).
Proof.
  rewrite reportLines_eq, (map_trim_splitLines (n := length rawText)) by lia.
  cbn [rev]. now rewrite prepend_nil by apply split_on_nonempty.
Qed.

Lemma split_on_app (sep : ascii) (a b : str) :
  split_on sep (a ++ sep :: b) = split_on sep a ++ split_on sep b.
Proof.
  induction a as [|c t IH]; cbn [app split_on].
  - unfold isChar. now rewrite Ascii.eqb_refl.
  - rewrite IH. destruct (isChar sep c); [reflexivity|].
    pose proof (split_on_nonempty sep t).
    destruct (split_on sep t); [congruence|reflexivity].
Qed.

Lemma split_on_no_sep (sep : ascii) (s : str) :
  forall p, In p (split_on sep s) -> existsb (isChar sep) p = false.
Proof.
  induction s as [|c t IH]; cbn [split_on]; intros p Hp.
  - destruct Hp as [<-|[]]. reflexivity.
  - destruct (isChar sep c) eqn:E.
    + destruct Hp as [<-|Hp]; [reflexivity|now apply IH].
    + destruct (split_on sep t) as [|q qs].
      * destruct Hp as [<-|[]]. cbn. now rewrite E.
      * destruct Hp as [<-|Hp].
        -- cbn [existsb]. rewrite E. apply IH. now left.
        -- apply IH. now right.
Qed.

Lemma reportLines_app (a b : str) :
  reportLines (a ++ "010"%char :: b) = reportLines a ++ reportLines b.
Proof. now rewrite !reportLines_split_on, split_on_app, map_app, filter_app. Qed.

Lemma recordsFrom_unstamped (ls : list str) :
  forall p q, map unstamped (recordsFrom p ls) = map unstamped (recordsFrom q ls).
Proof.
  induction ls as [|l ls IH]; intros p q; [reflexivity|].
  rewrite !recordsFrom_cons. destruct (looksLikePanelHeader l); [reflexivity|].
  destruct (parseMeasurementLine l); [|apply IH].
  cbn [map]. f_equal. apply IH.
Qed.

(** X7.  The lines [parseReportText] works on are the pieces of the text
    between line feeds, trimmed, the empty ones dropped (a carriage return
    before a line feed needs no pattern of its own: [trim] removes it);
    every such line is non-empty, has no white space at either end and no
    line feed. *)
Theorem X7_report_lines (rawText : str) :
  reportLines rawText
  = filter (fun l => negb (isEmpty l)) (map trim (split_on "010" rawText))
  /\ forall l, In l (reportLines rawText) ->
       l <> [] /\ trim l = l /\ existsb (isChar "010") l = false.
Proof.
  split; [apply reportLines_split_on|].
  intros l Hl. rewrite reportLines_split_on in Hl.
  apply filter_In in Hl as [Hl Hne]. apply in_map_iff in Hl as (p & <- & Hp).
  repeat split.
  - now apply isEmpty_false, negb_true_iff.
  - apply trim_idem.
  - apply split_on_no_sep in Hp. rewrite existsb_forallb_negp in *.
    apply negb_false_iff in Hp. now rewrite forallb_trim.
Qed.

(** X8.  Text appended after a line feed (the text of one more page) leaves
    the records of the text before it unchanged and adds, after them, the
    records of the appended text; those differ from the records the
    appended text gives on its own only in their panel, which carries over
    from the text before. *)
Theorem X8_appended_text (t1 t2 : str) :
  parseReportText (t1 ++ "010"%char :: t2)
  = parseReportText t1
    ++ recordsFrom (panelBefore (reportLines t1)) (reportLines t2)
  /\ map unstamped (recordsFrom (panelBefore (reportLines t1)) (reportLines t2))
     = map unstamped (parseReportText t2).
Proof.
  rewrite !parseReportText_eq, reportLines_app, recordsFrom_app.
  rewrite panelAfter_panelBefore. split; [reflexivity|].
  apply recordsFrom_unstamped.
Qed.

(** ** The unit and reference tokens *)

Lemma splitUnitRef_ref (ts : list str) :
  forall n i u r,
    r <> [] -> splitUnitRef n i ts u r = (u, r ++ ts).
Proof.
  induction ts as [|t ts IH]; intros n i u r Hr; cbn [splitUnitRef].
  - now rewrite app_nil_r.
  - replace (length r =? 0) with false
      by (symmetry; apply Nat.eqb_neq; destruct r; cbn; congruence).
    rewrite andb_false_r, IH by now destruct r.
    now rewrite <- app_assoc.
Qed.

Lemma splitUnitRef_unit (ts : list str) :
  forall n i u,
    splitUnitRef n i ts u []
    = (u ++ fst (unitRefSplit n i ts), snd (unitRefSplit n i ts)).
Proof.
  induction ts as [|t ts IH]; intros n i u; cbn [splitUnitRef unitRefSplit].
  - cbn. now rewrite app_nil_r.
  - fold (isRefStart n i t). destruct (isRefStart n i t); cbn [negb andb length Nat.eqb].
    + rewrite splitUnitRef_ref by discriminate. cbn. now rewrite app_nil_r.
    + rewrite IH. destruct (unitRefSplit n (S i) ts) as [u' r']. cbn [fst snd].
      now rewrite <- app_assoc.
Qed.

Lemma unitRefSplit_spec (n : nat) (ts : list str) :
  forall i,
    fst (unitRefSplit n i ts) ++ snd (unitRefSplit n i ts) = ts
    /\ Forall (fun t => includes "-" t = false /\ startsWith "<" t = false
                        /\ startsWith ">" t = false)
              (fst (unitRefSplit n i ts))
    /\ match snd (unitRefSplit n i ts) with
       | t :: _ => isRefStart n (i + length (fst (unitRefSplit n i ts))) t = true
       | [] => True
       end.
Proof.
  induction ts as [|t ts IH]; intros i; cbn [unitRefSplit].
  - repeat split. constructor.
  - destruct (isRefStart n i t) eqn:E.
    + cbn [fst snd app length]. rewrite Nat.add_0_r. repeat split; auto.
    + specialize (IH (S i)). destruct (unitRefSplit n (S i) ts) as [u r].
      cbn [fst snd app length] in *. destruct IH as (H1 & H2 & H3).
      rewrite H1. repeat split.
      * constructor; [|exact H2]. unfold isRefStart in E.
        apply orb_false_iff in E as [E _]. apply orb_false_iff in E as [E E3].
        apply orb_false_iff in E as [E1 E2]. auto.
      * now rewrite Nat.add_succ_r.
Qed.

Lemma lineUnitRef_spec (s : str) :
  fst (lineUnitRef s) ++ snd (lineUnitRef s) = tl (lineTokens s)
  /\ Forall (fun t => includes "-" t = false /\ startsWith "<" t = false
                      /\ startsWith ">" t = false)
            (fst (lineUnitRef s))
  /\ match snd (lineUnitRef s) with
     | t :: _ =>
         includes "-" t || startsWith "<" t || startsWith ">" t
         || (test re_numberOnly t
             && (S (length (fst (lineUnitRef s))) =? length (lineTokens s) - 1))
         = true
     | [] => True
     end.
Proof.
  unfold lineUnitRef. rewrite splitUnitRef_unit. cbn [app fst snd].
  exact (unitRefSplit_spec (length (lineTokens s)) (tl (lineTokens s)) 1).
Qed.


(** X9.  The loop of [parseMeasurementLine] over the tokens after the value
    cuts them in two without losing or reordering any: the unit tokens,
    none of which contains a hyphen or starts with "<" or ">", and the
    reference tokens, the first of which does, or is the last token of the
    line and a number. *)
Theorem X9_unit_reference_tokens (s : str) :
  fst (lineUnitRef s) ++ snd (lineUnitRef s) = tl (lineTokens s)
  /\ Forall (fun t => includes "-" t = false /\ startsWith "<" t = false
                      /\ startsWith ">" t = false)
            (fst (lineUnitRef s))
  /\ match snd (lineUnitRef s) with
     | t :: _ =>
         includes "-" t || startsWith "<" t || startsWith ">" t
         || (test re_numberOnly t
             && (S (length (fst (lineUnitRef s))) =? length (lineTokens s) - 1))
         = true
     | [] => True
     end.
Proof. exact (lineUnitRef_spec s). Qed.

Lemma forallb_join (q : ascii -> bool) (sep : str) (ts : list str) :
  forallb q sep = true -> Forall (fun t => forallb q t = true) ts ->
  forallb q (join sep ts) = true.
Proof.
  intros Hs H. induction H as [|t ts Ht Hts IH]; [reflexivity|].
  cbn [join]. destruct ts as [|t' ts']; [exact Ht|].
  now rewrite !forallb_app, Ht, Hs, IH.
Qed.

(** X10.  The unit of every record of [parseReportText] contains no
    hyphen: a token with a hyphen starts the reference. *)
Theorem X10_unit_no_hyphen (rawText : str) (r : measurement) (u : str) :
  In r (parseReportText rawText) -> unit r = Some u -> includes "-" u = false.
Proof.
  intros Hin. apply record_origin in Hin as (line & m & q & _ & _ & Hm & ->).
  apply parseMeasurementLine_full in Hm. subst m. cbn [withPanel unit].
  unfold orNull. destruct (isEmpty _); [discriminate|]. intros [= <-].
  unfold includes. rewrite existsb_forallb_negp. apply negb_false_iff.
  apply forallb_trim, forallb_join; [reflexivity|].
  destruct (lineUnitRef_spec (normalizedLine line)) as (_ & H & _).
  eapply Forall_impl; [|exact H]. cbn beta. intros t (Ht & _).
  unfold includes in Ht. rewrite existsb_forallb_negp in Ht.
  now apply negb_false_iff in Ht.
Qed.

Lemma X10_unit_no_hyphen_witness : includes "-" (lit "gm/dL") = false.
Proof.
  apply (@X10_unit_no_hyphen haemoglobinLine
           (withPanel haemoglobinRecord (lit "General"))).
  - left. vm_compute. reflexivity.
  - reflexivity.
Defined.

(** ** [escapeHtml] *)

Lemma replaceAllChar_app (c : ascii) (by_ : str) (a b : str) :
  replaceAllChar c by_ (a ++ b) = replaceAllChar c by_ a ++ replaceAllChar c by_ b.
Proof. unfold replaceAllChar. apply flat_map_app. Qed.

Lemma replaceAllChar_none (c : ascii) (by_ : str) (s : str) :
  existsb (isChar c) s = false -> replaceAllChar c by_ s = s.
Proof.
  unfold replaceAllChar. induction s as [|x t IH]; [reflexivity|].
  cbn [existsb flat_map]. intros E. apply orb_false_iff in E as [-> Et].
  cbn [app]. now rewrite IH.
Qed.

(** The four passes of [escapeHtml] amount to one pass, character by
    character: no pass touches what an earlier one wrote. *)
Lemma escapeHtml_chars (s : str) :
  escapeHtml (Some s) = flat_map escapeChar s.
Proof.
  unfold escapeHtml. cbn [stringOrEmpty].
  induction s as [|c t IH]; [reflexivity|].
  change (c :: t) with ([c] ++ t).
  rewrite !replaceAllChar_app, IH. cbn [flat_map app]. f_equal.
  unfold escapeChar.
  ascii_cases c; vm_compute; reflexivity.
Qed.

Lemma escapeChar_safe (c : ascii) :
  forallb (fun x => negb (isChar "<" x || isChar ">" x || isChar dquote x))
          (escapeChar c) = true.
Proof. ascii_cases c; vm_compute; reflexivity. Qed.

Lemma unescape_escapeChar (c : ascii) (r : str) (f : nat) :
  unescapeHtml (S f) (escapeChar c ++ r) = c :: unescapeHtml f r.
Proof. ascii_cases c; reflexivity. Qed.

Lemma escapeChar_length (c : ascii) : 1 <= length (escapeChar c).
Proof. ascii_cases c; vm_compute; lia. Qed.

Lemma unescape_escape (s : str) :
  forall fuel,
    length (flat_map escapeChar s) <= fuel ->
    unescapeHtml fuel (flat_map escapeChar s) = s.
Proof.
  induction s as [|c t IH]; intros fuel Hf.
  - destruct fuel; reflexivity.
  - cbn [flat_map] in *. rewrite length_app in Hf.
    pose proof (escapeChar_length c).
    destruct fuel as [|f]; [lia|].
    rewrite unescape_escapeChar, IH by lia. reflexivity.
Qed.

(** X11.  The text [escapeHtml] returns contains no "<", no ">" and no
    double quote, whatever its argument. *)
Theorem X11_escapeHtml_safe (s : option str) :
  forallb (fun c => negb (isChar "<" c || isChar ">" c || isChar dquote c))
          (escapeHtml s) = true.
Proof.
  destruct s as [s|]; [|reflexivity]. rewrite escapeHtml_chars.
  induction s as [|c t IH]; [reflexivity|].
  cbn [flat_map]. now rewrite forallb_app, escapeChar_safe, IH.
Qed.

(** X12.  [escapeHtml] loses nothing: replacing the four entities by their
    characters gives the argument back, so two different texts never have
    the same escaped text. *)
Theorem X12_escapeHtml_round_trip (s t : str) :
  unescapeHtml (length (escapeHtml (Some s))) (escapeHtml (Some s)) = s
  /\ (escapeHtml (Some s) = escapeHtml (Some t) -> s = t).
Proof.
  assert (H : forall x, unescapeHtml (length (escapeHtml (Some x)))
                                     (escapeHtml (Some x)) = x).
  { intros x. rewrite escapeHtml_chars. now apply unescape_escape. }
  split; [apply H|]. intros E. rewrite <- (H s), <- (H t). now rewrite E.
Qed.

Lemma X12_escapeHtml_round_trip_witness :
  unescapeHtml (length (escapeHtml (Some (lit "a<b & c>d"))))
               (escapeHtml (Some (lit "a<b & c>d"))) = lit "a<b & c>d"
  /\ (escapeHtml (Some (lit "a<b & c>d")) = lit "a&lt;b &amp; c&gt;d" ->
      lit "a<b & c>d" = unescapeHtml 30 (lit "a&lt;b &amp; c&gt;d")).
Proof.
  split.
  - exact (proj1 (X12_escapeHtml_round_trip (lit "a<b & c>d") [])).
  - intros E.
    apply (proj2 (X12_escapeHtml_round_trip
                    (lit "a<b & c>d")
                    (unescapeHtml 30 (lit "a&lt;b &amp; c&gt;d")))).
    vm_compute. reflexivity.
Defined.

Lemma isKeyChar_escape (c : ascii) : isKeyChar c = true -> escapeChar c = [c].
Proof. ascii_cases c; vm_compute; congruence. Qed.

(** X13.  A key needs no escaping: [escapeHtml] leaves every result of
    [normalizeKey] unchanged (the metric dropdown inserts keys as they
    are). *)
Theorem X13_key_needs_no_escape (x : str) :
  escapeHtml (Some (normalizeKey x)) = normalizeKey x.
Proof.
  rewrite escapeHtml_chars. pose proof (normalizeKey_keyChars x) as H.
  induction (normalizeKey x) as [|c t IH]; [reflexivity|].
  cbn [forallb] in H. apply andb_true_iff in H as [Hc Ht].
  cbn [flat_map]. now rewrite isKeyChar_escape, IH.
Qed.

(** ** Replacement, one step at a time *)

Lemma replace_from_skip (r : regex) (by_ : str) (fuel i : nat) (c : ascii) (t : str) :
  ms r (MState i (c :: t) []) = [] -> length (c :: t) < fuel ->
  replace_from r by_ fuel i (c :: t) = c :: replace_from r by_ fuel (S i) t.
Proof.
  intros M Hf. cbn [length] in Hf. destruct fuel as [|f]; [lia|].
  cbn [replace_from]. rewrite (exec_at_eq r i (c :: t)), M.
  destruct (exec_at r (S i) t) as [m|] eqn:Hm; [|reflexivity].
  destruct (exec_at_final _ _ _ Hm) as (k & Hi & _).
  replace (index m - i) with (S (index m - S i)) by lia.
  reflexivity.
Qed.

Lemma replace_from_hit (r : regex) (by_ : str) (fuel i : nat) (s : str)
      (st : mstate) (tl : list mstate) :
  ms r (MState i s []) = st :: tl -> pos st <> i -> length s < fuel ->
  replace_from r by_ fuel i s
  = by_ ++ replace_from r by_ (S (length (rest st))) (pos st) (rest st).
Proof.
  intros M Hp Hf. destruct fuel as [|f]; [lia|].
  cbn [replace_from]. rewrite exec_at_eq, M.
  unfold matchLength. cbn [index final]. rewrite Nat.sub_diag. cbn [firstn app].
  assert (Hin : In st (ms r (MState i s []))) by (rewrite M; now left).
  apply ms_consumes in Hin as (w & Ew & Pw). cbn [pos rest] in Ew, Pw.
  assert (Hl : length s = length w + length (rest st))
    by (now rewrite Ew, length_app).
  replace (pos st - i =? 0) with false by (symmetry; apply Nat.eqb_neq; lia).
  f_equal. apply replace_from_fuel. lia.
Qed.

(** ** [/\([^)]*\)/g] in full *)

Lemma runStates_then_class (q : ascii -> bool) (cs : list (nat * str)) :
  forall (s : str) (i : nat),
    flat_map (ms (Class q)) (runStates (negp q) i s cs)
    = match dropWhile (negp q) s with
      | _ :: t' => [MState (S (i + length (fst (span (negp q) s)))) t' cs]
      | [] => []
      end.
Proof.
  induction s as [|c t IH]; intros i; [reflexivity|].
  cbn [runStates dropWhile span]. destruct (q c) eqn:Q.
  - assert (N : negp q c = false) by (unfold negp; now rewrite Q).
    rewrite !N. cbn [flat_map]. rewrite ms_class, Q, app_nil_r. cbn [fst length].
    now rewrite Nat.add_0_r.
  - assert (N : negp q c = true) by (unfold negp; now rewrite Q).
    rewrite !N, flat_map_app, IH. cbn [flat_map]. rewrite ms_class, Q. cbn [app].
    rewrite app_nil_r.
    destruct (dropWhile (negp q) t); [reflexivity|].
    destruct (span (negp q) t); cbn [fst length]. now rewrite Nat.add_succ_r.
Qed.

Lemma ms_parenthetical (i : nat) (s : str) :
  ms re_parenthetical (MState i s [])
  = match s with
    | c :: t =>
        if isChar "(" c then
          match dropWhile (negp (isChar ")")) t with
          | _ :: t' =>
              [MState (S (S i + length (fst (span (negp (isChar ")")) t)))) t' []]
          | [] => []
          end
        else []
    | [] => []
    end.
Proof.
  unfold re_parenthetical, Chr, Not.
  change (ms (Seq (Class ?a) (Seq (Star ?b) ?c)) ?st)
    with (flat_map (fun st' => flat_map (ms c) (ms (Star b) st'))
                   (ms (Class a) st)).
  rewrite ms_class. destruct s as [|c t]; [reflexivity|].
  destruct (isChar "(" c); [|reflexivity].
  cbn [flat_map]. rewrite app_nil_r, ms_star_class.
  change (fun c0 : ascii => negb (isChar ")" c0)) with (negp (isChar ")")).
  apply runStates_then_class.
Qed.

Lemma existsb_dropWhile_negp (p : ascii -> bool) (s : str) :
  existsb p s = negb (isEmpty (dropWhile (negp p) s)).
Proof.
  induction s as [|c t IH]; [reflexivity|].
  cbn [existsb dropWhile]. unfold negp at 1. destruct (p c); [reflexivity|exact IH].
Qed.

Lemma stripParens_inside (t : str) :
  stripParens true t
  = match dropWhile (negp (isChar ")")) t with
    | _ :: t' => stripParens false t'
    | [] => []
    end.
Proof.
  induction t as [|c t IH]; [reflexivity|].
  cbn [stripParens dropWhile]. unfold negp at 1.
  destruct (isChar ")" c); cbn [negb]; [reflexivity|exact IH].
Qed.

Lemma replace_parenthetical (n : nat) :
  forall (s : str) (i : nat),
    length s <= n ->
    replace_from re_parenthetical [] (S (length s)) i s = stripParens false s.
Proof.
  induction n as [n IH] using lt_wf_ind. intros s i Hn.
  destruct s as [|c t]; [reflexivity|].
  pose proof (ms_parenthetical i (c :: t)) as M. cbv iota in M.
  cbn [stripParens]. rewrite existsb_dropWhile_negp.
  assert (Skip : ms re_parenthetical (MState i (c :: t) []) = [] ->
                 replace_from re_parenthetical [] (S (length (c :: t))) i (c :: t)
                 = c :: stripParens false t).
  { intros M0. rewrite (@replace_from_skip _ _ _ _ _ _ M0) by lia. f_equal.
    cbn [length] in *. rewrite replace_from_fuel by lia.
    apply (IH (length t)); lia. }
  destruct (isChar "(" c) eqn:Ec; cbn [andb]; [|exact (Skip M)].
  destruct (dropWhile (negp (isChar ")")) t) as [|d t'] eqn:D; cbn [isEmpty negb];
    [exact (Skip M)|].
  rewrite (@replace_from_hit _ _ _ _ _ _ _ M) by (cbn [pos length]; lia).
  cbn [rest pos app]. rewrite stripParens_inside, D.
  pose proof (dropWhile_length (negp (isChar ")")) t) as Hl.
  rewrite D in Hl. cbn [length] in Hl, Hn. apply (IH (length t')); lia.
Qed.

Lemma replaceAll_parenthetical (s : str) :
  replaceAll re_parenthetical [] s = stripParens false s.
Proof. apply (replace_parenthetical (n := length s)). lia. Qed.

(** [normalizeKey] without regular expressions, in full. *)
Lemma normalizeKey_plain (x : str) :
  normalizeKey x
  = dropWhileEnd (isChar "_")
      (dropWhile (isChar "_")
         (squeeze (negp isLowerAlnum) (lit "_")
            (stripParens false (toLowerCase x)))).
Proof. now rewrite normalizeKey_eq, replaceAll_parenthetical. Qed.

(** ** Keys, once more *)

Lemma existsb_dropWhileEnd (p q : ascii -> bool) (s : str) :
  (forall c, p c = true -> q c = false) ->
  existsb q (dropWhileEnd p s) = existsb q s.
Proof.
  intros H. unfold dropWhileEnd.
  now rewrite existsb_rev, existsb_dropWhile, existsb_rev.
Qed.

Lemma underscore_not_alnum (c : ascii) :
  isChar "_" c = true -> isLowerAlnum c = false.
Proof. ascii_cases c; vm_compute; congruence. Qed.

Lemma keyChar_cases (c : ascii) :
  isKeyChar c = true -> isChar "_" c = false -> isLowerAlnum c = true.
Proof.
  unfold isKeyChar, isLowerAlnum. intros H U. rewrite U, orb_false_r in H.
  exact H.
Qed.

(** The letters and digits of a key are those left outside the
    parentheticals. *)
Lemma normalizeKey_alnum (x : str) :
  existsb isLowerAlnum (normalizeKey x)
  = existsb isLowerAlnum (stripParens false (toLowerCase x)).
Proof.
  rewrite normalizeKey_plain.
  rewrite existsb_dropWhileEnd by exact underscore_not_alnum.
  rewrite existsb_dropWhile by exact underscore_not_alnum.
  apply existsb_squeezeFrom; [|reflexivity].
  intros c H. unfold negp in H. now apply negb_true_iff in H.
Qed.

(** X14.  The key of a name is empty exactly when, the name in lower case
    and its parentheticals removed, no letter [a-z] and no digit is
    left. *)
Theorem X14_empty_key (x : str) :
  isEmpty (normalizeKey x)
  = negb (existsb isLowerAlnum (stripParens false (toLowerCase x))).
Proof.
  rewrite <- normalizeKey_alnum.
  pose proof (normalizeKey_shape x) as S. unfold keyShape in S.
  destruct (normalizeKey x) as [|c t]; [reflexivity|].
  apply andb_true_iff in S as [S _]. apply andb_true_iff in S as [K U].
  cbn [forallb] in K. apply andb_true_iff in K as [K _].
  cbn [startsWith headIs] in U. apply negb_true_iff in U.
  cbn [isEmpty existsb]. now rewrite (keyChar_cases _ K U).
Qed.

Lemma noAdjacent_weaken (p q : ascii -> bool) (s : str) :
  (forall c, p c = true -> q c = true) ->
  noAdjacent q s = true -> noAdjacent p s = true.
Proof.
  intros H. induction s as [|c t IH]; [reflexivity|].
  cbn [noAdjacent]. intros E. apply andb_true_iff in E as [E1 E2].
  rewrite IH by exact E2. rewrite andb_true_r.
  apply negb_true_iff. apply negb_true_iff in E1.
  destruct (p c) eqn:Pc; [|reflexivity]. rewrite (H _ Pc) in E1.
  cbn [andb] in *. destruct t as [|d t']; [reflexivity|]. cbn [headIs] in *.
  destruct (p d) eqn:Pd; [|reflexivity]. now rewrite (H _ Pd) in E1.
Qed.

(** X15.  A key never has two underscores in a row. *)
Theorem X15_key_single_underscores (x : str) :
  noAdjacent (isChar "_") (normalizeKey x) = true.
Proof.
  apply noAdjacent_weaken with (q := negp isLowerAlnum);
    [|apply normalizeKey_noAdjacent].
  intros c H. unfold negp. now rewrite underscore_not_alnum.
Qed.

(** *** Parentheticals and trailing separators *)

Lemma stripParens_no_open (x y : str) :
  existsb (isChar "(") x = false ->
  stripParens false (x ++ y) = x ++ stripParens false y.
Proof.
  induction x as [|c t IH]; [reflexivity|].
  cbn [existsb]. intros E. apply orb_false_iff in E as [Ec Et].
  cbn [app stripParens]. rewrite Ec. cbn [andb]. now rewrite IH.
Qed.

Lemma dropWhile_negp_closing (a y : str) :
  existsb (isChar ")") a = false ->
  dropWhile (negp (isChar ")")) (a ++ ")"%char :: y) = ")"%char :: y.
Proof.
  induction a as [|c t IH]; [reflexivity|].
  cbn [existsb]. intros E. apply orb_false_iff in E as [Ec Et].
  cbn [app dropWhile]. unfold negp at 1. rewrite Ec. cbn [negb]. now apply IH.
Qed.

Lemma stripParens_parenthetical (a y : str) :
  existsb (isChar ")") a = false ->
  stripParens false ("("%char :: a ++ ")"%char :: y) = stripParens false y.
Proof.
  intros E. cbn [stripParens]. replace (isChar "(" "(") with true by reflexivity.
  rewrite existsb_app. cbn [existsb].
  replace (isChar ")" ")") with true by reflexivity.
  rewrite orb_true_l, orb_true_r. cbn [andb].
  now rewrite stripParens_inside, dropWhile_negp_closing.
Qed.

Lemma squeezeFrom_snoc (p : ascii -> bool) (u c : ascii) (w : str) :
  p c = true ->
  forall b, exists e, (e = [] \/ e = [u])
    /\ squeezeFrom p [u] b (w ++ [c]) = squeezeFrom p [u] b w ++ e.
Proof.
  intros Pc. induction w as [|d t IH]; intros b.
  - cbn [app squeezeFrom]. rewrite Pc. destruct b.
    + exists []. split; [now left|reflexivity].
    + exists [u]. split; [now right|reflexivity].
  - cbn [app squeezeFrom]. destruct (p d).
    + destruct b.
      * exact (IH true).
      * destruct (IH true) as (e & He & Eq). exists e. split; [exact He|].
        now rewrite Eq.
    + destruct (IH false) as (e & He & Eq). exists e. split; [exact He|].
      now rewrite Eq.
Qed.

Lemma dropWhileEnd_snoc (p : ascii -> bool) (z : str) (c : ascii) :
  p c = true -> dropWhileEnd p (z ++ [c]) = dropWhileEnd p z.
Proof.
  intros Pc. unfold dropWhileEnd. rewrite rev_app_distr. cbn [rev app dropWhile].
  now rewrite Pc.
Qed.

Lemma edges_snoc (u : ascii) (s e : str) :
  e = [] \/ e = [u] ->
  dropWhileEnd (isChar u) (dropWhile (isChar u) (s ++ e))
  = dropWhileEnd (isChar u) (dropWhile (isChar u) s).
Proof.
  assert (U : isChar u u = true) by (unfold isChar; apply Ascii.eqb_refl).
  intros [-> | ->]; [now rewrite app_nil_r|].
  rewrite dropWhile_app. destruct (forallb (isChar u) s) eqn:F.
  - cbn [dropWhile]. rewrite U.
    now rewrite (proj2 (dropWhile_nil_iff (isChar u) s) F).
  - now apply dropWhileEnd_snoc.
Qed.

Lemma lowerChar_paren (c : ascii) :
  isChar "(" (lowerChar c) = isChar "(" c
  /\ isChar ")" (lowerChar c) = isChar ")" c.
Proof. ascii_cases c; vm_compute; split; reflexivity. Qed.

Lemma existsb_toLowerCase_paren (s : str) :
  existsb (isChar "(") (toLowerCase s) = existsb (isChar "(") s
  /\ existsb (isChar ")") (toLowerCase s) = existsb (isChar ")") s.
Proof.
  induction s as [|c t [IH1 IH2]]; [split; reflexivity|].
  cbn [toLowerCase map existsb]. fold (toLowerCase t).
  destruct (lowerChar_paren c) as [-> ->]. now rewrite IH1, IH2.
Qed.

Lemma toLowerCase_app (a b : str) :
  toLowerCase (a ++ b) = toLowerCase a ++ toLowerCase b.
Proof. apply map_app. Qed.

(** A separator at the end of a name leaves no trace in the key. *)
Lemma normalizeKey_snoc (x : str) (c : ascii) :
  existsb (isChar "(") x = false ->
  isLowerAlnum (lowerChar c) = false -> isChar "(" c = false ->
  normalizeKey (x ++ [c]) = normalizeKey x.
Proof.
  intros Hx Hc Hp. rewrite !normalizeKey_plain, toLowerCase_app.
  assert (Hx' : existsb (isChar "(") (toLowerCase x) = false)
    by now rewrite (proj1 (existsb_toLowerCase_paren x)).
  rewrite stripParens_no_open by exact Hx'.
  rewrite <- (app_nil_r (toLowerCase x)) at 2.
  rewrite stripParens_no_open by exact Hx'. rewrite app_nil_r.
  cbn [toLowerCase map stripParens].
  rewrite (proj1 (lowerChar_paren c)), Hp. cbn [andb].
  unfold squeeze.
  destruct (@squeezeFrom_snoc (negp isLowerAlnum) "_"%char (lowerChar c)
              (toLowerCase x)) with (b := false) as (e & He & Eq).
  { unfold negp. now rewrite Hc. }
  change (lit "_") with ["_"%char]. rewrite Eq. now apply edges_snoc.
Qed.

(** X16.  A parenthetical leaves no trace in the key: with no opening
    parenthesis before it, the key is that of the name with the
    parenthetical cut out; and a name followed by a space and a
    parenthetical, as in "Haemoglobin (Hb)", has the key of the name
    alone. *)
Theorem X16_parenthetical_ignored (x a y : str) :
  existsb (isChar "(") x = false ->
  existsb (isChar ")") a = false ->
  normalizeKey (x ++ lit "(" ++ a ++ lit ")" ++ y) = normalizeKey (x ++ y)
  /\ normalizeKey (x ++ lit " (" ++ a ++ lit ")") = normalizeKey x.
Proof.
  intros Hx Ha.
  assert (Hx' : existsb (isChar "(") (toLowerCase x) = false)
    by now rewrite (proj1 (existsb_toLowerCase_paren x)).
  assert (Ha' : existsb (isChar ")") (toLowerCase a) = false)
    by now rewrite (proj2 (existsb_toLowerCase_paren a)).
  assert (G : forall x0 y0, existsb (isChar "(") x0 = false ->
              normalizeKey (x0 ++ lit "(" ++ a ++ lit ")" ++ y0)
              = normalizeKey (x0 ++ y0)).
  { intros x0 y0 H0.
    assert (H0' : existsb (isChar "(") (toLowerCase x0) = false)
      by now rewrite (proj1 (existsb_toLowerCase_paren x0)).
    rewrite !normalizeKey_plain, !toLowerCase_app.
    rewrite !(@stripParens_no_open (toLowerCase x0)) by exact H0'.
    change (toLowerCase (lit "(")) with ["("%char].
    change (toLowerCase (lit ")")) with [")"%char].
    cbn [app]. now rewrite stripParens_parenthetical. }
  split; [now apply G|].
  replace (x ++ lit " (" ++ a ++ lit ")")
    with ((x ++ [" "%char]) ++ lit "(" ++ a ++ lit ")" ++ [])
    by (rewrite <- app_assoc, app_nil_r; reflexivity).
  rewrite G.
  - rewrite app_nil_r. now apply normalizeKey_snoc.
  - rewrite existsb_app, Hx. reflexivity.
Qed.

Lemma X16_parenthetical_ignored_witness :
  normalizeKey (lit "Haemoglobin (Hb)") = normalizeKey (lit "Haemoglobin").
Proof.
  exact (proj2 (@X16_parenthetical_ignored (lit "Haemoglobin") (lit "Hb") []
                  eq_refl eq_refl)).
Defined.

(** ** The draft, the tasks and the store *)

Lemma nth_error_update (A : Type) (f : A -> A) (l : list A) :
  forall i j,
    nth_error (update i f l) j
    = if i =? j then option_map f (nth_error l j) else nth_error l j.
Proof.
  induction l as [|x t IH]; intros i j.
  - cbn [update]. destruct i; destruct j; cbn [nth_error option_map];
      now destruct (_ =? _).
  - destruct i as [|i]; destruct j as [|j]; cbn [update nth_error Nat.eqb];
      try reflexivity.
    apply IH.
Qed.

Lemma Forall_update (A : Type) (P : A -> Prop) (f : A -> A) (l : list A) :
  Forall P l -> (forall x, In x l -> P x -> P (f x)) ->
  forall i, Forall P (update i f l).
Proof.
  induction l as [|x t IH]; intros Hl Hf i; [destruct i; constructor|].
  inversion Hl as [|? ? Hx Ht]; subst.
  destruct i as [|i]; cbn [update]; constructor; auto.
  - apply Hf; [now left|exact Hx].
  - apply IH; [exact Ht|]. intros y Hy. apply Hf. now right.
Qed.

Lemma Forall_update_const (A : Type) (P : A -> Prop) (y : A) (l : list A) :
  Forall P l -> P y -> forall i, Forall P (update i (fun _ => y) l).
Proof. intros Hl Hy. apply Forall_update; [exact Hl|]. now intros. Qed.

Lemma Forall_remove_nth (A : Type) (P : A -> Prop) (l : list A) :
  Forall P l -> forall i, Forall P (remove_nth i l).
Proof.
  induction l as [|x t IH]; intros Hl i; [destruct i; constructor|].
  inversion Hl as [|? ? Hx Ht]; subst.
  destruct i as [|i]; cbn [remove_nth]; [exact Ht|]. constructor; auto.
Qed.

Lemma Forall_nth_error_in (A : Type) (P : A -> Prop) (l : list A) (i : nat) (x : A) :
  Forall P l -> nth_error l i = Some x -> P x.
Proof.
  intros Hl Hx. apply nth_error_In in Hx.
  exact (proj1 (Forall_forall P l) Hl x Hx).
Qed.

Lemma setField_fields (f : field) (text : str) (m : measurement) :
  parsedFields (setField f text m) = parsedFields m.
Proof. now destruct f. Qed.

Lemma setField_asParsed (f : field) (text : str) (m : measurement) :
  asParsed m -> asParsed (setField f text m).
Proof.
  intros (m0 & p & Hp & Hf). exists m0, p.
  rewrite setField_fields. split; [|exact Hf].
  replace (rawLine (setField f text m)) with (rawLine m) by now destruct f.
  exact Hp.
Qed.

(** The records of the parser are as parsed. *)
Lemma parsed_asParsed (rawText : str) (r : measurement) :
  In r (parseReportText rawText) -> asParsed r.
Proof.
  intros Hin. apply record_origin in Hin as (line & m & q & _ & _ & Hm & ->).
  exists m, q. split; [|reflexivity]. cbn [withPanel rawLine].
  pose proof (parseMeasurementLine_inv line) as Hinv. rewrite Hm in Hinv.
  destruct Hinv as (_ & _ & _ & -> & _).
  now rewrite parseMeasurementLine_normalized.
Qed.

Lemma keyed_app (h recs : list measurement) (a : addr) :
  keyed h a -> keyed (h ++ recs) a.
Proof.
  intros (m & Hm & Hk). exists m. split; [|exact Hk].
  rewrite nth_error_app1; [exact Hm|].
  apply nth_error_Some. now rewrite Hm.
Qed.

Lemma keyed_update (h : list measurement) (i : nat) (f : field) (text : str)
      (a : addr) :
  keyed h a -> keyed (update i (setField f text) h) a.
Proof.
  intros (m & Hm & Hk). unfold keyed. rewrite nth_error_update, Hm. cbn [option_map].
  destruct (i =? a).
  - exists (setField f text m). split; [reflexivity|]. now destruct f.
  - now exists m.
Qed.

Lemma taskAsParsed_mono (h h' : list measurement) (t : task) :
  (forall a, keyed h a -> keyed h' a) ->
  taskAsParsed h t -> taskAsParsed h' t.
Proof.
  intros Hk. destruct t as [c|c item|merged| |]; cbn [taskAsParsed]; auto.
  - apply Forall_impl, Hk.
  - intros [H1 H2]. split; [|exact H2]. revert H1. apply Forall_impl, Hk.
Qed.

Lemma objects_asParsed (h : list measurement) (l : list addr) :
  Forall asParsed h -> Forall (keyed h) l ->
  Forall (fun m => key m <> [] /\ asParsed m) (objects h l).
Proof.
  intros Hh. induction l as [|a t IH]; intros Hl; [constructor|].
  inversion Hl as [|? ? (m & Hm & Hk) Ht]; subst.
  unfold objects. cbn [flat_map]. rewrite Hm. cbn [app]. constructor.
  - split; [exact Hk|]. exact (Forall_nth_error_in _ Hh Hm).
  - now apply IH.
Qed.

Lemma merged_asParsed (h : list measurement) (cleaned : Report.t addr)
      (item : database) :
  Forall asParsed h -> Forall (keyed h) (Report.measurements cleaned) ->
  Forall storedAsParsed (getAllMeasurements item) ->
  Forall storedAsParsed (addReportMeasurements (reportNow h cleaned) item).
Proof.
  intros Hh Hc Hi. unfold addReportMeasurements.
  apply Forall_app. split; [exact Hi|].
  cbn [reportNow Report.measurements]. apply Forall_map.
  revert Hh Hc. intros Hh Hc.
  exact (objects_asParsed Hh Hc).
Qed.

Section Handlers.

Variable isoOfUTC :
  number -> number -> number -> number -> number -> number -> option str.

Lemma onParsed_asParsed (pages : list (list str)) (fileName now : str)
      (s : state) :
  stateAsParsed s -> stateAsParsed (onParsed isoOfUTC pages fileName now s).
Proof.
  intros (Hh & Hd & Ht). unfold onParsed.
  destruct (match extractCollectedAt _ with Some _ => _ | None => _ end);
    [|now repeat split].
  destruct (parseReportText (fullTextOf pages)) as [|r rs] eqn:E;
    [now repeat split|].
  rewrite <- E. refine (conj _ (conj Hd _)); cbn [heap tasks].
  - apply Forall_app. split; [exact Hh|].
    apply Forall_forall. intros x Hx. exact (parsed_asParsed _ _ Hx).
  - revert Ht. apply Forall_impl. intros t.
    apply taskAsParsed_mono. intros a. apply keyed_app.
Qed.

Lemma onInput_asParsed (idx : nat) (f : field) (text : str) (s : state) :
  stateAsParsed s -> stateAsParsed (onInput idx f text s).
Proof.
  intros (Hh & Hd & Ht). unfold onInput.
  destruct (parsedDraft s) as [d|]; [|now repeat split].
  destruct (nth_error (Draft.measurements d) idx) as [a|]; [|now repeat split].
  refine (conj _ (conj Hd _)); cbn [heap tasks].
  - apply Forall_update; [exact Hh|]. intros x _. apply setField_asParsed.
  - revert Ht. apply Forall_impl. intros t.
    apply taskAsParsed_mono. intros b. apply keyed_update.
Qed.

Lemma onSave_asParsed (uuid : str) (s : state) :
  stateAsParsed s -> stateAsParsed (onSave uuid s).
Proof.
  intros (Hh & Hd & Ht). unfold onSave.
  destruct (parsedDraft s) as [d|]; [|now repeat split].
  refine (conj Hh (conj Hd _)); cbn [heap tasks].
  apply Forall_app. split; [exact Ht|]. constructor; [|constructor].
  cbn [taskAsParsed Report.measurements].
  apply Forall_forall. intros a Ha. apply filter_In in Ha as [_ Ha].
  destruct (nth_error (heap s) a) as [m|] eqn:Hm; [|discriminate].
  exists m. split; [exact Hm|]. unfold keptOnSave in Ha.
  apply andb_true_iff in Ha as [Ha _]. now destruct (key m).
Qed.

Lemma resume_asParsed (i : nat) (s : state) :
  stateAsParsed s -> stateAsParsed (step isoOfUTC s (Resume i)).
Proof.
  intros (Hh & Hd & Ht). cbn [step].
  destruct (nth_error (tasks s) i) as [t|] eqn:Hi; [|now repeat split].
  pose proof (Forall_nth_error_in _ Ht Hi) as Hti.
  destruct t as [c|c item|merged| |]; cbn [resume taskAsParsed] in *;
    cbn [heap db tasks parsedDraft].
  - refine (conj Hh (conj Hd _)).
    apply Forall_update_const; [exact Ht|]. now split.
  - destruct Hti as [Hc Hitem]. refine (conj Hh (conj Hd _)).
    apply Forall_update_const; [exact Ht|]. now apply merged_asParsed.
  - refine (conj Hh (conj Hti _)).
    apply Forall_update_const; [exact Ht|]. exact I.
  - refine (conj Hh (conj Hd _)). now apply Forall_remove_nth.
  - refine (conj Hh (conj _ _)); [constructor|]. now apply Forall_remove_nth.
Qed.

Lemma step_asParsed (s : state) (e : event) :
  stateAsParsed s -> stateAsParsed (step isoOfUTC s e).
Proof.
  intros H. destruct e as [|pages fileName now|idx f text|uuid| |i].
  - destruct H as (Hh & Hd & Ht). now repeat split.
  - now apply onParsed_asParsed.
  - now apply onInput_asParsed.
  - now apply onSave_asParsed.
  - destruct H as (Hh & Hd & Ht). refine (conj Hh (conj Hd _)).
    cbn [step onClear tasks heap]. apply Forall_app. split; [exact Ht|].
    constructor; [exact I|constructor].
  - now apply resume_asParsed.
Qed.

Lemma run_asParsed (events : list event) :
  forall s, stateAsParsed s -> stateAsParsed (run isoOfUTC s events).
Proof.
  induction events as [|e es IH]; intros s H; [exact H|].
  cbn [run fold_left]. apply IH. now apply step_asParsed.
Qed.

End Handlers.

(** X17.  Whatever the user does and however the waits for the store
    fall between the handlers: if the points in the store when the page
    loads have a key and have key, bounds, flag, raw line and panel as
    parsed from their raw line, then so has every point in the store at
    any later moment; its key is made of [a-z0-9_] and its flag is the one
    of the parsed value.  (Inputs of the review table change name, value,
    unit and reference text only.) *)
Theorem X17_store_as_parsed
        (isoOfUTC : number -> number -> number -> number -> number -> number
                    -> option str)
        (item : database) (events : list event) (st : Stored.t) :
  Forall storedAsParsed (getAllMeasurements item) ->
  In st (getAllMeasurements (db (run isoOfUTC (loaded item) events))) ->
  storedAsParsed st /\ keyShape (key (Stored.m st)) = true.
Proof.
  intros Hitem Hin.
  assert (H0 : stateAsParsed (loaded item))
    by (refine (conj _ (conj Hitem _)); constructor).
  destruct (run_asParsed isoOfUTC events H0) as (_ & Hd & _).
  pose proof (proj1 (Forall_forall _ _) Hd st Hin) as Hs.
  split; [exact Hs|]. destruct Hs as (_ & m0 & p & Hp & Hf).
  injection Hf as -> _ _ _ _ _. cbn [withPanel key].
  pose proof (parseMeasurementLine_inv (rawLine (Stored.m st))) as Hinv.
  rewrite Hp in Hinv. destruct Hinv as (_ & _ & _ & _ & _ & _ & -> & _).
  apply normalizeKey_shape.
Qed.

Lemma X17_store_as_parsed_witness :
  storedAsParsed
    (Stored.Build (setField FValue (lit "12.5")
                            (withPanel haemoglobinRecord (lit "General")))
                  (lit "2026-01-16T08:10:00.000Z") (lit "id")
                  (lit "report.pdf"))
  /\ keyShape (lit "haemoglobin") = true.
Proof.
  apply (@X17_store_as_parsed
           (fun _ _ _ _ _ _ => None) None
           [Parsed [[haemoglobinLine]] (lit "report.pdf")
                   (lit "2026-01-16T08:10:00.000Z");
            Input 0 FValue (lit "12.5");
            SaveClick (lit "id"); Resume 0; Resume 0;
            Input 0 FName (lit "Hb");
            Resume 0]).
  - constructor.
  - vm_compute. left. reflexivity.
Defined.

(** ** A report parsed and saved, nothing in between *)

Lemma objects_filter_seq (h : list measurement) (q : measurement -> bool) :
  forall (recs : list measurement) (n : nat),
    (forall i, i < length recs -> nth_error h (n + i) = nth_error recs i) ->
    objects h
      (filter (fun a => match nth_error h a with
                        | Some m => q m
                        | None => false
                        end)
              (seq n (length recs)))
    = filter q recs.
Proof.
  induction recs as [|r rs IH]; intros n Hn; [reflexivity|].
  cbn [length seq filter].
  pose proof (Hn 0 ltac:(cbn [length]; lia)) as H0.
  rewrite Nat.add_0_r in H0. cbn [nth_error] in H0. rewrite H0.
  assert (IH' : objects h
                  (filter (fun a => match nth_error h a with
                                    | Some m => q m
                                    | None => false
                                    end)
                          (seq (S n) (length rs)))
                = filter q rs).
  { apply IH. intros i Hi. specialize (Hn (S i) ltac:(cbn [length]; lia)).
    now rewrite Nat.add_succ_r in Hn. }
  destruct (q r); [|exact IH'].
  unfold objects in *. cbn [flat_map]. now rewrite H0, IH'.
Qed.

Lemma parsed_value (rawText : str) (r : measurement) :
  In r (parseReportText rawText) -> isNaN (value r) = false.
Proof.
  intros Hin. apply record_origin in Hin as (line & m & q & _ & _ & Hm & ->).
  pose proof (parseMeasurementLine_inv line) as Hinv. rewrite Hm in Hinv.
  destruct Hinv as (_ & _ & Hv & _ & _ & Hval & _).
  cbn [withPanel value]. now rewrite Hval.
Qed.

(** X18.  A report parsed and saved with nothing in between - no edit, no
    other click, no other task on its way: the store then holds what it
    held, followed by the records of [parseReportText] that have a key,
    in their order, each with the collection time, the identifier and the
    file name of the report; the records with an empty key are dropped,
    and no record is dropped for its value. *)
Theorem X18_parsed_and_saved
        (isoOfUTC : number -> number -> number -> number -> number -> number
                    -> option str)
        (pages : list (list str)) (fileName now uuid c : str) (s : state) :
  tasks s = [] ->
  match extractCollectedAt (fullTextOf pages) with
  | Some dt => toISO isoOfUTC (datePart dt) (timePart dt)
  | None => Some now
  end = Some c ->
  parseReportText (fullTextOf pages) <> [] ->
  run isoOfUTC s [Parsed pages fileName now; SaveClick uuid;
                  Resume 0; Resume 0; Resume 0; Resume 0]
  = State (heap s ++ parseReportText (fullTextOf pages)) None
          (Some (getAllMeasurements (db s)
                 ++ map (fun m => Stored.Build m c uuid fileName)
                        (filter (fun m => negb (isEmpty (key m)))
                                (parseReportText (fullTextOf pages)))))
          [].
Proof.
  intros Ht Hc Hne. destruct s as [h d item ts]. cbn [tasks] in Ht. subst ts.
  set (recs := parseReportText (fullTextOf pages)) in *.
  assert (P : onParsed isoOfUTC pages fileName now (State h d item [])
              = State (h ++ recs)
                      (Some (Draft.Build c fileName
                               (seq (length h) (length recs))))
                      item []).
  { unfold onParsed. rewrite Hc. fold recs. cbn [heap db tasks].
    destruct recs; [contradiction|reflexivity]. }
  cbn [run fold_left]. cbn [step]. rewrite P. unfold onSave.
  cbn [parsedDraft heap db tasks app nth_error resume update remove_nth
       Draft.measurements Draft.collectedAtISO Draft.sourceName
       saveMeasurements].
  cbn [heap db]. unfold saveMeasurements, addReportMeasurements, reportNow.
  cbn [Report.measurements Report.reportId Report.collectedAtISO
       Report.sourceName].
  rewrite objects_filter_seq.
  - do 4 f_equal. apply filter_ext_in. intros m Hm. unfold keptOnSave.
    now rewrite (parsed_value _ _ Hm), andb_true_r.
  - intros i Hi. rewrite nth_error_app2 by lia. f_equal. lia.
Qed.

Lemma X18_parsed_and_saved_witness :
  run (fun _ _ _ _ _ _ => None) (loaded None)
      [Parsed [[haemoglobinLine; lit "- 5"]] (lit "report.pdf")
              (lit "2026-01-16T08:10:00.000Z");
       SaveClick (lit "id"); Resume 0; Resume 0; Resume 0; Resume 0]
  = State [withPanel haemoglobinRecord (lit "General");
           Measurement [] (lit "-") (ofZ 5) None None None None None
                       (lit "- 5") (Some (lit "General"))]
          None
          (Some [Stored.Build (withPanel haemoglobinRecord (lit "General"))
                              (lit "2026-01-16T08:10:00.000Z") (lit "id")
                              (lit "report.pdf")])
          [].
Proof.
  exact (@X18_parsed_and_saved
           (fun _ _ _ _ _ _ => None)
           [[haemoglobinLine; lit "- 5"]] (lit "report.pdf")
           (lit "2026-01-16T08:10:00.000Z") (lit "id")
           (lit "2026-01-16T08:10:00.000Z") (loaded None)
           eq_refl eq_refl
           ltac:(vm_compute; discriminate)).
Defined.

(** ** The exported file read back *)

Lemma readCSV_quoted (w : str) :
  forall (field : str) (record : list str) (rest : str),
    headIs (isChar dquote) rest = false ->
    readCSV Quoted field record
            (replaceAllChar dquote [dquote; dquote] w ++ dquote :: rest)
    = readCSV QuoteSeen (rev w ++ field) record rest.
Proof.
  assert (Q : isChar dquote dquote = true) by reflexivity.
  induction w as [|c t IH]; intros field record rest Hr.
  - cbn [replaceAllChar flat_map app readCSV rev]. now rewrite Q.
  - unfold replaceAllChar in *. cbn [flat_map]. destruct (isChar dquote c) eqn:E.
    + apply Ascii.eqb_eq in E. subst c.
      assert (C : isChar "," dquote = false) by reflexivity.
      assert (L : isChar "010" dquote = false) by reflexivity.
      cbn [app readCSV]. rewrite ?Q, ?C, ?L. rewrite ?Q.
      rewrite IH by exact Hr. cbn [rev]. now rewrite <- app_assoc.
    + cbn [app readCSV]. rewrite E. rewrite IH by exact Hr.
      cbn [rev]. now rewrite <- app_assoc.
Qed.

Lemma readCSV_after (mode : csvMode) (field : str) (record : list str)
      (rest : str) :
  mode <> Quoted -> atSeparator rest = true ->
  readCSV mode field record rest = afterField (rev field) record rest.
Proof.
  intros Hm Hr. destruct rest as [|c more]; [now destruct mode|].
  cbn [atSeparator] in Hr. cbn [readCSV afterField].
  destruct (isChar "," c) eqn:C; [now destruct mode|].
  cbn [orb] in Hr. rewrite Hr. now destruct mode.
Qed.

Lemma atSeparator_no_quote (rest : str) :
  atSeparator rest = true -> headIs (isChar dquote) rest = false.
Proof.
  destruct rest as [|c more]; [reflexivity|]. cbn [atSeparator headIs].
  ascii_cases c; vm_compute; congruence.
Qed.

Lemma readCSV_plain (w : str) :
  forall (mode : csvMode) (field : str) (record : list str) (rest : str),
    forallb plainChar w = true -> mode = FieldStart \/ mode = Plain ->
    atSeparator rest = true ->
    readCSV mode field record (w ++ rest)
    = afterField (rev (rev w ++ field)) record rest.
Proof.
  induction w as [|c t IH]; intros mode field record rest Hw Hm Hr.
  - cbn [app rev]. apply readCSV_after; [|exact Hr].
    destruct Hm as [-> | ->]; discriminate.
  - cbn [forallb] in Hw. apply andb_true_iff in Hw as [Hc Ht].
    unfold plainChar in Hc. apply negb_true_iff in Hc.
    apply orb_false_iff in Hc as [Hc Hq]. apply orb_false_iff in Hc as [Hc Hl].
    cbn [app readCSV]. rewrite Hc, Hl, Hq.
    replace (match mode with Quoted => _ | _ => _ end)
      with (readCSV Plain (c :: field) record (t ++ rest))
      by (destruct Hm as [-> | ->]; reflexivity).
    rewrite IH by auto. cbn [rev]. now rewrite <- app_assoc.
Qed.

Section Fields.

Variables (A : Type) (enc dec : A -> str) (good : A -> Prop).

Hypothesis enc_read :
  forall (x : A) (record : list str) (rest : str),
    good x -> atSeparator rest = true ->
    readCSV FieldStart [] record (enc x ++ rest)
    = afterField (dec x) record rest.

(** A record of the file: fields joined by commas, the end of the text
    or a line break next. *)
Lemma readCSV_record (xs : list A) :
  forall (x : A) (record : list str) (rest : str),
    good x -> Forall good xs ->
    rest = [] \/ (exists more, rest = "010"%char :: more) ->
    readCSV FieldStart [] record (join (lit ",") (map enc (x :: xs)) ++ rest)
    = match rest with
      | [] => [rev record ++ map dec (x :: xs)]
      | _ :: more =>
          (rev record ++ map dec (x :: xs)) :: readCSV FieldStart [] [] more
      end.
Proof.
  induction xs as [|y ys IH]; intros x record rest Hx Hxs Hr.
  - cbn [map join]. rewrite enc_read; [|exact Hx|].
    + destruct Hr as [-> | (more & ->)]; cbn [afterField rev]; [reflexivity|].
      replace (isChar "," "010") with false by reflexivity. reflexivity.
    + now destruct Hr as [-> | (more & ->)].
  - inversion Hxs as [|? ? Hy Hys]; subst.
    change (join (lit ",") (map enc (x :: y :: ys)))
      with (enc x ++ lit "," ++ join (lit ",") (map enc (y :: ys))).
    rewrite <- !app_assoc. rewrite enc_read; [|exact Hx|reflexivity].
    cbn [lit list_ascii_of_string app afterField].
    replace (isChar "," ",") with true by reflexivity.
    rewrite IH by assumption.
    cbn [rev map]. rewrite <- !app_assoc. cbn [app].
    now destruct rest.
Qed.

End Fields.

Lemma cols_plain : Forall (fun c => forallb plainChar c = true) cols.
Proof. repeat constructor. Qed.

Section CsvRoundTrip.

Variable numberToString : number -> str.

Lemma escape_read (v : jsval) (record : list str) (rest : str) :
  True -> atSeparator rest = true ->
  readCSV FieldStart [] record (escape numberToString v ++ rest)
  = afterField (text numberToString v) record rest.
Proof.
  intros _ Hr. unfold escape. rewrite <- !app_assoc.
  cbn [app readCSV].
  replace (isChar "," dquote) with false by reflexivity.
  replace (isChar "010" dquote) with false by reflexivity.
  replace (isChar dquote dquote) with true by reflexivity.
  rewrite readCSV_quoted by now apply atSeparator_no_quote.
  rewrite app_nil_r. rewrite readCSV_after by (discriminate || exact Hr).
  now rewrite rev_involutive.
Qed.

Lemma plain_read (w : str) (record : list str) (rest : str) :
  forallb plainChar w = true -> atSeparator rest = true ->
  readCSV FieldStart [] record (w ++ rest) = afterField w record rest.
Proof.
  intros Hw Hr. rewrite readCSV_plain by auto.
  now rewrite app_nil_r, rev_involutive.
Qed.

Lemma row_read (r : Stored.t) (rest : str) :
  rest = [] \/ (exists more, rest = "010"%char :: more) ->
  readCSV FieldStart [] []
    (join (lit ",") (map (fun c => escape numberToString (prop r c)) cols)
     ++ rest)
  = match rest with
    | [] => [map (fun c => text numberToString (prop r c)) cols]
    | _ :: more =>
        map (fun c => text numberToString (prop r c)) cols
        :: readCSV FieldStart [] [] more
    end.
Proof.
  intros Hr. set (vs := map (prop r) (tl cols)).
  change (map (fun c => escape numberToString (prop r c)) cols)
    with (map (escape numberToString) (prop r (lit "collectedAtISO") :: vs)).
  rewrite (@readCSV_record _ (escape numberToString) (text numberToString)
             (fun _ => True) escape_read); [|exact I| |exact Hr].
  { destruct rest; reflexivity. }
  apply Forall_forall. auto.
Qed.

(** The records of the rows, one after the other. *)
Lemma readCSV_rows (rows : list Stored.t) :
  forall (r : Stored.t),
    readCSV FieldStart [] []
      (join ["010"%char]
         (map (fun r => join (lit ",")
                          (map (fun c => escape numberToString (prop r c)) cols))
              (r :: rows)))
    = map (fun r => map (fun c => text numberToString (prop r c)) cols)
          (r :: rows).
Proof.
  induction rows as [|r' rows IH]; intros r.
  - cbn [map join]. rewrite <- (app_nil_r (join _ _)).
    rewrite row_read by now left. reflexivity.
  - change (map ?f (r :: r' :: rows)) with (f r :: map f (r' :: rows)).
    change (join ["010"%char] (?a :: map ?f (r' :: rows)))
      with (a ++ ["010"%char] ++ join ["010"%char] (map f (r' :: rows))).
    cbn beta. rewrite row_read by (right; now eexists).
    cbn [app]. now rewrite IH.
Qed.

End CsvRoundTrip.

(** X19.  The exported file reads back: a reader of comma-separated
    values finds in [toCSV(rows)] the header with the thirteen column
    names and then, for every row in order, the thirteen texts
    [String(r[c] ?? "")] exactly - whatever commas, double quotes and
    line breaks names, units, reference texts and file names contain. *)
Theorem X19_csv_reads_back (numberToString : number -> str)
        (rows : list Stored.t) :
  parseCSV (toCSV numberToString rows)
  = cols :: map (fun r => map (fun c => text numberToString (prop r c)) cols)
                rows.
Proof.
  unfold parseCSV, toCSV. cbn [app].
  assert (H : forall rest,
             rest = [] \/ (exists more, rest = "010"%char :: more) ->
             readCSV FieldStart [] [] (join (lit ",") cols ++ rest)
             = match rest with
               | [] => [cols]
               | _ :: more => cols :: readCSV FieldStart [] [] more
               end).
  { intros rest Hr. rewrite <- (map_id cols) at 1. unfold cols at 1.
    rewrite (@readCSV_record _ (fun w => w) (fun w => w)
               (fun w => forallb plainChar w = true) plain_read).
    - cbn [rev app]. rewrite map_id. reflexivity.
    - reflexivity.
    - repeat constructor.
    - exact Hr. }
  destruct rows as [|r rows].
  - cbn [map join]. rewrite <- (app_nil_r (join _ _)).
    now rewrite H by now left.
  - change (join ["010"%char] (?a :: map ?f (r :: rows)))
      with (a ++ ["010"%char] ++ join ["010"%char] (map f (r :: rows))).
    rewrite H by (right; now eexists). cbn [app].
    now rewrite readCSV_rows.
Qed.

(** ** The date and the time, from the text to [Date.UTC] *)

(** *** Words of the patterns *)

Lemma matches_seq_inv (r1 r2 : regex) (w : str) :
  matches (Seq r1 r2) w ->
  exists w1 w2, w = w1 ++ w2 /\ matches r1 w1 /\ matches r2 w2.
Proof. intros H. inversion H; subst. eauto. Qed.

Lemma matches_alt_inv (r1 r2 : regex) (w : str) :
  matches (Alt r1 r2) w -> matches r1 w \/ matches r2 w.
Proof. intros H. inversion H; subst; auto. Qed.

Lemma matches_empty_inv (w : str) : matches Empty w -> w = [].
Proof. intros H. now inversion H. Qed.

Lemma matches_class_inv (p : ascii -> bool) (w : str) :
  matches (Class p) w -> exists c, w = [c] /\ p c = true.
Proof. intros H. inversion H; subst. eauto. Qed.

Lemma matches_chr_inv (c : ascii) (w : str) : matches (Chr c) w -> w = [c].
Proof.
  intros H. apply matches_class_inv in H as (d & -> & Hd).
  apply isChar_eq in Hd. now subst.
Qed.

Lemma matches_lit_inv (l : str) : forall w, matches (Lit l) w -> w = l.
Proof.
  induction l as [|c [|d t] IH]; intros w H.
  - now apply matches_empty_inv.
  - now apply matches_chr_inv.
  - change (Lit (c :: d :: t)) with (Seq (Chr c) (Lit (d :: t))) in H.
    apply matches_seq_inv in H as (w1 & w2 & -> & H1 & H2).
    apply matches_chr_inv in H1. apply IH in H2. now subst.
Qed.

Lemma matches_upto_class (p : ascii -> bool) (n : nat) :
  forall w, matches (UpTo n (Class p)) w ->
            forallb p w = true /\ length w <= n.
Proof.
  induction n as [|n IH]; intros w H; cbn [UpTo] in H.
  - apply matches_empty_inv in H. subst. split; [reflexivity|cbn; lia].
  - apply matches_alt_inv in H as [H|H].
    + apply matches_seq_inv in H as (w1 & w2 & -> & H1 & H2).
      apply matches_class_inv in H1 as (c & -> & Hc).
      apply IH in H2 as [H2 L2]. cbn [app forallb length].
      rewrite Hc, H2. split; [reflexivity|lia].
    + apply matches_empty_inv in H. subst. split; [reflexivity|cbn; lia].
Qed.

Lemma matches_rep_class (p : ascii -> bool) (extra lo : nat) :
  forall w, matches (Rep lo extra (Class p)) w ->
            forallb p w = true /\ lo <= length w <= lo + extra.
Proof.
  induction lo as [|lo IH]; intros w H; cbn [Rep] in H.
  - apply matches_upto_class in H as [H L]. split; [exact H|lia].
  - apply matches_seq_inv in H as (w1 & w2 & -> & H1 & H2).
    apply matches_class_inv in H1 as (c & -> & Hc).
    apply IH in H2 as [H2 L2]. cbn [app forallb length].
    rewrite Hc, H2. split; [reflexivity|lia].
Qed.

Lemma matches_digits (lo extra : nat) (w : str) :
  matches (digits lo extra) w -> digitString lo (lo + extra) w = true.
Proof.
  intros H. apply matches_rep_class in H as [H [L1 L2]]. unfold digitString.
  rewrite H. cbn [andb]. apply andb_true_iff.
  split; apply Nat.leb_le; assumption.
Qed.

Lemma date_shape (d : str) :
  matches re_date d ->
  exists dd mm yy,
    d = dd ++ lit "/" ++ mm ++ lit "/" ++ yy
    /\ digitString 1 2 dd = true /\ digitString 1 2 mm = true
    /\ digitString 2 4 yy = true.
Proof.
  unfold re_date. intros H.
  apply matches_seq_inv in H as (dd & w1 & -> & Hdd & H).
  apply matches_seq_inv in H as (s1 & w2 & -> & Hs1 & H).
  apply matches_seq_inv in H as (mm & w3 & -> & Hmm & H).
  apply matches_seq_inv in H as (s2 & yy & -> & Hs2 & Hyy).
  apply matches_chr_inv in Hs1, Hs2. subst.
  apply matches_digits in Hdd, Hmm, Hyy.
  exists dd, mm, yy. auto.
Qed.

Local Open Scope regex_scope.

Lemma groupBodies_collectedOn :
  groupBodies re_collectedOn
  = [(1, re_date);
     (2, digits 1 1 >> Chr ":" >> digits 2 0 >> spaces
         >> Opt (Lit (lit "AM") <|> Lit (lit "PM")
                 <|> Lit (lit "am") <|> Lit (lit "pm")))].
Proof. reflexivity. Qed.

Lemma time_shape (t : str) :
  matches (digits 1 1 >> Chr ":" >> digits 2 0 >> spaces
           >> Opt (Lit (lit "AM") <|> Lit (lit "PM")
                   <|> Lit (lit "am") <|> Lit (lit "pm"))) t ->
  exists hs mi ws ap,
    t = hs ++ lit ":" ++ mi ++ ws ++ ap
    /\ digitString 1 2 hs = true /\ digitString 2 2 mi = true
    /\ forallb isSpace ws = true /\ (ap = [] \/ In ap meridiems).
Proof.
  intros H.
  apply matches_seq_inv in H as (hs & w1 & -> & Hhs & H).
  apply matches_seq_inv in H as (s1 & w2 & -> & Hs1 & H).
  apply matches_seq_inv in H as (mi & w3 & -> & Hmi & H).
  apply matches_seq_inv in H as (ws & ap & -> & Hws & Hap).
  apply matches_chr_inv in Hs1. subst.
  apply matches_digits in Hhs, Hmi. apply matches_star_class in Hws.
  exists hs, mi, ws, ap. repeat split; auto.
  unfold Opt in Hap. apply matches_alt_inv in Hap as [Hap|Hap].
  - right. unfold meridiems.
    apply matches_alt_inv in Hap as [Hap|Hap];
      [apply matches_lit_inv in Hap; subst; now left|].
    apply matches_alt_inv in Hap as [Hap|Hap];
      [apply matches_lit_inv in Hap; subst; right; now left|].
    apply matches_alt_inv in Hap as [Hap|Hap];
      apply matches_lit_inv in Hap; subst; auto using in_eq, in_cons.
  - left. now apply matches_empty_inv.
Qed.

Local Close Scope regex_scope.

Lemma groupBodies_collectionDate :
  groupBodies re_collectionDate = [(1, re_date)].
Proof. reflexivity. Qed.

(** What [extractCollectedAt] returns: a date as written, and a time as
    written or ["00:00"]. *)
Lemma extractCollectedAt_shape (rawText : str) (dt : collectedAt) :
  extractCollectedAt rawText = Some dt ->
  exists d hs mi ws ap,
    datePart dt = Some d /\ matches re_date d
    /\ timePart dt = hs ++ lit ":" ++ mi ++ ws ++ ap
    /\ digitString 1 2 hs = true /\ digitString 2 2 mi = true
    /\ forallb isSpace ws = true /\ (ap = [] \/ In ap meridiems).
Proof.
  unfold extractCollectedAt, patterns. cbn [firstPattern].
  destruct (exec re_collectedOn rawText) as [m|] eqn:E1.
  - destruct (collectedOn_groups _ E1) as ((d & Hd) & (t & Ht & Hn)).
    destruct (@exec_group_matches _ _ _ _ _ E1 Hd) as (b & Hb & Mb).
    rewrite groupBodies_collectedOn in Hb.
    destruct Hb as [[= <-]|[[=]|[]]].
    destruct (@exec_group_matches _ _ _ _ _ E1 Ht) as (b2 & Hb2 & Mb2).
    rewrite groupBodies_collectedOn in Hb2.
    destruct Hb2 as [[=]|[[= <-]|[]]].
    apply time_shape in Mb2 as (hs & mi & ws & ap & E & H).
    rewrite Hd, Ht. destruct t as [|c t']; [congruence|].
    intros [= <-]. cbn [datePart timePart].
    exists d, hs, mi, ws, ap. repeat split; tauto.
  - destruct (exec re_collectionDate rawText) as [m|] eqn:E2; [|discriminate].
    destruct (collectionDate_groups _ E2) as ((d & Hd & Hn) & H2).
    rewrite Hd, H2. intros [= <-]. cbn [datePart timePart].
    destruct (@exec_group_matches _ _ _ _ _ E2 Hd) as (b & Hb & Mb).
    rewrite groupBodies_collectionDate in Hb.
    destruct Hb as [[= <-]|[]].
    exists d, (lit "00"), (lit "00"), [], []. repeat split; auto.
Qed.

(** *** Digits as numbers *)

Lemma digit_facts (c : ascii) :
  isDigit c = true ->
  isSpace c = false /\ isChar "/" c = false /\ isChar ":" c = false
  /\ isChar "I" c = false
  /\ ((0 <=? digitVal c)%Z && (digitVal c <=? 9)%Z = true).
Proof. ascii_cases c; vm_compute; intuition congruence. Qed.

Lemma trim_no_space (w : str) :
  forallb (negp isSpace) w = true -> trim w = w.
Proof.
  intros H. apply trim_id_ends.
  - destruct w as [|c t]; [reflexivity|]. cbn [forallb headIs] in *.
    apply andb_true_iff in H as [H _]. unfold negp in H.
    now apply negb_true_iff in H.
  - rewrite <- forallb_rev in H. destruct (rev w) as [|c t]; [reflexivity|].
    cbn [forallb headIs] in *.
    apply andb_true_iff in H as [H _]. unfold negp in H.
    now apply negb_true_iff in H.
Qed.

Lemma forallb_impl (p q : ascii -> bool) (w : str) :
  (forall c, p c = true -> q c = true) ->
  forallb p w = true -> forallb q w = true.
Proof.
  intros H. induction w as [|c t IH]; [reflexivity|]. cbn [forallb].
  intros E. apply andb_true_iff in E as [Ec Et].
  now rewrite (H _ Ec), IH.
Qed.

Lemma trim_digits (w : str) : forallb isDigit w = true -> trim w = w.
Proof.
  intros H. apply trim_no_space. revert H. apply forallb_impl.
  intros c Hc. unfold negp. now rewrite (proj1 (digit_facts c Hc)).
Qed.

Lemma digits_no_sep (p : ascii -> bool) (w : str) :
  (forall c, isDigit c = true -> p c = false) ->
  forallb isDigit w = true -> existsb p w = false.
Proof.
  intros H. induction w as [|c t IH]; [reflexivity|]. cbn [forallb existsb].
  intros E. apply andb_true_iff in E as [Ec Et]. now rewrite (H _ Ec), IH.
Qed.

Lemma digitsVal_snoc (w : str) (c : ascii) :
  digitsVal 10 (w ++ [c]) = (digitsVal 10 w * 10 + digitVal c)%Z.
Proof. unfold digitsVal. now rewrite fold_left_app. Qed.

Lemma digitsVal_bound (w : str) :
  forallb isDigit w = true ->
  (0 <= digitsVal 10 w < 10 ^ Z.of_nat (length w))%Z.
Proof.
  induction w as [|c t IH] using rev_ind; intros H.
  - cbn. lia.
  - rewrite forallb_app in H. apply andb_true_iff in H as [Ht Hc].
    cbn [forallb] in Hc. rewrite andb_true_r in Hc.
    destruct (digit_facts c Hc) as (_ & _ & _ & _ & Hv).
    apply andb_true_iff in Hv as [V1 V2].
    apply Z.leb_le in V1, V2. specialize (IH Ht).
    rewrite digitsVal_snoc, length_app. cbn [length].
    rewrite Nat2Z.inj_add, Z.pow_add_r by lia.
    change (10 ^ Z.of_nat 1)%Z with 10%Z. lia.
Qed.

Lemma ofDecimal_integer (m : Z) : (0 <= m)%Z -> ofDecimal false m 0 = ofZ m.
Proof.
  intros Hm. destruct m as [|p|p]; [reflexivity| |lia].
  unfold ofDecimal, ofZ, binary_normalize. cbn [Z.leb Z.compare].
  change (Z.to_pos (10 ^ 0)) with 1%positive. now rewrite Pos.mul_1_r.
Qed.

(** A text of digits is the number it writes. *)
Lemma Number_digits (w : str) :
  forallb isDigit w = true -> w <> [] -> Number w = ofZ (digitsVal 10 w).
Proof.
  intros Hw Hn. unfold Number. rewrite trim_digits by exact Hw.
  destruct w as [|d t]; [congruence|]. cbn [isEmpty].
  cbn [forallb] in Hw. apply andb_true_iff in Hw as [Hd Ht].
  rewrite parseRadix_none.
  2:{ destruct t as [|c t']; [exact I|]. cbn [forallb] in Ht.
      apply andb_true_iff in Ht as [-> _]. reflexivity. }
  rewrite parseDecimal_digit by exact Hd. unfold parseUnsignedDecimal.
  destruct (list_eq_dec _ _ _) as [E|_].
  { exfalso. injection E as -> _. vm_compute in Hd. discriminate. }
  rewrite (span_all isDigit (d :: t)) by (cbn [forallb]; now rewrite Hd, Ht).
  cbn [isEmpty parseExponent option_map].
  apply ofDecimal_integer. apply digitsVal_nonneg. lia.
Qed.

(** Small integers: the month before, twelve hours more, noon. *)
Lemma small_numbers (z : Z) :
  (0 <= z < 100)%Z ->
  sub (ofZ z) (ofZ 1) = ofZ (z - 1)
  /\ add (ofZ z) (ofZ 12) = ofZ (z + 12)
  /\ eqn (ofZ z) (ofZ 12) = (z =? 12)%Z.
Proof.
  intros Hz. rewrite <- (Z2Nat.id z) by lia.
  assert (Hn : Z.to_nat z < 100) by lia. revert Hn.
  generalize (Z.to_nat z). clear z Hz. intros n.
  do 100 (destruct n as [|n];
          [intros _; vm_compute; repeat split; reflexivity|]).
  lia.
Qed.

Lemma digitString_inv (lo hi : nat) (w : str) :
  digitString lo hi w = true ->
  forallb isDigit w = true /\ lo <= length w <= hi.
Proof.
  unfold digitString. intros H. apply andb_true_iff in H as [H L2].
  apply andb_true_iff in H as [H L1].
  apply Nat.leb_le in L1, L2. auto.
Qed.

Lemma digitString_value (lo hi : nat) (w : str) :
  digitString lo hi w = true -> 1 <= lo -> hi <= 2 ->
  Number w = ofZ (digitsVal 10 w) /\ (0 <= digitsVal 10 w < 100)%Z.
Proof.
  intros H Hlo Hhi. apply digitString_inv in H as [H [L1 L2]].
  split.
  - apply Number_digits; [exact H|]. destruct w; [cbn in L1; lia|congruence].
  - pose proof (digitsVal_bound w H) as B.
    assert (10 ^ Z.of_nat (length w) <= 10 ^ 2)%Z
      by (apply Z.pow_le_mono_r; lia).
    lia.
Qed.

(** *** The pieces of the date *)

Lemma split_on_plain (sep : ascii) (w : str) :
  existsb (isChar sep) w = false -> split_on sep w = [w].
Proof.
  induction w as [|c t IH]; [reflexivity|]. cbn [existsb split_on].
  intros E. apply orb_false_iff in E as [-> Et]. now rewrite IH.
Qed.

Lemma split_date (dd mm yy : str) :
  forallb isDigit dd = true -> forallb isDigit mm = true ->
  forallb isDigit yy = true ->
  map trim (split_on "/" (dd ++ lit "/" ++ mm ++ lit "/" ++ yy))
  = [dd; mm; yy].
Proof.
  intros Hd Hm Hy.
  assert (S : forall c, isDigit c = true -> isChar "/" c = false)
    by (intros c Hc; now destruct (digit_facts c Hc) as (_ & -> & _)).
  cbn [lit list_ascii_of_string app].
  rewrite !split_on_app.
  rewrite !split_on_plain by now apply digits_no_sep.
  cbn [app map]. now rewrite !trim_digits.
Qed.

Lemma year_number (yy : str) :
  digitString 2 4 yy = true ->
  Number (if length yy =? 2 then lit "20" ++ yy else yy) = ofZ (yearOf yy).
Proof.
  intros H. apply digitString_inv in H as [H [L1 L2]]. unfold yearOf.
  destruct (length yy =? 2) eqn:E.
  - apply Nat.eqb_eq in E. destruct yy as [|a [|b [|]]]; try discriminate.
    rewrite Number_digits; [|now cbn [forallb app lit list_ascii_of_string] in * |discriminate].
    f_equal. unfold digitsVal. cbn [lit list_ascii_of_string app fold_left].
    change (digitVal "2") with 2%Z. change (digitVal "0") with 0%Z. lia.
  - apply Number_digits; [exact H|]. destruct yy; [cbn in L1; lia|congruence].
Qed.

(** *** The time pattern on a time as written *)

Local Open Scope regex_scope.

Ltac crunch :=
  repeat (progress
            (unfold capture, advance;
             cbn [app ms flat_map map pos rest caps Nat.eqb
                  length Nat.add Nat.sub firstn isEmpty];
             repeat match goal with
                    | H : ?b = _ |- context [?b] => rewrite H
                    end)).

Lemma ms_time_prefix (R : regex) (hs : str) (m1 m2 : ascii) (tail : str) :
  digitString 1 2 hs = true -> isDigit m1 = true -> isDigit m2 = true ->
  ms (Bol >> Group 1 (digits 1 1) >> Chr ":" >> Group 2 (digits 2 0) >> R)
     (MState 0 (hs ++ ":"%char :: m1 :: m2 :: tail) [])
  = ms R (MState (length hs + 3) tail [(2, [m1; m2]); (1, hs)]).
Proof.
  intros Hhs H1 H2. apply digitString_inv in Hhs as [Hhs [L1 L2]].
  assert (C : isDigit ":" = false) by reflexivity.
  assert (CC : isChar ":" ":" = true) by reflexivity.
  destruct hs as [|d1 [|d2 [|d3 t]]]; cbn [length] in L1, L2; try lia.
  - cbn [forallb] in Hhs. rewrite andb_true_r in Hhs.
    unfold digits, Rep, UpTo, Opt, Chr. crunch. now rewrite !app_nil_r.
  - cbn [forallb] in Hhs. rewrite andb_true_r in Hhs.
    apply andb_true_iff in Hhs as [Hd1 Hd2].
    destruct (digit_facts d2 Hd2) as (_ & _ & Hc2 & _).
    unfold digits, Rep, UpTo, Opt, Chr. crunch. now rewrite !app_nil_r.
Qed.

Lemma ms_timeTail_end (k : nat) (cs : list (nat * str)) :
  ms timeTail (MState k [] cs) = [MState k [] cs].
Proof. reflexivity. Qed.

Lemma ms_meridiem (k : nat) (cs : list (nat * str)) (ap : str) :
  In ap meridiems ->
  ms (Opt (Group 3 (Lit (lit "AM") <|> Lit (lit "PM")
                    <|> Lit (lit "am") <|> Lit (lit "pm"))) >> Eol)
     (MState k ap cs)
  = [MState (k + 2) [] ((3, ap) :: cs)].
Proof.
  assert (E : S (S k) - k = 2) by lia.
  assert (P : k + 2 = S (S k)) by lia.
  intros [<-|[<-|[<-|[<-|[]]]]]; rewrite P;
    unfold Opt, Lit, Chr;
    repeat (progress
              (unfold isChar, capture, advance;
               cbn [lit list_ascii_of_string ms flat_map map app pos rest
                    caps Ascii.eqb Bool.eqb isEmpty]));
    rewrite E; reflexivity.
Qed.

Lemma ms_timeTail_meridiem (k : nat) (cs : list (nat * str)) (ws ap : str) :
  forallb isSpace ws = true -> In ap meridiems ->
  exists tl,
    ms timeTail (MState k (ws ++ ap) cs)
    = MState (k + length ws + 2) [] ((3, ap) :: cs) :: tl.
Proof.
  intros Hws Hap. unfold timeTail.
  change (ms (spaces >> ?X) ?st) with (flat_map (ms X) (ms spaces st)).
  unfold spaces. rewrite ms_star_class.
  destruct (runStates_head isSpace cs (ws ++ ap) k) as [tl ->].
  assert (Sp : span isSpace (ws ++ ap) = (ws, ap)).
  { destruct Hap as [<-|[<-|[<-|[<-|[]]]]]; now apply span_stop. }
  rewrite Sp. cbn [fst snd flat_map]. rewrite ms_meridiem by exact Hap.
  cbn [app]. eauto.
Qed.

Local Close Scope regex_scope.

Lemma trim_app_spaces (x ws : str) :
  forallb isSpace ws = true -> trim (x ++ ws) = trim x.
Proof.
  induction ws as [|c t IH] using rev_ind; intros H.
  - now rewrite app_nil_r.
  - rewrite forallb_app in H. apply andb_true_iff in H as [Ht Hc].
    cbn [forallb] in Hc. rewrite andb_true_r in Hc.
    rewrite app_assoc, trim_snoc_space by exact Hc. now apply IH.
Qed.

Lemma meridiem_ends (ap : str) :
  In ap meridiems ->
  headIs isSpace (rev ap) = false
  /\ exists a b, ap = [a; b].
Proof.
  intros [<-|[<-|[<-|[<-|[]]]]]; (split; [reflexivity|eexists _, _; reflexivity]).
Qed.

(** The time as written is the time of [toISO]. *)
Lemma timeOfDay_written (hs mi ws ap : str) :
  digitString 1 2 hs = true -> digitString 2 2 mi = true ->
  forallb isSpace ws = true -> ap = [] \/ In ap meridiems ->
  timeOfDay (hs ++ lit ":" ++ mi ++ ws ++ ap)
  = (ofZ (hour24 (digitsVal 10 hs) ap), ofZ (digitsVal 10 mi)).
Proof.
  intros Hhs Hmi Hws Hap.
  destruct (@digitString_value 1 2 hs Hhs ltac:(lia) ltac:(lia)) as [Nh Bh].
  destruct (@digitString_value 2 2 mi Hmi ltac:(lia) ltac:(lia)) as [Nm Bm].
  destruct (small_numbers Bh) as (_ & Hadd & Heq).
  pose proof Hhs as Hhs'. apply digitString_inv in Hhs' as [Dh [Lh1 Lh2]].
  pose proof Hmi as Hmi'. apply digitString_inv in Hmi' as [Dm [Lm1 Lm2]].
  destruct mi as [|m1 [|m2 [|m3 t]]]; cbn [length] in Lm1, Lm2; try lia.
  cbn [forallb] in Dm. rewrite andb_true_r in Dm.
  apply andb_true_iff in Dm as [D1 D2].
  assert (Hd : forall z, headIs isSpace (hs ++ z) = false).
  { intros z. destruct hs as [|d t]; [cbn in Lh1; lia|]. cbn [forallb] in Dh.
    apply andb_true_iff in Dh as [Dh _]. cbn [app headIs].
    now destruct (digit_facts d Dh) as (-> & _). }
  unfold timeOfDay.
  change re_time
    with (Seq Bol (Seq (Group 1 (digits 1 1))
                       (Seq (Chr ":") (Seq (Group 2 (digits 2 0)) timeTail)))).
  destruct Hap as [->|Hap].
  - rewrite app_nil_r.
    replace (hs ++ lit ":" ++ [m1; m2] ++ ws)
      with ((hs ++ lit ":" ++ [m1; m2]) ++ ws) by now rewrite <- !app_assoc.
    rewrite trim_app_spaces by exact Hws.
    rewrite trim_id_ends; [|apply Hd|].
    2:{ rewrite !app_assoc.
        change (((hs ++ lit ":") ++ [m1; m2]))
          with ((hs ++ lit ":") ++ [m1] ++ [m2]).
        rewrite app_assoc, headIs_last.
        now destruct (digit_facts m2 D2) as (-> & _). }
    unfold exec. rewrite exec_at_eq.
    change (hs ++ lit ":" ++ [m1; m2])
      with (hs ++ ":"%char :: m1 :: m2 :: []).
    rewrite ms_time_prefix by assumption. rewrite ms_timeTail_end.
    cbn [group final caps assoc Nat.eqb NumberOf option_map].
    rewrite Nh, Nm. cbn [andb]. reflexivity.
  - destruct (@meridiem_ends ap Hap) as (Hl & a & b & Eab).
    rewrite trim_id_ends; [|apply Hd|].
    2:{ rewrite !app_assoc, rev_app_distr. subst ap. exact Hl. }
    unfold exec. rewrite exec_at_eq.
    change (hs ++ lit ":" ++ [m1; m2] ++ ws ++ ap)
      with (hs ++ ":"%char :: m1 :: m2 :: ws ++ ap).
    rewrite ms_time_prefix by assumption.
    destruct (@ms_timeTail_meridiem (length hs + 3)
                [(2, [m1; m2]); (1, hs)] ws ap Hws Hap) as [tl ->].
    cbn [group final caps assoc Nat.eqb NumberOf option_map].
    rewrite Nh, Nm, Heq. unfold hour24.
    destruct (eqStr (toLowerCase ap) (lit "pm") && negb (digitsVal 10 hs =? 12)%Z)
      eqn:Epm.
    + rewrite Hadd. apply andb_true_iff in Epm as [Ep Hne].
      replace (eqStr (toLowerCase ap) (lit "am")) with false; [reflexivity|].
      destruct Hap as [<-|[<-|[<-|[<-|[]]]]]; try reflexivity;
        vm_compute in Ep; discriminate.
    + rewrite Heq. now destruct (eqStr (toLowerCase ap) (lit "am") && _).
Qed.

(** [toISO] on a date and a time as written. *)
Lemma toISO_written
      (isoOfUTC : number -> number -> number -> number -> number -> number
                  -> option str)
      (dd mm yy hs mi ws ap : str) :
  digitString 1 2 dd = true -> digitString 1 2 mm = true ->
  digitString 2 4 yy = true ->
  digitString 1 2 hs = true -> digitString 2 2 mi = true ->
  forallb isSpace ws = true -> ap = [] \/ In ap meridiems ->
  toISO isoOfUTC (Some (dd ++ lit "/" ++ mm ++ lit "/" ++ yy))
        (hs ++ lit ":" ++ mi ++ ws ++ ap)
  = isoOfUTC (ofZ (yearOf yy)) (ofZ (digitsVal 10 mm - 1))
             (ofZ (digitsVal 10 dd))
             (ofZ (hour24 (digitsVal 10 hs) ap)) (ofZ (digitsVal 10 mi))
             (ofZ 0).
Proof.
  intros Hdd Hmm Hyy Hhs Hmi Hws Hap. unfold toISO.
  rewrite split_date
    by (eapply proj1, digitString_inv; eassumption).
  rewrite timeOfDay_written by assumption.
  rewrite year_number by exact Hyy.
  destruct (@digitString_value 1 2 dd Hdd ltac:(lia) ltac:(lia)) as [-> _].
  destruct (@digitString_value 1 2 mm Hmm ltac:(lia) ltac:(lia)) as [-> Bm].
  destruct (small_numbers Bm) as (-> & _). reflexivity.
Qed.

(** X20.  The date and the time that [extractCollectedAt] finds are
    always understood by [toISO]: the date has its three pieces (no
    exception for a missing year), the time matches the pattern of
    [toISO] (so 0:00 is never taken for a time that was found), and
    [Date.UTC] gets the integers written: the day, the month less one, the
    year - counted from 2000 when written with two digits -, the minutes,
    and the hour with 12 added for PM unless it is 12, and 0 for 12 AM. *)
Theorem X20_found_date_reaches_UTC
        (isoOfUTC : number -> number -> number -> number -> number -> number
                    -> option str)
        (rawText : str) (dt : collectedAt) :
  extractCollectedAt rawText = Some dt ->
  exists dd mm yy hs mi ws ap,
    datePart dt = Some (dd ++ lit "/" ++ mm ++ lit "/" ++ yy)
    /\ timePart dt = hs ++ lit ":" ++ mi ++ ws ++ ap
    /\ digitString 1 2 dd = true /\ digitString 1 2 mm = true
    /\ digitString 2 4 yy = true
    /\ digitString 1 2 hs = true /\ digitString 2 2 mi = true
    /\ forallb isSpace ws = true /\ (ap = [] \/ In ap meridiems)
    /\ toISO isoOfUTC (datePart dt) (timePart dt)
       = isoOfUTC (ofZ (yearOf yy)) (ofZ (digitsVal 10 mm - 1))
                  (ofZ (digitsVal 10 dd))
                  (ofZ (hour24 (digitsVal 10 hs) ap))
                  (ofZ (digitsVal 10 mi)) (ofZ 0).
Proof.
  intros H.
  apply extractCollectedAt_shape in H
    as (d & hs & mi & ws & ap & Hd & Md & Ht & Hhs & Hmi & Hws & Hap).
  apply date_shape in Md as (dd & mm & yy & -> & Hdd & Hmm & Hyy).
  exists dd, mm, yy, hs, mi, ws, ap. rewrite Hd, Ht.
  repeat (split; [assumption || reflexivity|]).
  now apply toISO_written.
Qed.

Lemma X20_found_date_reaches_UTC_witness :
  exists dd mm yy hs mi ws ap,
    Some (lit "16/01/26") = Some (dd ++ lit "/" ++ mm ++ lit "/" ++ yy)
    /\ lit "1:40 PM" = hs ++ lit ":" ++ mi ++ ws ++ ap
    /\ digitString 1 2 dd = true /\ digitString 1 2 mm = true
    /\ digitString 2 4 yy = true
    /\ digitString 1 2 hs = true /\ digitString 2 2 mi = true
    /\ forallb isSpace ws = true /\ (ap = [] \/ In ap meridiems)
    /\ toISO (fun _ _ _ _ _ _ => None) (Some (lit "16/01/26")) (lit "1:40 PM")
       = (fun _ _ _ _ _ _ => None)
           (ofZ (yearOf yy)) (ofZ (digitsVal 10 mm - 1))
           (ofZ (digitsVal 10 dd))
           (ofZ (hour24 (digitsVal 10 hs) ap))
           (ofZ (digitsVal 10 mi)) (ofZ 0).
Proof.
  apply (@X20_found_date_reaches_UTC
           (fun _ _ _ _ _ _ => None)
           (lit "Collected On : 16/01/26 1:40 PM")
           (CollectedAt (Some (lit "16/01/26")) (lit "1:40 PM"))).
  vm_compute. reflexivity.
Defined.

(** ** The text items of the pages *)

Lemma reportLines_nil : reportLines [] = [].
Proof. reflexivity. Qed.

Lemma reportLines_join (items : list str) :
  reportLines (join ["010"%char] items) = flat_map reportLines items.
Proof.
  induction items as [|x [|y rest] IH]; [reflexivity| |].
  - cbn [join flat_map]. now rewrite app_nil_r.
  - change (join ["010"%char] (x :: y :: rest))
      with (x ++ "010"%char :: join ["010"%char] (y :: rest)).
    rewrite reportLines_app, IH. reflexivity.
Qed.

Lemma reportLines_fullText (pages : list (list str)) :
  forall acc,
    reportLines
      (fold_left
         (fun fullText items =>
            fullText ++ join ["010"%char] items ++ ["010"%char])
         pages (acc ++ ["010"%char]))
    = reportLines acc ++ flat_map (flat_map reportLines) pages.
Proof.
  induction pages as [|items pages IH]; intros acc; cbn [fold_left flat_map].
  - now rewrite reportLines_app, reportLines_nil.
  - rewrite app_assoc, IH. rewrite <- app_assoc. cbn [app].
    rewrite reportLines_app, reportLines_join. now rewrite app_assoc.
Qed.

Lemma flat_map_concat (A B : Type) (f : A -> list B) (l : list (list A)) :
  flat_map (flat_map f) l = flat_map f (concat l).
Proof.
  induction l as [|x t IH]; [reflexivity|].
  cbn [flat_map concat]. now rewrite flat_map_app, IH.
Qed.

Lemma reportLines_item (item : str) :
  existsb (isChar "010") item = false ->
  reportLines item = filter (fun l => negb (isEmpty l)) [trim item].
Proof.
  intros H. now rewrite reportLines_split_on, split_on_plain by exact H.
Qed.

(** X21.  The handler of btnParse joins the text items of every page by
    line feeds, so the parser takes every text item for itself: the lines
    of [parseReportText] are the lines of the items, one item after the
    other across the pages - a name and its value are found only when they
    come in one text item.  When no item has a line feed of its own, the
    lines are the trimmed items that are not empty. *)
Theorem X21_text_items_are_lines (pages : list (list str)) :
  reportLines (fullTextOf pages) = flat_map reportLines (concat pages)
  /\ parseReportText (fullTextOf pages)
     = recordsFrom (lit "General") (flat_map reportLines (concat pages))
  /\ ((forall item, In item (concat pages) ->
                    existsb (isChar "010") item = false) ->
      reportLines (fullTextOf pages)
      = filter (fun l => negb (isEmpty l)) (map trim (concat pages))).
Proof.
  assert (H : reportLines (fullTextOf pages)
              = flat_map reportLines (concat pages)).
  { unfold fullTextOf. destruct pages as [|items pages]; [reflexivity|].
    cbn [fold_left app].
    rewrite reportLines_fullText, reportLines_join, flat_map_concat.
    cbn [concat]. now rewrite flat_map_app. }
  split; [exact H|]. split; [now rewrite parseReportText_eq, H|].
  intros Hno. rewrite H. clear H.
  induction (concat pages) as [|item items IH]; [reflexivity|].
  cbn [flat_map map]. rewrite IH by (intros i Hi; apply Hno; now right).
  rewrite reportLines_item by (apply Hno; now left). cbn [filter].
  now destruct (negb (isEmpty (trim item))).
Qed.

(** ** The first way to match, piece by piece *)

Lemma firstMatch_seq (r1 r2 : regex) (st st1 st2 : mstate) :
  firstMatch r1 st st1 -> firstMatch r2 st1 st2 ->
  firstMatch (Seq r1 r2) st st2.
Proof.
  intros [tl1 H1] [tl2 H2]. unfold firstMatch. cbn [ms].
  rewrite H1. cbn [flat_map]. rewrite H2. cbn [app]. eauto.
Qed.

Lemma firstMatch_class (p : ascii -> bool) (i : nat) (c : ascii) (t : str)
      (cs : list (nat * str)) :
  p c = true -> firstMatch (Class p) (MState i (c :: t) cs) (MState (S i) t cs).
Proof. intros H. exists []. now rewrite ms_class, H. Qed.

Lemma firstMatch_chr (i : nat) (c : ascii) (t : str) (cs : list (nat * str)) :
  firstMatch (Chr c) (MState i (c :: t) cs) (MState (S i) t cs).
Proof. apply firstMatch_class. unfold isChar. apply Ascii.eqb_refl. Qed.

Lemma firstMatch_star_class (p : ascii -> bool) (i : nat) (w t : str)
      (cs : list (nat * str)) :
  forallb p w = true -> headIs p t = false ->
  firstMatch (Star (Class p)) (MState i (w ++ t) cs)
             (MState (i + length w) t cs).
Proof.
  intros Hw Ht. unfold firstMatch. rewrite ms_star_class.
  destruct (runStates_head p cs (w ++ t) i) as [tl ->].
  assert (Sp : span p (w ++ t) = (w, t)).
  { destruct t as [|c t']; [rewrite app_nil_r; now apply span_all|].
    now apply span_stop. }
  rewrite Sp. cbn [fst snd]. eauto.
Qed.

Lemma firstMatch_plus_class (p : ascii -> bool) (i : nat) (w t : str)
      (cs : list (nat * str)) :
  forallb p w = true -> w <> [] -> headIs p t = false ->
  firstMatch (Plus (Class p)) (MState i (w ++ t) cs)
             (MState (i + length w) t cs).
Proof.
  intros Hw Hn Ht. destruct w as [|c w']; [congruence|].
  cbn [forallb] in Hw. apply andb_true_iff in Hw as [Hc Hw'].
  unfold Plus. eapply firstMatch_seq.
  - cbn [app]. now apply firstMatch_class.
  - replace (i + length (c :: w')) with (S i + length w')
      by (cbn [length]; lia).
    now apply firstMatch_star_class.
Qed.

Lemma firstMatch_opt (r : regex) (st st' : mstate) :
  firstMatch r st st' -> firstMatch (Opt r) st st'.
Proof. intros [tl H]. unfold firstMatch, Opt. cbn [ms]. rewrite H. cbn. eauto. Qed.

Lemma firstMatch_opt_skip (r : regex) (st : mstate) :
  ms r st = [] -> firstMatch (Opt r) st st.
Proof. intros H. unfold firstMatch, Opt. cbn [ms]. rewrite H. cbn. eauto. Qed.

Lemma firstMatch_group (j : nat) (r : regex) (i : nat) (w t : str)
      (cs cs' : list (nat * str)) :
  firstMatch r (MState i (w ++ t) cs) (MState (i + length w) t cs') ->
  firstMatch (Group j r) (MState i (w ++ t) cs)
             (MState (i + length w) t ((j, w) :: cs')).
Proof.
  intros [tl H]. unfold firstMatch. cbn [ms]. rewrite H. cbn [map].
  unfold capture. cbn [pos rest caps].
  replace (i + length w - i) with (length w + 0) by lia.
  rewrite firstn_app_2. cbn [firstn]. rewrite app_nil_r. eauto.
Qed.

Lemma firstMatch_bol (s : str) (cs : list (nat * str)) :
  firstMatch Bol (MState 0 s cs) (MState 0 s cs).
Proof. exists []. reflexivity. Qed.

Lemma firstMatch_eol (i : nat) (cs : list (nat * str)) :
  firstMatch Eol (MState i [] cs) (MState i [] cs).
Proof. exists []. reflexivity. Qed.

(** A numeric token, something else than a digit or a dot after it. *)
Lemma firstMatch_number (a t : str) (i : nat) (cs : list (nat * str)) :
  decimalToken a = true ->
  headIs (fun c => isDigit c || isChar "." c) t = false ->
  firstMatch re_number (MState i (a ++ t) cs) (MState (i + length a) t cs).
Proof.
  unfold decimalToken. destruct (span isDigit a) as [ip r] eqn:Sp.
  pose proof (span_app isDigit a) as Ha.
  pose proof (span_fst_all isDigit a) as Hip. rewrite Sp in Ha, Hip.
  cbn [fst snd] in Ha, Hip. intros H Ht.
  apply andb_true_iff in H as [Hn Hr].
  assert (Hd : headIs isDigit t = false /\ headIs (isChar ".") t = false).
  { destruct t as [|c t']; [split; reflexivity|]. cbn [headIs] in *.
    now apply orb_false_iff in Ht. }
  destruct Hd as [Hd Hdot]. subst a. unfold re_number.
  destruct r as [|c fp].
  - rewrite app_nil_r. eapply firstMatch_seq.
    + apply firstMatch_plus_class; [exact Hip|now destruct ip|exact Hd].
    + apply firstMatch_opt_skip. cbn [ms]. unfold Chr. rewrite ms_class.
      destruct t as [|c t']; [reflexivity|]. cbn [headIs] in Hdot.
      now rewrite Hdot.
  - apply andb_true_iff in Hr as [Hr Hfp]. apply andb_true_iff in Hr as [Hc Hne].
    apply isChar_eq in Hc. subst c. rewrite <- app_assoc.
    eapply firstMatch_seq.
    + apply firstMatch_plus_class; [exact Hip|now destruct ip|reflexivity].
    + apply firstMatch_opt. eapply firstMatch_seq.
      * cbn [app]. apply firstMatch_chr.
      * replace (i + length (ip ++ "."%char :: fp))
          with (S (i + length ip) + length fp)
          by (rewrite length_app; cbn [length]; lia).
        apply firstMatch_plus_class; [exact Hfp|now destruct fp|exact Hd].
Qed.

Lemma decimalToken_ends (a : str) :
  decimalToken a = true ->
  (exists d t, a = d :: t /\ isDigit d = true)
  /\ headIs isSpace (rev a) = false
  /\ existsb isSpace a = false
  /\ forallb (fun c => isDigit c || isChar "." c) a = true.
Proof.
  unfold decimalToken. destruct (span isDigit a) as [ip r] eqn:Sp.
  pose proof (span_app isDigit a) as Ha.
  pose proof (span_fst_all isDigit a) as Hip. rewrite Sp in Ha, Hip.
  cbn [fst snd] in Ha, Hip. intros H.
  apply andb_true_iff in H as [Hn Hr].
  assert (Hall : forallb (fun c => isDigit c || isChar "." c) a = true).
  { subst a. rewrite forallb_app. apply andb_true_iff. split.
    - revert Hip. apply forallb_impl. intros c ->. reflexivity.
    - destruct r as [|c fp]; [reflexivity|].
      apply andb_true_iff in Hr as [Hr Hfp]. apply andb_true_iff in Hr as [Hc _].
      cbn [forallb]. rewrite Hc, orb_true_r. cbn [andb].
      revert Hfp. apply forallb_impl. intros x ->. reflexivity. }
  assert (Hsp : forall c, isDigit c || isChar "." c = true -> isSpace c = false)
    by (intros c Hc; now destruct (digit_or_dot c Hc)).
  repeat split.
  - destruct ip as [|d ip']; [discriminate|]. exists d, (ip' ++ r).
    cbn [forallb] in Hip. apply andb_true_iff in Hip as [Hd _]. now subst a.
  - apply headIs_weaken with (q := fun c => isDigit c || isChar "." c);
      [exact Hsp|]. now rewrite forallb_rev.
  - rewrite existsb_forallb_negp. apply negb_false_iff.
    revert Hall. apply forallb_impl. intros c Hc. unfold negp.
    now rewrite (Hsp c Hc).
  - exact Hall.
Qed.

Lemma space_not_number_char (c : ascii) :
  isSpace c = true -> isDigit c || isChar "." c = false.
Proof. ascii_cases c; vm_compute; congruence. Qed.

(** The first way [re_range] matches a range as written. *)
Lemma firstMatch_range (a ws1 ws2 b : str) :
  decimalToken a = true -> decimalToken b = true ->
  forallb isSpace ws1 = true -> forallb isSpace ws2 = true ->
  firstMatch re_range
    (MState 0 (a ++ ws1 ++ lit "-" ++ ws2 ++ b) [])
    (MState (length (a ++ ws1 ++ lit "-" ++ ws2 ++ b)) [] [(2, b); (1, a)]).
Proof.
  intros Ha Hb H1 H2. unfold re_range.
  destruct (decimalToken_ends b Hb) as ((d & t & Eb & Hd) & _).
  assert (Hs : headIs (fun c => isDigit c || isChar "." c)
                      (ws1 ++ lit "-" ++ ws2 ++ b) = false).
  { destruct ws1 as [|c w]; [reflexivity|]. cbn [forallb] in H1.
    apply andb_true_iff in H1 as [H1 _]. cbn [app headIs].
    now apply space_not_number_char. }
  rewrite !length_app. cbn [lit list_ascii_of_string length app].
  eapply firstMatch_seq; [apply firstMatch_bol|].
  eapply firstMatch_seq.
  { apply firstMatch_group with (cs := []). apply firstMatch_number; assumption. }
  eapply firstMatch_seq.
  { apply firstMatch_star_class; [exact H1|reflexivity]. }
  eapply firstMatch_seq; [apply firstMatch_chr|].
  eapply firstMatch_seq.
  { apply firstMatch_star_class; [exact H2|].
    subst b. cbn [headIs]. now destruct (digit_facts d Hd) as (-> & _). }
  eapply firstMatch_seq.
  { rewrite <- (app_nil_r b) at 1.
    apply firstMatch_group. apply firstMatch_number; [exact Hb|reflexivity]. }
  replace (S (0 + length a + length ws1) + length ws2 + length b)
    with (length a + (length ws1 + S (length ws2 + length b))) by lia.
  apply firstMatch_eol.
Qed.

Lemma exec_first (r : regex) (s : str) (st : mstate) :
  firstMatch r (MState 0 s []) st -> exec r s = Some (RMatch 0 s st).
Proof. intros [tl H]. unfold exec. now rewrite exec_at_eq, H. Qed.

Lemma exec_at_bol_later (r : regex) (s : str) :
  forall i, 0 < i -> exec_at (Seq Bol r) i s = None.
Proof.
  induction s as [|c t IH]; intros i Hi; rewrite exec_at_eq; cbn [ms pos];
    replace (i =? 0) with false by (symmetry; apply Nat.eqb_neq; lia);
    cbn [flat_map]; [reflexivity|]. apply IH. lia.
Qed.

Lemma exec_bol_none (r : regex) (s : str) :
  ms r (MState 0 s []) = [] -> exec (Seq Bol r) s = None.
Proof.
  intros H. unfold exec. rewrite exec_at_eq. cbn [ms pos Nat.eqb flat_map].
  rewrite H. cbn [app]. destruct s as [|c t]; [reflexivity|].
  apply exec_at_bol_later. lia.
Qed.

Lemma inequality_needs_sign (d : ascii) (t : str) :
  isDigit d = true -> exec re_inequality (d :: t) = None.
Proof.
  intros Hd. unfold re_inequality. apply exec_bol_none.
  assert (N : isChar "<" d || isChar ">" d = false)
    by (revert Hd; ascii_cases d; vm_compute; congruence).
  cbn [ms rest]. rewrite N. reflexivity.
Qed.

(** [parseRef] on a range as written. *)
Lemma parseRef_written_range (a ws1 ws2 b : str) :
  decimalToken a = true -> decimalToken b = true ->
  forallb isSpace ws1 = true -> forallb isSpace ws2 = true ->
  parseRef (Some (a ++ ws1 ++ lit "-" ++ ws2 ++ b))
  = Ref.Build (Some (Number a)) (Some (Number b)) None.
Proof.
  intros Ha Hb H1 H2.
  destruct (decimalToken_ends a Ha) as ((d & t & Ea & Hd) & _).
  destruct (decimalToken_ends b Hb) as (_ & Hl & _).
  pose proof (firstMatch_range a ws1 ws2 b Ha Hb H1 H2) as F.
  apply exec_first in F.
  assert (T : trim (a ++ ws1 ++ lit "-" ++ ws2 ++ b)
              = a ++ ws1 ++ lit "-" ++ ws2 ++ b).
  { apply trim_id_ends.
    - subst a. cbn [app headIs]. now destruct (digit_facts d Hd) as (-> & _).
    - rewrite !app_assoc, rev_app_distr.
      destruct (decimalToken_ends b Hb) as ((d' & t' & Eb & _) & _).
      destruct (rev b) as [|x y] eqn:R; [|exact Hl].
      apply (f_equal (@length ascii)) in R. rewrite length_rev in R.
      subst b. discriminate. }
  unfold parseRef. rewrite T.
  destruct (a ++ ws1 ++ lit "-" ++ ws2 ++ b) as [|c r] eqn:E.
  { subst a. discriminate. }
  assert (c = d) by (subst a; now injection E). subst c.
  rewrite inequality_needs_sign by exact Hd. rewrite F. reflexivity.
Qed.

(** X22.  A range as written - a number, a hyphen and a number, white
    space or none around the hyphen - gives [parseRef] exactly these two
    numbers as bounds, and no text. *)
Theorem X22_parseRef_range (a ws1 ws2 b : str) :
  decimalToken a = true -> decimalToken b = true ->
  forallb isSpace ws1 = true -> forallb isSpace ws2 = true ->
  parseRef (Some (a ++ ws1 ++ lit "-" ++ ws2 ++ b))
  = Ref.Build (Some (Number a)) (Some (Number b)) None.
Proof. exact (@parseRef_written_range a ws1 ws2 b). Qed.

Lemma X22_parseRef_range_witness :
  parseRef (Some (lit "4.4 - 6.0"))
  = Ref.Build (Some (Number (lit "4.4"))) (Some (Number (lit "6.0"))) None.
Proof.
  exact (@X22_parseRef_range (lit "4.4") (lit " ") (lit " ") (lit "6.0")
           eq_refl eq_refl eq_refl eq_refl).
Defined.

(** ** A measurement line as written *)

Lemma join_app (sep : str) (a b : list str) :
  a <> [] -> b <> [] ->
  join sep (a ++ b) = join sep a ++ sep ++ join sep b.
Proof.
  intros Ha Hb. induction a as [|x [|y r] IH]; [congruence| |].
  - destruct b as [|z b']; [congruence|]. reflexivity.
  - change (join sep ((x :: y :: r) ++ b))
      with (x ++ sep ++ join sep ((y :: r) ++ b)).
    rewrite IH by discriminate.
    change (join sep (x :: y :: r)) with (x ++ sep ++ join sep (y :: r)).
    now rewrite <- !app_assoc.
Qed.

Lemma word_inv (w : str) :
  word w = true ->
  w <> [] /\ existsb isSpace w = false /\ headIs isSpace w = false
  /\ headIs isSpace (rev w) = false /\ existsb (isChar " ") w = false.
Proof.
  unfold word. intros H. apply andb_true_iff in H as [Hn Hs].
  apply negb_true_iff in Hs. apply negb_true_iff in Hn.
  apply isEmpty_false in Hn.
  assert (F : forallb (negp isSpace) w = true).
  { rewrite existsb_forallb_negp in Hs. now apply negb_false_iff in Hs. }
  repeat split; auto.
  - apply headIs_weaken with (q := negp isSpace); [|exact F].
    intros c Hc. unfold negp in Hc. now apply negb_true_iff in Hc.
  - apply headIs_weaken with (q := negp isSpace); [|now rewrite forallb_rev].
    intros c Hc. unfold negp in Hc. now apply negb_true_iff in Hc.
  - rewrite existsb_forallb_negp. apply negb_false_iff.
    revert F. apply forallb_impl. intros c Hc. unfold negp in *.
    apply negb_true_iff in Hc. apply negb_true_iff.
    destruct (isChar " " c) eqn:E; [|reflexivity].
    apply isChar_eq in E. subst c. discriminate.
Qed.

Lemma squeezeFrom_word (w t : str) (b : bool) :
  word w = true ->
  squeezeFrom isSpace (lit " ") b (w ++ t)
  = w ++ squeezeFrom isSpace (lit " ") false t.
Proof.
  intros H. destruct (word_inv w H) as (Hn & Hs & _).
  destruct w as [|c w']; [congruence|]. clear Hn H.
  cbn [existsb] in Hs. apply orb_false_iff in Hs as [Hc Hs].
  cbn [app squeezeFrom]. rewrite Hc. f_equal. clear c Hc. revert Hs.
  induction w' as [|d r IH]; intros Hs; [reflexivity|].
  cbn [existsb] in Hs. apply orb_false_iff in Hs as [Hd Hs].
  cbn [app squeezeFrom]. rewrite Hd. f_equal. now apply IH.
Qed.

Lemma squeezeFrom_words (ws : list str) :
  forallb word ws = true ->
  forall b, squeezeFrom isSpace (lit " ") b (join (lit " ") ws)
            = join (lit " ") ws.
Proof.
  induction ws as [|w [|y r] IH]; intros H b; [now destruct b| |].
  - cbn [forallb] in H. rewrite andb_true_r in H. cbn [join].
    rewrite <- (app_nil_r w) at 1. rewrite squeezeFrom_word by exact H.
    cbn [squeezeFrom]. now rewrite app_nil_r.
  - cbn [forallb] in H. apply andb_true_iff in H as [Hw Hr].
    change (join (lit " ") (w :: y :: r))
      with (w ++ lit " " ++ join (lit " ") (y :: r)).
    rewrite squeezeFrom_word by exact Hw. f_equal.
    cbn [lit list_ascii_of_string app squeezeFrom].
    replace (isSpace " ") with true by reflexivity.
    f_equal. apply (IH Hr true).
Qed.

Lemma join_head (p : ascii -> bool) (sep : str) (w : str) (ws : list str) :
  w <> [] -> headIs p (join sep (w :: ws)) = headIs p w.
Proof. intros Hw. destruct w; [congruence|]. now destruct ws. Qed.

Lemma join_last (p : ascii -> bool) (sep : str) (ws : list str) (w : str) :
  w <> [] -> headIs p (rev (join sep (ws ++ [w]))) = headIs p (rev w).
Proof.
  intros Hw. assert (R : rev w <> []).
  { intros E. apply (f_equal (@length ascii)) in E.
    rewrite length_rev in E. now destruct w. }
  destruct ws as [|x r].
  - reflexivity.
  - rewrite join_app by discriminate. cbn [join].
    rewrite !rev_app_distr. now destruct (rev w).
Qed.

Lemma trim_words (ws : list str) :
  forallb word ws = true -> trim (join (lit " ") ws) = join (lit " ") ws.
Proof.
  intros H. destruct ws as [|w r]; [reflexivity|].
  apply trim_id_ends.
  - cbn [forallb] in H. apply andb_true_iff in H as [Hw _].
    destruct (word_inv w Hw) as (Hn & _ & Hh & _). now rewrite join_head.
  - destruct (exists_last (l := w :: r)) as (ws0 & z & E); [discriminate|].
    rewrite E in *. rewrite forallb_app in H. apply andb_true_iff in H as [_ Hz].
    cbn [forallb] in Hz. rewrite andb_true_r in Hz.
    destruct (word_inv z Hz) as (Hn & _ & _ & Hl & _). now rewrite join_last.
Qed.

(** Words joined by single spaces are a normalized line. *)
Lemma normalizedLine_words (ws : list str) :
  forallb word ws = true ->
  normalizedLine (join (lit " ") ws) = join (lit " ") ws.
Proof.
  intros H. rewrite normalizedLine_eq. unfold squeeze.
  rewrite squeezeFrom_words by exact H. now apply trim_words.
Qed.

Lemma split_on_join (ws : list str) :
  ws <> [] -> forallb word ws = true ->
  split_on " " (join (lit " ") ws) = ws.
Proof.
  induction ws as [|w [|y r] IH]; intros Hn H; [congruence| |].
  - cbn [forallb] in H. rewrite andb_true_r in H. cbn [join].
    apply split_on_plain. now destruct (word_inv w H) as (_ & _ & _ & _ & ->).
  - cbn [forallb] in H. apply andb_true_iff in H as [Hw Hr].
    change (join (lit " ") (w :: y :: r))
      with (w ++ " "%char :: join (lit " ") (y :: r)).
    rewrite split_on_app, IH by (discriminate || exact Hr).
    rewrite split_on_plain; [reflexivity|].
    now destruct (word_inv w Hw) as (_ & _ & _ & _ & ->).
Qed.

Lemma nameWord_word (w : str) :
  nameWord w = true -> word w = true /\ existsb isDigit w = false.
Proof.
  unfold nameWord, word. intros H. apply andb_true_iff in H as [H Hd].
  rewrite H. now apply negb_true_iff in Hd.
Qed.

Lemma unitWord_word (u : str) :
  unitWord u = true ->
  word u = true /\ includes "-" u = false /\ startsWith "<" u = false
  /\ startsWith ">" u = false.
Proof.
  unfold unitWord, word. intros H.
  apply andb_true_iff in H as [H H4]. apply andb_true_iff in H as [H H3].
  apply andb_true_iff in H as [H H2]. rewrite H.
  repeat split; now apply negb_true_iff.
Qed.

Lemma decimalToken_word (a : str) : decimalToken a = true -> word a = true.
Proof.
  intros H. destruct (decimalToken_ends a H) as ((d & t & -> & _) & _ & Hs & _).
  unfold word. now rewrite Hs.
Qed.

Lemma range_word (a b : str) :
  decimalToken a = true -> decimalToken b = true ->
  word (a ++ lit "-" ++ b) = true.
Proof.
  intros Ha Hb.
  destruct (decimalToken_ends a Ha) as ((d & t & -> & _) & _ & Hsa & _).
  destruct (decimalToken_ends b Hb) as (_ & _ & Hsb & _).
  unfold word. cbn [app isEmpty negb andb]. apply negb_true_iff.
  change (d :: t ++ lit "-" ++ b) with ((d :: t) ++ lit "-" ++ b).
  rewrite !existsb_app, Hsa, Hsb. reflexivity.
Qed.

Lemma forallb_map_impl (p q : str -> bool) (ws : list str) :
  (forall w, p w = true -> q w = true) ->
  forallb p ws = true -> forallb q ws = true.
Proof.
  intros H. induction ws as [|w r IH]; [reflexivity|]. cbn [forallb].
  intros E. apply andb_true_iff in E as [Ew Er]. now rewrite (H _ Ew), IH.
Qed.

Lemma existsb_join (p : ascii -> bool) (ws : list str) :
  p " "%char = false ->
  existsb p (join (lit " ") ws) = existsb (existsb p) ws.
Proof.
  intros Hp. induction ws as [|w [|y r] IH]; [reflexivity| |].
  - cbn [join existsb]. now rewrite orb_false_r.
  - change (join (lit " ") (w :: y :: r))
      with (w ++ lit " " ++ join (lit " ") (y :: r)).
    rewrite !existsb_app, IH. cbn [lit list_ascii_of_string existsb].
    now rewrite Hp.
Qed.

(** The loop over the tokens, the words of the unit first and the words
    of the reference last. *)
Lemma unitRefSplit_words (n : nat) (rs : list str) (us : list str) :
  forallb unitWord us = true -> refWords us rs = true ->
  forall i, i + length us + length rs = n ->
            unitRefSplit n i (us ++ rs) = (us, rs).
Proof.
  intros Hus. induction us as [|u r IH]; intros Hrs i Hi.
  - cbn [app]. unfold refWords in Hrs. apply andb_true_iff in Hrs as [_ Hrs].
    destruct rs as [|r0 rest]; [reflexivity|].
    cbn [unitRefSplit]. unfold isRefStart.
    destruct (includes "-" r0 || startsWith "<" r0 || startsWith ">" r0);
      [reflexivity|].
    cbn [orb] in Hrs |- *. apply andb_true_iff in Hrs as [-> Hr].
    destruct rest; [|discriminate]. cbn [length] in Hi.
    replace (i =? n - 1) with true by (symmetry; apply Nat.eqb_eq; lia).
    reflexivity.
  - cbn [forallb] in Hus. apply andb_true_iff in Hus as [Hu Hr].
    destruct (unitWord_word u Hu) as (_ & H1 & H2 & H3).
    cbn [app unitRefSplit]. unfold isRefStart. rewrite H1, H2, H3.
    cbn [orb]. cbn [length] in Hi.
    assert (Hn : test re_numberOnly u && (i =? n - 1) = false).
    { destruct (i =? n - 1) eqn:E; [|apply andb_false_r].
      apply Nat.eqb_eq in E. rewrite andb_true_r.
      assert (r = [] /\ rs = []) as [-> ->]
        by (destruct r; destruct rs; cbn [length] in Hi; split;
            try reflexivity; lia).
      unfold refWords in Hrs. cbn [forallb andb last] in Hrs.
      now apply negb_true_iff in Hrs. }
    rewrite Hn. rewrite IH; [reflexivity|exact Hr| |lia].
    unfold refWords in *. apply andb_true_iff in Hrs as [Hw Hrs].
    rewrite Hw. cbn [andb]. destruct rs as [|r0 rest]; [|exact Hrs].
    destruct r as [|u' r']; [reflexivity|exact Hrs].
Qed.

(** The line of a test as written: the words of the name, the value, the
    words of the unit and the words of the reference. *)
Lemma parseMeasurementLine_words (nw us rs : list str) (v : str) :
  nw <> [] -> forallb nameWord nw = true ->
  decimalToken v = true -> forallb unitWord us = true ->
  refWords us rs = true ->
  let r := parseRef (orNull (join (lit " ") rs)) in
  parseMeasurementLine (join (lit " ") (nw ++ [v] ++ us ++ rs))
  = Some (Measurement
            (normalizeKey (join (lit " ") nw)) (join (lit " ") nw)
            (Number v) (orNull (join (lit " ") us))
            (Ref.refLow r) (Ref.refHigh r) (Ref.refText r)
            (computeFlag (JNum (Number v)) (numOrNull (Ref.refLow r))
                         (numOrNull (Ref.refHigh r))
                         (strOrNull (Ref.refText r)))
            (join (lit " ") (nw ++ [v] ++ us ++ rs)) None).
Proof.
  intros Hnn Hnw Hv Hus Hrs R.
  set (tokens := [v] ++ us ++ rs).
  set (line := join (lit " ") (nw ++ tokens)).
  assert (Wn : forallb word nw = true)
    by (revert Hnw; apply forallb_map_impl; intros w Hw;
        now destruct (nameWord_word w Hw)).
  assert (Wu : forallb word us = true)
    by (revert Hus; apply forallb_map_impl; intros w Hw;
        now destruct (unitWord_word w Hw)).
  assert (Wr : forallb word rs = true)
    by (unfold refWords in Hrs; now apply andb_true_iff in Hrs as [-> _]).
  assert (Wt : forallb word tokens = true).
  { unfold tokens. rewrite !forallb_app. cbn [forallb].
    now rewrite (decimalToken_word v Hv), Wu, Wr. }
  assert (Wl : forallb word (nw ++ tokens) = true)
    by now rewrite forallb_app, Wn, Wt.
  assert (Hline : normalizedLine line = line) by now apply normalizedLine_words.
  set (pre := join (lit " ") nw ++ [" "%char]).
  assert (Eline : line = pre ++ join (lit " ") tokens).
  { unfold line, pre. rewrite join_app by (exact Hnn || discriminate).
    now rewrite <- app_assoc. }
  destruct (decimalToken_ends v Hv) as ((d & vt & Ev & Hd) & _).
  assert (Nd : existsb isDigit (join (lit " ") nw) = false).
  { rewrite existsb_join by reflexivity.
    clear -Hnw. induction nw as [|w r IH]; [reflexivity|].
    cbn [forallb existsb] in *. apply andb_true_iff in Hnw as [Hw Hr].
    destruct (nameWord_word w Hw) as [_ ->]. now apply IH. }
  assert (Etok : join (lit " ") tokens = d :: tl (join (lit " ") tokens)).
  { unfold tokens. cbn [app]. rewrite Ev. now destruct (us ++ rs). }
  assert (Sp : span (negp isDigit) line = (pre, join (lit " ") tokens)).
  { rewrite Eline, Etok. apply span_stop.
    - unfold pre. rewrite forallb_app. cbn [forallb]. rewrite andb_true_r.
      rewrite existsb_forallb_negp in Nd. now apply negb_false_iff in Nd.
    - unfold negp. now rewrite Hd. }
  assert (Hidx : firstNumericIndex line = length pre)
    by (unfold firstNumericIndex; now rewrite Sp).
  assert (Hname : nameText line = join (lit " ") nw).
  { unfold nameText. rewrite Hidx, Eline.
    rewrite firstn_app, Nat.sub_diag, firstn_all. cbn [firstn].
    rewrite app_nil_r. unfold pre.
    rewrite trim_snoc_space by reflexivity. now apply trim_words. }
  assert (Htok : lineTokens line = tokens).
  { unfold lineTokens. rewrite Hidx, Eline.
    rewrite skipn_app, Nat.sub_diag, skipn_all. cbn [skipn app].
    rewrite trim_words by exact Wt.
    apply split_on_join; [discriminate|exact Wt]. }
  assert (Hval : valueToken line = v).
  { unfold valueToken. fold (lineTokens line). now rewrite Htok. }
  assert (Hur : lineUnitRef line = (us, rs)).
  { unfold lineUnitRef. rewrite Htok, splitUnitRef_unit. cbn [app tl tokens].
    rewrite unitRefSplit_words; [reflexivity|exact Hus|exact Hrs|].
    unfold tokens. cbn [app length]. rewrite length_app. lia. }
  assert (Href : lineRef line = R).
  { unfold lineRef. rewrite Hur. cbn [snd]. now rewrite trim_words by exact Wr. }
  pose proof (parseMeasurementLine_inv line) as Hinv. cbv zeta in Hinv.
  rewrite Hline in Hinv.
  destruct (parseMeasurementLine line) as [m|] eqn:Hm.
  - apply parseMeasurementLine_full in Hm. rewrite Hline in Hm.
    rewrite Hname, Hval, Hur, Href in Hm. cbn [fst] in Hm.
    rewrite trim_words in Hm by exact Wu. now subst m.
  - exfalso. destruct Hinv as [H|[H|H]].
    + unfold hasNumericToken in H. rewrite Eline, Etok in H.
      rewrite existsb_app in H. cbn [existsb] in H.
      rewrite Hd in H. cbn [orb] in H. rewrite orb_true_r in H.
      discriminate.
    + rewrite Hname in H. destruct nw as [|w r]; [congruence|].
      cbn [forallb] in Wn. apply andb_true_iff in Wn as [Ww _].
      destruct (word_inv w Ww) as (Hn & _). destruct w; [congruence|].
      destruct r; discriminate.
    + rewrite Hval, Number_decimalToken_not_NaN in H by exact Hv. discriminate.
Qed.

Lemma range_refWords (us : list str) (a b : str) :
  decimalToken a = true -> decimalToken b = true ->
  refWords us [a ++ lit "-" ++ b] = true.
Proof.
  intros Ha Hb. unfold refWords. cbn [forallb].
  rewrite (range_word a b Ha Hb). cbn [andb].
  unfold includes. rewrite !existsb_app. cbn [lit list_ascii_of_string existsb].
  replace (isChar "-" "-") with true by reflexivity.
  now rewrite !orb_true_r.
Qed.

(** X23.  The line of a test as written - the words of the name, the
    value, the words of the unit and a range, white space of any kind and
    length between and around them - gives the record one expects: the
    name with single spaces, its key, the value, the unit with single
    spaces (null without unit words), the two numbers of the range as
    bounds, no reference text, the flag of the value against the bounds,
    and the line with single spaces as raw line. *)
Theorem X23_measurement_line (line : str) (nw us : list str) (v a b : str) :
  normalizedLine line
  = join (lit " ") (nw ++ [v] ++ us ++ [a ++ lit "-" ++ b]) ->
  nw <> [] -> forallb nameWord nw = true ->
  decimalToken v = true -> forallb unitWord us = true ->
  decimalToken a = true -> decimalToken b = true ->
  parseMeasurementLine line
  = Some (Measurement
            (normalizeKey (join (lit " ") nw)) (join (lit " ") nw)
            (Number v) (orNull (join (lit " ") us))
            (Some (Number a)) (Some (Number b)) None
            (computeFlag (JNum (Number v)) (JNum (Number a))
                         (JNum (Number b)) JNull)
            (normalizedLine line) None).
Proof.
  intros E Hnn Hnw Hv Hus Ha Hb.
  rewrite <- parseMeasurementLine_normalized, E.
  rewrite parseMeasurementLine_words
    by (assumption || now apply range_refWords).
  cbn [join]. unfold orNull.
  replace (isEmpty (a ++ lit "-" ++ b)) with false
    by (destruct (decimalToken_ends a Ha) as ((d & t & -> & _) & _);
        reflexivity).
  pose proof (@parseRef_written_range a [] [] b Ha Hb eq_refl eq_refl) as P.
  cbv zeta. set (R := parseRef _).
  assert (ER : R = Ref.Build (Some (Number a)) (Some (Number b)) None)
    by exact P.
  clearbody R. now subst R.
Qed.

Lemma X23_measurement_line_witness :
  parseMeasurementLine (lit "  Haemoglobin   (Hb)	12.3 gm/dL  14-18 ")
  = Some (Measurement
            (normalizeKey (join (lit " ") [lit "Haemoglobin"; lit "(Hb)"]))
            (join (lit " ") [lit "Haemoglobin"; lit "(Hb)"])
            (Number (lit "12.3")) (orNull (join (lit " ") [lit "gm/dL"]))
            (Some (Number (lit "14"))) (Some (Number (lit "18"))) None
            (computeFlag (JNum (Number (lit "12.3"))) (JNum (Number (lit "14")))
                         (JNum (Number (lit "18"))) JNull)
            (normalizedLine (lit "  Haemoglobin   (Hb)	12.3 gm/dL  14-18 "))
            None).
Proof.
  apply (@X23_measurement_line
           (lit "  Haemoglobin   (Hb)	12.3 gm/dL  14-18 ")
           [lit "Haemoglobin"; lit "(Hb)"] [lit "gm/dL"]
           (lit "12.3") (lit "14") (lit "18")).
  - vm_compute. reflexivity.
  - discriminate.
  - reflexivity.
  - reflexivity.
  - reflexivity.
  - reflexivity.
  - reflexivity.
Defined.

(** ** Bounds come from ranges only *)

Lemma in_ms_seq (r1 r2 : regex) (st st' : mstate) :
  In st' (ms (Seq r1 r2) st) ->
  exists mid, In mid (ms r1 st) /\ In st' (ms r2 mid).
Proof. cbn [ms]. intros H. now apply in_flat_map in H. Qed.

Lemma in_ms_group (i : nat) (r : regex) (st st' : mstate) :
  In st' (ms (Group i r) st) ->
  exists w,
    rest st = w ++ rest st' /\ pos st' = pos st + length w /\ matches r w
    /\ assoc i (caps st') = Some w
    /\ forall j, j <> i -> ~ In j (groupsOf r) ->
                 assoc j (caps st') = assoc j (caps st).
Proof.
  cbn [ms]. intros H. apply in_map_iff in H as (mid & <- & Hmid).
  pose proof (ms_matches r _ _ Hmid) as (w & Ew & Pw & Mw).
  exists w. cbn [capture rest pos caps assoc]. rewrite Nat.eqb_refl.
  repeat split; auto.
  - rewrite Ew, Pw. replace (pos st + length w - pos st) with (length w + 0) by lia.
    rewrite firstn_app_2. cbn [firstn]. now rewrite app_nil_r.
  - intros j Hj Hg. replace (j =? i) with false
      by (symmetry; now apply Nat.eqb_neq).
    now apply (@ms_frame j r Hg).
Qed.

Lemma in_ms_plain (r : regex) (st st' : mstate) :
  groupsOf r = [] -> In st' (ms r st) ->
  exists w,
    rest st = w ++ rest st' /\ matches r w
    /\ forall j, assoc j (caps st') = assoc j (caps st).
Proof.
  intros Hg H. pose proof (ms_matches r _ _ H) as (w & Ew & _ & Mw).
  exists w. repeat split; auto. intros j. apply (@ms_frame j r); [|exact H].
  rewrite Hg. intros [].
Qed.

(** What a match of [re_range] is made of. *)
Lemma range_match_shape (t : str) (k : nat) (st' : mstate) :
  In st' (ms re_range (MState k t [])) ->
  exists a ws1 ws2 b,
    t = a ++ ws1 ++ lit "-" ++ ws2 ++ b
    /\ decimalToken a = true /\ decimalToken b = true
    /\ forallb isSpace ws1 = true /\ forallb isSpace ws2 = true
    /\ assoc 1 (caps st') = Some a /\ assoc 2 (caps st') = Some b.
Proof.
  unfold re_range. intros H.
  apply in_ms_seq in H as (s1 & H1 & H).
  cbn [ms pos] in H1. destruct (k =? 0); [|destruct H1].
  destruct H1 as [<-|[]].
  apply in_ms_seq in H as (s2 & H2 & H).
  apply in_ms_group in H2 as (a & Ea & _ & Ma & Ga & _).
  apply in_ms_seq in H as (s3 & H3 & H).
  apply (@in_ms_plain (Star (Class isSpace)) _ _ eq_refl) in H3
    as (ws1 & E1 & M1 & F1).
  apply in_ms_seq in H as (s4 & H4 & H).
  apply (@in_ms_plain (Chr "-") _ _ eq_refl) in H4 as (c & E4 & M4 & F4).
  apply in_ms_seq in H as (s5 & H5 & H).
  apply (@in_ms_plain (Star (Class isSpace)) _ _ eq_refl) in H5
    as (ws2 & E5 & M5 & F5).
  apply in_ms_seq in H as (s6 & H6 & H).
  apply in_ms_group in H6 as (b & Eb & _ & Mb & Gb & Fb).
  cbn [ms] in H. destruct (isEmpty (rest s6)) eqn:Ee; [|destruct H].
  destruct H as [<-|[]]. apply isEmpty_true in Ee.
  apply matches_chr_inv in M4. subst c.
  apply matches_star_class in M1, M5. apply matches_number in Ma, Mb.
  exists a, ws1, ws2, b. cbn [rest] in Ea.
  repeat split; auto.
  - rewrite Ea, E1, E4, E5, Eb, Ee. now rewrite app_nil_r.
  - rewrite Fb by (discriminate || (vm_compute; intros [])).
    now rewrite F5, F4, F1.
Qed.

Lemma exec_range_shape (t : str) (m : rmatch) :
  exec re_range t = Some m ->
  exists a ws1 ws2 b,
    t = a ++ ws1 ++ lit "-" ++ ws2 ++ b
    /\ decimalToken a = true /\ decimalToken b = true
    /\ forallb isSpace ws1 = true /\ forallb isSpace ws2 = true
    /\ group 1 m = Some a /\ group 2 m = Some b.
Proof.
  intros H. apply exec_at_final in H as (k & _ & Hk).
  assert (K : k = 0).
  { unfold re_range in Hk. apply in_ms_seq in Hk as (s1 & H1 & _).
    cbn [ms pos] in H1. destruct (0 + k =? 0) eqn:E; [|destruct H1].
    apply Nat.eqb_eq in E. lia. }
  subst k. cbn [skipn] in Hk. now apply range_match_shape in Hk.
Qed.

(** X24.  [parseRef] gives bounds for a range as written and for nothing
    else: when it returns a lower bound, the trimmed text is a number, a
    hyphen and a number with white space or none around the hyphen, and
    the bounds are these two numbers. *)
Theorem X24_bounds_from_range_only (refStr : option str) (lo : number) :
  Ref.refLow (parseRef refStr) = Some lo ->
  exists s a ws1 ws2 b,
    refStr = Some s
    /\ trim s = a ++ ws1 ++ lit "-" ++ ws2 ++ b
    /\ decimalToken a = true /\ decimalToken b = true
    /\ forallb isSpace ws1 = true /\ forallb isSpace ws2 = true
    /\ lo = Number a
    /\ parseRef refStr = Ref.Build (Some (Number a)) (Some (Number b)) None.
Proof.
  destruct refStr as [[|c r]|]; try discriminate. unfold parseRef.
  destruct (exec re_inequality _); [discriminate|].
  destruct (exec re_range _) as [m|] eqn:Hm; [|discriminate].
  apply exec_range_shape in Hm
    as (a & ws1 & ws2 & b & E & Ha & Hb & H1 & H2 & G1 & G2).
  rewrite G1, G2. cbn [Ref.refLow NumberOf]. intros [= <-].
  exists (c :: r), a, ws1, ws2, b. repeat split; auto.
Qed.

Lemma X24_bounds_from_range_only_witness :
  exists s a ws1 ws2 b,
    Some (lit " 4.4 - 6.0") = Some s
    /\ trim s = a ++ ws1 ++ lit "-" ++ ws2 ++ b
    /\ decimalToken a = true /\ decimalToken b = true
    /\ forallb isSpace ws1 = true /\ forallb isSpace ws2 = true
    /\ Number (lit "4.4") = Number a
    /\ parseRef (Some (lit " 4.4 - 6.0"))
       = Ref.Build (Some (Number a)) (Some (Number b)) None.
Proof.
  apply (@X24_bounds_from_range_only (Some (lit " 4.4 - 6.0"))
           (Number (lit "4.4"))).
  vm_compute. reflexivity.
Defined.

(** X25.  More generally, for a line written as the words of a name, a
    value, the words of a unit and the words of a reference (see
    [refWords]; none is allowed), white space of any kind and length
    between and around them: the record has the name and the unit with
    single spaces, the value, and as bounds and reference text what
    [parseRef] makes of the reference words joined by single spaces. *)
Theorem X25_line_as_written (line : str) (nw us rs : list str) (v : str) :
  normalizedLine line = join (lit " ") (nw ++ [v] ++ us ++ rs) ->
  nw <> [] -> forallb nameWord nw = true ->
  decimalToken v = true -> forallb unitWord us = true ->
  refWords us rs = true ->
  let r := parseRef (orNull (join (lit " ") rs)) in
  parseMeasurementLine line
  = Some (Measurement
            (normalizeKey (join (lit " ") nw)) (join (lit " ") nw)
            (Number v) (orNull (join (lit " ") us))
            (Ref.refLow r) (Ref.refHigh r) (Ref.refText r)
            (computeFlag (JNum (Number v)) (numOrNull (Ref.refLow r))
                         (numOrNull (Ref.refHigh r))
                         (strOrNull (Ref.refText r)))
            (normalizedLine line) None).
Proof.
  intros E Hnn Hnw Hv Hus Hrs r.
  rewrite <- parseMeasurementLine_normalized, E.
  now apply parseMeasurementLine_words.
Qed.

Lemma X25_line_as_written_witness :
  parseMeasurementLine (lit "C-Reactive Protein (CRP)  28.42 mg/L  <5.0")
  = Some (Measurement
            (lit "c_reactive_protein") (lit "C-Reactive Protein (CRP)")
            (Number (lit "28.42")) (Some (lit "mg/L"))
            None None (Some (lit "<5.0")) None
            (lit "C-Reactive Protein (CRP) 28.42 mg/L <5.0") None).
Proof.
  exact (@X25_line_as_written
           (lit "C-Reactive Protein (CRP)  28.42 mg/L  <5.0")
           [lit "C-Reactive"; lit "Protein"; lit "(CRP)"] [lit "mg/L"]
           [lit "<5.0"] (lit "28.42")
           ltac:(vm_compute; reflexivity) ltac:(discriminate)
           eq_refl eq_refl eq_refl eq_refl).
Defined.
